(** * git-overlay: the managed link lifecycle engine

    A shallow embedding of the Go sources of git-overlay
    (package cmd: validate.go, clean.go and the link and init commands;
    package internal/config: state.go)
    together with the properties of the path validator, the state store,
    the link materializer and the cleanup engine. *)

From Stdlib Require Import String Ascii List Bool Arith Lia Sorted Permutation.
From stdpp Require Import base decidable option list strings gmap sets sorting.

Set Warnings "-register-all".

Open Scope string_scope.
Open Scope list_scope.
Open Scope nat_scope.
Open Scope stdpp_scope.

(** ** Package strings (Go standard library)

    Go strings are byte sequences; [string] is a sequence of 8-bit
    [ascii] characters compared bytewise. *)

Module Strings.

(** strings.HasPrefix(s, prefix) *)
Fixpoint HasPrefix (s prefix : string) {struct prefix} : bool :=
  match prefix with
  | EmptyString => true
  | String c p' =>
      match s with
      | EmptyString => false
      | String d s' => Ascii.eqb d c && HasPrefix s' p'
      end
  end.

(** strings.Contains(s, substr) *)
Fixpoint Contains (s substr : string) : bool :=
  HasPrefix s substr ||
  match s with
  | EmptyString => false
  | String _ s' => Contains s' substr
  end.

(** strings.HasSuffix(s, suffix) *)
Fixpoint HasSuffix (s suffix : string) : bool :=
  String.eqb s suffix ||
  match s with
  | EmptyString => false
  | String _ s' => HasSuffix s' suffix
  end.

Fixpoint drop (n : nat) (s : string) : string :=
  match n, s with
  | S n', String _ s' => drop n' s'
  | _, _ => s
  end.

(** strings.TrimPrefix(s, prefix) *)
Definition TrimPrefix (s prefix : string) : string :=
  if HasPrefix s prefix then drop (String.length prefix) s else s.

(** strings.Count(s, "/"): for a one-byte separator the number of
    non-overlapping instances is the number of bytes equal to it. *)
Fixpoint Count (s : string) (c : ascii) : nat :=
  match s with
  | EmptyString => 0
  | String d s' => (if Ascii.eqb d c then 1 else 0) + Count s' c
  end.

(** strings.Split(s, sep) for a one-byte separator. *)
Fixpoint Split (s : string) (c : ascii) : list string :=
  match s with
  | EmptyString => [EmptyString]
  | String d s' =>
      if Ascii.eqb d c then EmptyString :: Split s' c
      else match Split s' c with
           | h :: t => String d h :: t
           | [] => [String d EmptyString]
           end
  end.

(** strings.Join(elems, sep) *)
Fixpoint Join (elems : list string) (sep : string) : string :=
  match elems with
  | [] => EmptyString
  | [e] => e
  | e :: rest => e +:+ sep +:+ Join rest sep
  end.

End Strings.

(** ** Package path/filepath (Go standard library, Unix)

    The functions of path/filepath are modelled on path elements, the
    maximal runs of bytes between separators, which is the granularity
    at which the library's scanning loops act. *)

Module Filepath.

Definition Separator : ascii := "/"%char.

(** filepath.IsAbs *)
Definition IsAbs (path : string) : bool := Strings.HasPrefix path "/".

(** The main loop of filepath.Clean.  [out] is the output buffer as a
    stack of elements (last written first).  A [".."] element
    backtracks when the buffer holds a real element on top
    ([out.w > dotdot]), is appended when the path is not rooted, and
    is dropped at the root. *)
Fixpoint cleanElems (rooted : bool) (elems out : list string) : list string :=
  match elems with
  | [] => out
  | e :: r =>
      if String.eqb e "" then cleanElems rooted r out
      else if String.eqb e "." then cleanElems rooted r out
      else if String.eqb e ".." then
        match out with
        | top :: out' =>
            if String.eqb top ".." then
              if rooted then cleanElems rooted r out
              else cleanElems rooted r (".." :: out)
            else cleanElems rooted r out'
        | [] =>
            if rooted then cleanElems rooted r out
            else cleanElems rooted r [".."]
        end
      else cleanElems rooted r (e :: out)
  end.

(** filepath.Clean *)
Definition Clean (path : string) : string :=
  if String.eqb path "" then "."
  else
    let rooted := Strings.HasPrefix path "/" in
    let out := rev (cleanElems rooted (Strings.Split path Separator) []) in
    if rooted then "/" +:+ Strings.Join out "/"
    else match out with
         | [] => "."
         | _ => Strings.Join out "/"
         end.

(** filepath.Join: the elements from the first non-empty one on are
    joined with the separator and cleaned. *)
Fixpoint Join (elem : list string) : string :=
  match elem with
  | [] => ""
  | e :: r =>
      if String.eqb e "" then Join r
      else Clean (Strings.Join elem "/")
  end.

(** The elements of a cleaned path as the scanning loop of
    filepath.Rel meets them: the empty string has none, and the
    separator that ends the root ["/"] starts no element. *)
Definition elements (p : string) : list string :=
  if String.eqb p "" then []
  else if String.eqb p "/" then [""]
  else Strings.Split p Separator.

(** The loop of filepath.Rel that positions both paths at their first
    differing elements.  The result is the rest of [base], the rest of
    [targ], and the element [base[b0:bi]] the loop stopped on (empty
    when the loop ended because a path was exhausted). *)
Fixpoint relSkip (base targ : list string) : list string * list string * string :=
  match base, targ with
  | b :: base', t :: targ' =>
      if String.eqb t b then relSkip base' targ'
      else (base, targ, b)
  | _, _ => (base, targ, "")
  end.

(** filepath.Rel; [None] is the error result. *)
Definition Rel (basepath targpath : string) : option string :=
  let base := Clean basepath in
  let targ := Clean targpath in
  if String.eqb targ base then Some "."
  else
    let base := if String.eqb base "." then "" else base in
    let baseSlashed := Strings.HasPrefix base "/" in
    let targSlashed := Strings.HasPrefix targ "/" in
    if negb (Bool.eqb baseSlashed targSlashed) then None
    else
      let '(brest, trest, cur) := relSkip (elements base) (elements targ) in
      if String.eqb cur ".." then None
      else
        match brest with
        | [] => Some (Strings.Join trest "/")
        | _ :: _ =>
            let ups := Strings.Join (map (fun _ => "..") brest) "/" in
            match trest with
            | [] => Some ups
            | _ :: _ => Some (ups +:+ "/" +:+ Strings.Join trest "/")
            end
        end.

(** The prefix of [path] up to and including its last separator. *)
Fixpoint dirPrefix (path : string) : string :=
  match path with
  | EmptyString => EmptyString
  | String c s' =>
      if Strings.Contains path "/" then String c (dirPrefix s') else EmptyString
  end.

(** filepath.Dir *)
Definition Dir (path : string) : string := Clean (dirPrefix path).

End Filepath.

(** ** Results *)

Inductive result (E A : Type) : Type :=
| Ok (a : A)
| Err (e : E).
Arguments Ok {E A} a.
Arguments Err {E A} e.

(** ** The file system (package os)

    The file system below the working directory is a tree.  The working
    directory is the root of the tree (the parent of the root is the
    root).  Hard links are entries with equal content: the identity of
    inodes is not modelled.  Of the permissions, the write permission
    of directories is enforced (it decides whether entries can be added
    and removed); the mode bits of files are recorded.  The entry list
    of a directory is in the order in which os.ReadDir lists it (by
    file name); new entries are put at their place. *)

Module OS.

Inductive errno : Type :=
| ENOENT | EEXIST | ENOTDIR | EISDIR | EACCES | ENOTEMPTY | ELOOP | EPERM | EINVAL.

Inductive node : Type :=
| File (mode : N) (data : string)
| Symlink (target : string)
| Dir (writable : bool) (entries : list (string * node)).

(** A location: the names leading from the root to a node. *)
Definition loc : Type := list string.

Definition IsDir (n : node) : bool :=
  match n with Dir _ _ => true | _ => false end.

Definition Mode (n : node) : N :=
  match n with
  | File mode _ => mode
  | Symlink _ => 511 (* 0777 *)
  | Dir _ _ => 493 (* 0755 *)
  end.

Fixpoint assoc (name : string) (es : list (string * node)) : option node :=
  match es with
  | [] => None
  | (x, c) :: r => if String.eqb x name then Some c else assoc name r
  end.

Fixpoint replaceEntry (name : string) (v : node) (es : list (string * node))
  : list (string * node) :=
  match es with
  | [] => []
  | (x, c) :: r =>
      if String.eqb x name then (name, v) :: r
      else (x, c) :: replaceEntry name v r
  end.

Fixpoint insertEntry (name : string) (v : node) (es : list (string * node))
  : list (string * node) :=
  match es with
  | [] => [(name, v)]
  | (x, c) :: r =>
      if String.ltb name x then (name, v) :: es
      else (x, c) :: insertEntry name v r
  end.

(** The entry [name] is replaced where it is, or put at its place in
    the order of names. *)
Definition putEntry (name : string) (v : node) (es : list (string * node))
  : list (string * node) :=
  match assoc name es with
  | Some _ => replaceEntry name v es
  | None => insertEntry name v es
  end.

Fixpoint delEntry (name : string) (es : list (string * node))
  : list (string * node) :=
  match es with
  | [] => []
  | (x, c) :: r =>
      if String.eqb x name then delEntry name r else (x, c) :: delEntry name r
  end.

Fixpoint lookup (n : node) (l : loc) : option node :=
  match l with
  | [] => Some n
  | x :: l' =>
      match n with
      | Dir _ es =>
          match assoc x es with
          | Some c => lookup c l'
          | None => None
          end
      | _ => None
      end
  end.

(** [setAt n l v] puts [v] at location [l] of [n], or removes the
    entry at [l] when [v] is [None]. *)
Fixpoint setAt (n : node) (l : loc) (v : option node) : node :=
  match l with
  | [] => match v with Some n' => n' | None => n end
  | x :: l' =>
      match n with
      | Dir w es =>
          match l' with
          | [] =>
              Dir w (match v with
                     | Some n' => putEntry x n' es
                     | None => delEntry x es
                     end)
          | _ :: _ =>
              match assoc x es with
              | Some c => Dir w (putEntry x (setAt c l' v) es)
              | None => n
              end
          end
      | _ => n
      end
  end.

Definition parentOf (l : loc) : loc := removelast l.

(** Whether entries can be added to and removed from the directory
    holding location [l]. *)
Definition parentWritable (root : node) (l : loc) : bool :=
  match lookup root (parentOf l) with
  | Some (Dir w _) => w
  | _ => false
  end.

(** *** Path resolution *)

Inductive resolved : Type :=
| RFound (l : loc) (n : node)
    (* the path names the node [n] at location [l] *)
| RMissing (parent : loc) (name : string)
    (* the path names the absent entry [name] of the directory at [parent] *)
| RError (e : errno).

(** The number of symbolic links followed in one resolution (Linux). *)
Definition MAXSYMLINKS : nat := 40.

Definition isNil {A} (l : list A) : bool :=
  match l with [] => true | _ => false end.

(** Resolution of the components [comps] from the directory at [cur].
    Symbolic links met on the way are followed; the last component is
    followed when [follow] is set (stat, open) and not otherwise
    (lstat, unlink, symlink, mkdir).  [fuel] counts the links that may
    still be followed (ELOOP beyond). *)
Fixpoint resolveFrom (fuel : nat) (root : node) (follow : bool)
  : loc → list string → resolved :=
  fix walk (cur : loc) (comps : list string) {struct comps} : resolved :=
    match comps with
    | [] =>
        match lookup root cur with
        | Some n => RFound cur n
        | None => RError ENOENT
        end
    | c :: rest =>
        match lookup root cur with
        | Some (Dir _ es) =>
            if String.eqb c "" || String.eqb c "." then walk cur rest
            else if String.eqb c ".." then walk (parentOf cur) rest
            else
              match assoc c es with
              | None =>
                  if isNil rest then RMissing cur c else RError ENOENT
              | Some (Symlink target) =>
                  if isNil rest && negb follow
                  then RFound (cur ++ [c]) (Symlink target)
                  else if String.eqb target "" then RError ENOENT
                  else
                    match fuel with
                    | 0 => RError ELOOP
                    | S fuel' =>
                        resolveFrom fuel' root follow
                          (if Filepath.IsAbs target then [] else cur)
                          (Strings.Split target "/" ++ rest)
                    end
              | Some _ => walk (cur ++ [c]) rest
              end
        | Some _ => RError ENOTDIR
        | None => RError ENOENT
        end
    end.

Definition namei (root : node) (follow : bool) (path : string) : resolved :=
  if String.eqb path "" then RError ENOENT
  else resolveFrom MAXSYMLINKS root follow [] (Strings.Split path "/").

(** *** System calls *)

Definition statWith (follow : bool) (root : node) (path : string)
  : result errno node :=
  match namei root follow path with
  | RFound _ n => Ok n
  | RMissing _ _ => Err ENOENT
  | RError e => Err e
  end.

(** os.Stat *)
Definition Stat := statWith true.

(** os.Lstat *)
Definition Lstat := statWith false.

(** os.IsNotExist *)
Definition IsNotExist (e : errno) : bool :=
  match e with ENOENT => true | _ => false end.

(** os.ReadDir *)
Definition ReadDir (root : node) (path : string)
  : result errno (list (string * node)) :=
  match namei root true path with
  | RFound _ (Dir _ es) => Ok es
  | RFound _ _ => Err ENOTDIR
  | RMissing _ _ => Err ENOENT
  | RError e => Err e
  end.

(** os.Remove: unlink of a file or link, rmdir of an empty directory. *)
Definition Remove (root : node) (path : string) : result errno node :=
  match namei root false path with
  | RFound [] _ => Err EINVAL
  | RFound l n =>
      if parentWritable root l then
        match n with
        | Dir _ (_ :: _) => Err ENOTEMPTY
        | _ => Ok (setAt root l None)
        end
      else Err EACCES
  | RMissing _ _ => Err ENOENT
  | RError e => Err e
  end.

(** What os.RemoveAll leaves of a node: everything below it that can
    be removed is removed; the flag tells whether the node itself is
    then ready to be removed from its directory. *)
Fixpoint purge (n : node) : node * bool :=
  match n with
  | Dir w es =>
      let es' :=
        (fix purgeEntries (es : list (string * node)) : list (string * node) :=
           match es with
           | [] => []
           | (x, c) :: r =>
               let '(c', gone) := purge c in
               if gone && w then purgeEntries r else (x, c') :: purgeEntries r
           end) es in
      (Dir w es', isNil es')
  | _ => (n, true)
  end.

(** os.RemoveAll: removes what it can and reports the first error;
    a path that does not exist is no error. *)
Definition RemoveAll (root : node) (path : string) : node * option errno :=
  match namei root false path with
  | RFound l n =>
      let '(n', gone) := purge n in
      if gone && negb (isNil l) && parentWritable root l
      then (setAt root l None, None)
      else (setAt root l (Some n'), Some EACCES)
  | RMissing _ _ => (root, None)
  | RError ENOENT => (root, None)
  | RError e => (root, Some e)
  end.

(** os.Mkdir (permission 0755) *)
Definition Mkdir (root : node) (path : string) : result errno node :=
  match namei root false path with
  | RFound _ _ => Err EEXIST
  | RMissing parent name =>
      if parentWritable root (parent ++ [name])
      then Ok (setAt root (parent ++ [name]) (Some (Dir true [])))
      else Err EACCES
  | RError e => Err e
  end.

(** os.MkdirAll on the elements of the path, last element first: when
    the path is no directory yet, the parent is made and then the
    directory itself.  Directories made before a failure stay. *)
Fixpoint mkdirAllElems (root : node) (relems : list string) : node * option errno :=
  let path := Strings.Join (rev relems) "/" in
  match Stat root path with
  | Ok n => if IsDir n then (root, None) else (root, Some ENOTDIR)
  | Err _ =>
      let '(root', perr) :=
        match relems with
        | [] | [_] => (root, None)
        | _ :: parent => mkdirAllElems root parent
        end in
      match perr with
      | Some e => (root', Some e)
      | None =>
          match Mkdir root' path with
          | Ok root'' => (root'', None)
          | Err e =>
              match Lstat root' path with
              | Ok n => if IsDir n then (root', None) else (root', Some e)
              | Err _ => (root', Some e)
              end
          end
      end
  end.

Definition MkdirAll (root : node) (path : string) : node * option errno :=
  mkdirAllElems root (rev (Strings.Split path "/")).

(** os.Symlink(oldname, newname) *)
Definition Symlink_ (root : node) (oldname newname : string) : result errno node :=
  match namei root false newname with
  | RFound _ _ => Err EEXIST
  | RMissing parent name =>
      if parentWritable root (parent ++ [name])
      then Ok (setAt root (parent ++ [name]) (Some (Symlink oldname)))
      else Err EACCES
  | RError e => Err e
  end.

(** os.Link(oldname, newname); link(2) does not follow a link at
    oldname. *)
Definition Link (root : node) (oldname newname : string) : result errno node :=
  match namei root false oldname with
  | RFound _ (Dir _ _) => Err EPERM
  | RFound _ n =>
      match namei root false newname with
      | RFound _ _ => Err EEXIST
      | RMissing parent name =>
          if parentWritable root (parent ++ [name])
          then Ok (setAt root (parent ++ [name]) (Some n))
          else Err EACCES
      | RError e => Err e
      end
  | RMissing _ _ => Err ENOENT
  | RError e => Err e
  end.

(** os.Open: the open file is the location it resolved to. *)
Definition Open (root : node) (path : string) : result errno loc :=
  match namei root true path with
  | RFound l _ => Ok l
  | RMissing _ _ => Err ENOENT
  | RError e => Err e
  end.

(** os.Create: open(O_RDWR|O_CREATE|O_TRUNC, 0666) under umask 022.
    A link at the path is followed, also when its referent is yet to
    be created. *)
Definition Create (root : node) (path : string) : result errno (node * loc) :=
  match namei root true path with
  | RFound l (File mode _) => Ok (setAt root l (Some (File mode "")), l)
  | RFound _ (Dir _ _) => Err EISDIR
  | RFound _ (Symlink _) => Err ELOOP
  | RMissing parent name =>
      if parentWritable root (parent ++ [name])
      then Ok (setAt root (parent ++ [name]) (Some (File 420 "")), parent ++ [name])
      else Err EACCES
  | RError e => Err e
  end.

(** Reading an open file to its end. *)
Definition readAt (root : node) (l : loc) : result errno string :=
  match lookup root l with
  | Some (File _ data) => Ok data
  | Some (Dir _ _) => Err EISDIR
  | _ => Err EINVAL
  end.

(** Writing to an open file that was truncated. *)
Definition writeAt (root : node) (l : loc) (data : string) : node :=
  match lookup root l with
  | Some (File mode _) => setAt root l (Some (File mode data))
  | _ => root
  end.

(** os.Chmod *)
Definition Chmod (root : node) (path : string) (mode : N) : result errno node :=
  match namei root true path with
  | RFound l (File _ data) => Ok (setAt root l (Some (File mode data)))
  | RFound _ _ => Ok root
  | RMissing _ _ => Err ENOENT
  | RError e => Err e
  end.

(** The number of nodes of a tree. *)
Fixpoint size (n : node) : nat :=
  match n with
  | Dir _ es =>
      S ((fix sizeEntries (es : list (string * node)) : nat :=
            match es with
            | [] => 0
            | (_, c) :: r => size c + sizeEntries r
            end) es)
  | _ => 1
  end.

(** os.ReadFile *)
Definition ReadFile (root : node) (path : string) : result errno string :=
  match Open root path with
  | Ok l => readAt root l
  | Err e => Err e
  end.

(** os.WriteFile(name, data, 0644) *)
Definition WriteFile (root : node) (path data : string) : result errno node :=
  match Create root path with
  | Ok (root', l) => Ok (writeAt root' l data)
  | Err e => Err e
  end.

End OS.

(** ** cmd/validate.go *)

Inductive error : Type :=
| ErrAbsolutePath (path : string)
| ErrInvalidPath
| ErrEscape (path : string)
| ErrInvalidTarget (cause : error)
| ErrCreateDirectory (dst : string) (cause : OS.errno)
| ErrTargetExists (dst : string)
| ErrRemoveExisting (dst : string) (cause : OS.errno)
| ErrCopyGitignore (cause : OS.errno)
| ErrRelativePath (src dst : string)
| ErrSymlink (src dst : string) (cause : OS.errno)
| ErrHardlink (src dst : string) (cause : OS.errno)
| ErrCopy (src dst : string) (cause : OS.errno)
| ErrUnsupportedLinkMode (linkMode : string)
| ErrSourceMissing (from : string)
| ErrWalk (cause : OS.errno)
| ErrWalkDepth
| ErrProcessDirectory (pattern : string) (cause : error)
| ErrProcessFile (pattern : string) (cause : error)
| ErrUpdateGitignore (cause : OS.errno)
| ErrLoadState
| ErrSaveState
| ErrOverlayMissing
| ErrReadDir (dir : string) (cause : OS.errno)
| ErrRereadDir (dir : string) (cause : OS.errno)
| ErrRemoveDir (dir : string) (cause : OS.errno)
| ErrEmptyDirs (cause : error).

(** validatePath ensures a path does not escape its parent directory *)
Definition validatePath (base path : string) : result error unit :=
  if Filepath.IsAbs path then Err (ErrAbsolutePath path)
  else
    let cleanBase := Filepath.Clean base in
    let cleanPath := Filepath.Clean (Filepath.Join [base; path]) in
    match Filepath.Rel cleanBase cleanPath with
    | None => Err ErrInvalidPath
    | Some rel =>
        if Strings.HasPrefix rel ".." || Strings.Contains path "../"
        then Err (ErrEscape path)
        else Ok tt
    end.

(** ** Lexical containment of paths *)

Module PathSpec.

(** An element without separator. *)
Definition sepFree (e : string) : Prop := Strings.Count e "/" = 0.

(** A real path element: neither empty nor a dot element. *)
Definition plainName (e : string) : Prop :=
  e ≠ "" ∧ e ≠ "." ∧ e ≠ ".." ∧ sepFree e.

(** The string of a normalized path with elements [l]. *)
Definition render (rooted : bool) (l : list string) : string :=
  if rooted then "/" +:+ Strings.Join l "/"
  else match l with
       | [] => "."
       | _ => Strings.Join l "/"
       end.

(** The elements of a normalized path: parent-directory elements
    first (none below the root), real elements after them. *)
Definition normal (rooted : bool) (l : list string) : Prop :=
  ∃ k names,
    l = replicate k ".." ++ names
    ∧ Forall plainName names
    ∧ (rooted = true → k = 0).

(** The empty element before the separator of a rooted path. *)
Definition rootElems (rooted : bool) : list string :=
  if rooted then [""] else [].

(** The element list computed by Clean. *)
Definition cleanList (path : string) : list string :=
  rev (Filepath.cleanElems (Filepath.IsAbs path)
         (Strings.Split path Filepath.Separator) []).

(** The elements of a normalized path string; the current directory
    ["."] has none. *)
Definition pathElements (p : string) : list string :=
  if String.eqb p "." then [] else Filepath.elements p.

(** [path], joined to [base] and normalized, stays lexically inside
    [base]: the elements of the normalized base followed by elements
    none of which is a parent-directory element. *)
Definition inside (base path : string) : Prop :=
  ∃ rest,
    pathElements (Filepath.Clean (Filepath.Join [base; path]))
    = pathElements (Filepath.Clean base) ++ rest
    ∧ ".." ∉ rest.

End PathSpec.

(** ** internal/config/state.go *)

Module Config.

(** ManagedFile represents a file managed by git-overlay *)
Record ManagedFile : Type := mkManagedFile {
  Path : string;      (* Path relative to overlay directory *)
  LinkMode : string;  (* Link mode used (symlink, hardlink, copy) *)
  Source : string     (* Source path in .upstream *)
}.

(** State represents the git-overlay state *)
Record State : Type := mkState {
  ManagedFiles : list ManagedFile
}.

Global Instance ManagedFile_eq_dec : EqDecision ManagedFile.
Proof. solve_decision. Defined.

(** The loop shared by AddManagedFile and RemoveManagedFile:
    [for i := len(files) - 1; i >= 0; i-- { if files[i].Path == path
    { files = append(files[:i], files[i+1:]...) } }], where [n] is the
    number of indices still to visit, so that the index visited is
    [n - 1]. *)
Fixpoint removeLoop (n : nat) (path : string) (files : list ManagedFile)
  : list ManagedFile :=
  match n with
  | 0 => files
  | S i =>
      match files !! i with
      | Some f =>
          if String.eqb (Path f) path
          then removeLoop i path (delete i files)
          else removeLoop i path files
      | None => removeLoop i path files
      end
  end.

(** RemoveManagedFile removes a file from the managed files list *)
Definition RemoveManagedFile (s : State) (path : string) : State :=
  mkState (removeLoop (length (ManagedFiles s)) path (ManagedFiles s)).

(** AddManagedFile adds a file to the managed files list *)
Definition AddManagedFile (s : State) (path linkMode source : string) : State :=
  mkState (removeLoop (length (ManagedFiles s)) path (ManagedFiles s)
           ++ [mkManagedFile path linkMode source]).

(** IsManagedFile checks if a file is managed by git-overlay; the
    pair (bool, *ManagedFile) of the source is the option. *)
Fixpoint findManaged (files : list ManagedFile) (path : string) : option ManagedFile :=
  match files with
  | [] => None
  | f :: r => if String.eqb (Path f) path then Some f else findManaged r path
  end.

Definition IsManagedFile (s : State) (path : string) : option ManagedFile :=
  findManaged (ManagedFiles s) path.

(** GetManagedFilesInDir returns all managed files in a directory *)
Fixpoint filesInDir (files : list ManagedFile) (dir : string) : list ManagedFile :=
  match files with
  | [] => []
  | f :: r =>
      if String.eqb (Filepath.Dir (Path f)) dir || String.eqb (Path f) dir
      then f :: filesInDir r dir
      else filesInDir r dir
  end.

Definition GetManagedFilesInDir (s : State) (dir : string) : list ManagedFile :=
  filesInDir (ManagedFiles s) dir.

End Config.

(** ** The ordering of managed paths in cmd/clean.go *)

Module CleanOrder.

(** The comparison passed to sort.Slice:
    [iDepth == jDepth ? paths[i] > paths[j] : iDepth > jDepth]. *)
Definition less (pi pj : string) : bool :=
  let iDepth := Strings.Count pi "/" in
  let jDepth := Strings.Count pj "/" in
  if Nat.eqb iDepth jDepth then String.ltb pj pi
  else Nat.ltb jDepth iDepth.

Fixpoint insert (x : string) (l : list string) : list string :=
  match l with
  | [] => [x]
  | y :: r => if less x y then x :: l else y :: insert x r
  end.

(** sort.Slice(paths, less).  The keys of a Go map are pairwise
    distinct and [less] is a strict total order on them, so the sorted
    slice does not depend on the sorting algorithm; insertion sort
    computes it. *)
Definition sortSlice (paths : list string) : list string :=
  foldr insert [] paths.

(** The lookup map of managed paths: [managedPaths[mf.Path] = struct{}{}]. *)
Definition managedPaths (s : Config.State) : gset string :=
  list_to_set (map Config.Path (Config.ManagedFiles s)).

(** The slice [sortedPaths] after sorting. *)
Definition sortedPaths (s : Config.State) : list string :=
  sortSlice (elements (managedPaths s)).

(** [child] lies strictly below [anc]: it is [anc], a separator and
    further elements. *)
Definition nestedUnder (child anc : string) : Prop :=
  ∃ rest, child = anc +:+ "/" +:+ rest.

End CleanOrder.

(** Sequences of registry operations, as performed by one or several
    runs of the materializer and the cleanup engine. *)

Module RegistryOps.
Import Config.

Inductive op : Type :=
| Upsert (path linkMode source : string)
| Remove (path : string).

Definition apply (s : State) (o : op) : State :=
  match o with
  | Upsert path linkMode source => AddManagedFile s path linkMode source
  | Remove path => RemoveManagedFile s path
  end.

Definition run (ops : list op) (s : State) : State := fold_left apply ops s.

(** At most one entry per path. *)
Definition uniquePaths (s : State) : Prop :=
  NoDup (map Path (ManagedFiles s)).

End RegistryOps.

(** ** The working directory of one invocation *)

(** The content of .git-overlay.state.json.  The JSON encoding is
    abstracted: a state that was saved is read back as it was. *)
Inductive StateFile : Type :=
| StateAbsent
| StateUnreadable
| StateCorrupt
| StateStored (s : Config.State).

Record World : Type := mkWorld {
  fs : OS.node;             (* the tree below the working directory *)
  stateFile : StateFile;    (* .git-overlay.state.json *)
  stateWritable : bool      (* whether the state file can be written *)
}.

(** LoadState loads the state file *)
Definition LoadState (w : World) : result error Config.State :=
  match stateFile w with
  | StateAbsent => Ok (Config.mkState [])
  | StateStored s => Ok s
  | StateUnreadable | StateCorrupt => Err ErrLoadState
  end.

(** SaveState saves the state file *)
Definition SaveState (s : Config.State) (w : World) : result error World :=
  if stateWritable w
  then Ok (mkWorld (fs w) (StateStored s) (stateWritable w))
  else Err ErrSaveState.

(** ** The link materializer *)

Module Link.
Import Config.

(** SymlinkSpec defines a symlink mapping *)
Record SymlinkSpec : Type := mkSymlinkSpec {
  From : string;
  To : string;
  String_ : string  (* the field String: set when the string form is used *)
}.

(** The fields of Config the materializer reads. *)
Record Config : Type := mkConfig {
  Symlinks : list SymlinkSpec;
  LinkMode_ : string  (* the field LinkMode *)
}.

(** What createLink works on: the file system, the slice createdLinks
    and the state. *)
Record Ctx : Type := mkCtx {
  root : OS.node;
  createdLinks : list string;
  state : State
}.

(** copyFile copies a single file from src to dst *)
Definition copyFile (root : OS.node) (src dst : string) : OS.node * option OS.errno :=
  match OS.Open root src with
  | Err e => (root, Some e)
  | Ok srcFile =>
      match OS.Create root dst with
      | Err e => (root, Some e)
      | Ok (root1, dstFile) =>
          match OS.readAt root1 srcFile with
          | Err e => (root1, Some e)
          | Ok data =>
              let root2 := OS.writeAt root1 dstFile data in
              match OS.Stat root2 src with
              | Err e => (root2, Some e)
              | Ok srcInfo =>
                  match OS.Chmod root2 dst (OS.Mode srcInfo) with
                  | Err e => (root2, Some e)
                  | Ok root3 => (root3, None)
                  end
              end
          end
      end
  end.

(** The part of createLink headed "Handle existing target". *)
Definition handleExisting (root : OS.node) (dst : string) (force : bool)
  : result error OS.node :=
  match OS.Stat root dst with
  | Ok _ =>
      if negb force then Err (ErrTargetExists dst)
      else
        match OS.Remove root dst with
        | Ok root' => Ok root'
        | Err e => Err (ErrRemoveExisting dst e)
        end
  | Err _ => Ok root
  end.

(** The switch of createLink over the link mode. *)
Definition makeLink (root : OS.node) (src dst linkMode : string)
  : OS.node * option error :=
  if String.eqb linkMode "symlink" then
    match Filepath.Rel (Filepath.Dir dst) src with
    | None => (root, Some (ErrRelativePath src dst))
    | Some relPath =>
        match OS.Symlink_ root relPath dst with
        | Ok root' => (root', None)
        | Err e => (root, Some (ErrSymlink src dst e))
        end
    end
  else if String.eqb linkMode "hardlink" then
    match OS.Link root src dst with
    | Ok root' => (root', None)
    | Err e => (root, Some (ErrHardlink src dst e))
    end
  else if String.eqb linkMode "copy" then
    match copyFile root src dst with
    | (root', None) => (root', None)
    | (root', Some e) => (root', Some (ErrCopy src dst e))
    end
  else (root, Some (ErrUnsupportedLinkMode linkMode)).

Definition withRoot (ctx : Ctx) (root' : OS.node) : Ctx :=
  mkCtx root' (createdLinks ctx) (state ctx).

(** What createLink records on success. *)
Definition track (ctx : Ctx) (root' : OS.node) (src dst linkMode : string) : Ctx :=
  mkCtx root' (createdLinks ctx ++ [dst])
    (AddManagedFile (state ctx)
       (Strings.TrimPrefix dst "overlay/") linkMode
       (Strings.TrimPrefix src ".upstream/")).

(** createLink creates a single link (symlink, hardlink, or copy)
    from src to dst *)
Definition createLink (src dst linkMode : string) (force : bool) (ctx : Ctx)
  : Ctx * option error :=
  match validatePath "overlay" (Strings.TrimPrefix dst "overlay/") with
  | Err e => (ctx, Some (ErrInvalidTarget e))
  | Ok _ =>
      let parentDir := Filepath.Dir dst in
      match OS.MkdirAll (root ctx) parentDir with
      | (root1, Some e) => (withRoot ctx root1, Some (ErrCreateDirectory dst e))
      | (root1, None) =>
          match handleExisting root1 dst force with
          | Err e => (withRoot ctx root1, Some e)
          | Ok root2 =>
              if Strings.HasSuffix dst ".gitignore" then
                match copyFile root2 src dst with
                | (root3, Some e) => (withRoot ctx root3, Some (ErrCopyGitignore e))
                | (root3, None) => (track ctx root3 src dst "copy", None)
                end
              else
                match makeLink root2 src dst linkMode with
                | (root3, Some e) => (withRoot ctx root3, Some e)
                | (root3, None) => (track ctx root3 src dst linkMode, None)
                end
          end
      end
  end.

(** The function passed to filepath.Walk, for a path with file
    information and no error. *)
Definition walkFn (from targetBase linkMode : string) (force : bool)
    (path : string) (info : OS.node) (ctx : Ctx) : Ctx * option error :=
  if OS.IsDir info then (ctx, None)
  else
    match Filepath.Rel from path with
    | None => (ctx, Some ErrInvalidPath)
    | Some relPath =>
        let targetPath := Filepath.Join ["overlay"; targetBase; relPath] in
        createLink path targetPath linkMode force ctx
    end.

(** The recursion of filepath.Walk: a directory is listed and its
    entries are visited in order, each after an lstat in the file
    system as it is then.  [fuel] bounds the depth of the
    recursion. *)
Fixpoint walk (fuel : nat) (from targetBase linkMode : string) (force : bool)
    (path : string) (info : OS.node) (ctx : Ctx) : Ctx * option error :=
  match fuel with
  | 0 => (ctx, Some ErrWalkDepth)
  | S fuel' =>
      if negb (OS.IsDir info)
      then walkFn from targetBase linkMode force path info ctx
      else
        match OS.ReadDir (root ctx) path with
        | Err e => (ctx, Some (ErrWalk e))
        | Ok entries =>
            (fix visit (names : list string) (ctx : Ctx) : Ctx * option error :=
               match names with
               | [] => (ctx, None)
               | name :: rest =>
                   let filename := Filepath.Join [path; name] in
                   match OS.Lstat (root ctx) filename with
                   | Err e => (ctx, Some (ErrWalk e))
                   | Ok fileInfo =>
                       match walk fuel' from targetBase linkMode force
                               filename fileInfo ctx with
                       | (ctx', None) => visit rest ctx'
                       | (ctx', Some e) => (ctx', Some e)
                       end
                   end
               end) (map fst entries) ctx
        end
  end.

(** filepath.Walk(from, fn) *)
Definition Walk (from targetBase linkMode : string) (force : bool) (ctx : Ctx)
  : Ctx * option error :=
  match OS.Lstat (root ctx) from with
  | Err e => (ctx, Some (ErrWalk e))
  | Ok info =>
      walk (S (OS.size (root ctx))) from targetBase linkMode force from info ctx
  end.

(** One iteration of the loop of CreateLinks over cfg.Symlinks. *)
Definition processLink (linkMode : string) (force : bool) (link : SymlinkSpec)
    (ctx : Ctx) : Ctx * option error :=
  let pattern := if String.eqb (String_ link) "" then From link else String_ link in
  let targetBase := if String.eqb (String_ link) "" then To link else String_ link in
  let from := Filepath.Join [".upstream"; pattern] in
  let to := Filepath.Join ["overlay"; targetBase] in
  match OS.Stat (root ctx) from with
  | Err _ => (ctx, Some (ErrSourceMissing from))
  | Ok info =>
      if OS.IsDir info then
        match Walk from targetBase linkMode force ctx with
        | (ctx', Some e) => (ctx', Some (ErrProcessDirectory pattern e))
        | (ctx', None) => (ctx', None)
        end
      else
        match createLink from to linkMode force ctx with
        | (ctx', Some e) => (ctx', Some (ErrProcessFile pattern e))
        | (ctx', None) => (ctx', None)
        end
  end.

Fixpoint processLinks (linkMode : string) (force : bool) (links : list SymlinkSpec)
    (ctx : Ctx) : Ctx * option error :=
  match links with
  | [] => (ctx, None)
  | link :: rest =>
      match processLink linkMode force link ctx with
      | (ctx', Some e) => (ctx', Some e)
      | (ctx', None) => processLinks linkMode force rest ctx'
      end
  end.

Definition newline : string := String "010" EmptyString.

Definition beginMarker : string := "# BEGIN GIT-OVERLAY MANAGED BLOCK - DO NOT EDIT".
Definition endMarker : string := "# END GIT-OVERLAY MANAGED BLOCK".

(** The loop of updateGitignore that drops the old managed block. *)
Fixpoint dropManagedBlock (lines : list string) (inManagedBlock : bool) : list string :=
  match lines with
  | [] => []
  | line :: rest =>
      if String.eqb line beginMarker then dropManagedBlock rest true
      else if String.eqb line endMarker then dropManagedBlock rest false
      else if inManagedBlock then dropManagedBlock rest inManagedBlock
      else line :: dropManagedBlock rest inManagedBlock
  end.

Definition updateGitignore (createdLinks : list string) (root : OS.node)
  : result OS.errno OS.node :=
  let content :=
    beginMarker +:+ newline
    +:+ fold_left (λ acc link, acc +:+ link +:+ newline) createdLinks ""
    +:+ endMarker in
  let absent :=
    match OS.Stat root ".gitignore" with
    | Err e => OS.IsNotExist e
    | Ok _ => false
    end in
  if absent then OS.WriteFile root ".gitignore" content
  else
    match OS.ReadFile root ".gitignore" with
    | Err e => Err e
    | Ok existing =>
        let lines := Strings.Split existing "010" in
        let newLines := dropManagedBlock lines false in
        let newLines :=
          match last newLines with
          | Some l => if String.eqb l "" then newLines else newLines ++ [""]
          | None => newLines
          end in
        let newLines := newLines ++ [content] in
        OS.WriteFile root ".gitignore" (Strings.Join newLines newline)
    end.

(** CreateLinks creates symlinks according to the configuration.
    [flagLinkMode] and [force] are the command-line flags. *)
Definition CreateLinks (flagLinkMode : string) (force : bool) (cfg : Config)
    (w : World) : World * option error :=
  let linkMode :=
    if String.eqb (LinkMode_ cfg) "" then flagLinkMode else LinkMode_ cfg in
  match LoadState w with
  | Err e => (w, Some e)
  | Ok st =>
      match processLinks linkMode force (Symlinks cfg) (mkCtx (fs w) [] st) with
      | (ctx, Some e) => (mkWorld (root ctx) (stateFile w) (stateWritable w), Some e)
      | (ctx, None) =>
          match updateGitignore (createdLinks ctx) (root ctx) with
          | Err e =>
              (mkWorld (root ctx) (stateFile w) (stateWritable w),
               Some (ErrUpdateGitignore e))
          | Ok root' =>
              match SaveState (state ctx) (mkWorld root' (stateFile w) (stateWritable w)) with
              | Err e => (mkWorld root' (stateFile w) (stateWritable w), Some e)
              | Ok w' => (w', None)
              end
          end
      end
  end.

End Link.

(** ** The cleanup engine (cmd/clean.go) *)

Module Clean.
Import Config CleanOrder.

(** isFullyManaged checks if a directory and all its contents are
    managed.  The recursive call reads the directory
    [entryPath = path/name], the entry [name] of the directory just
    listed: the recursion is on the tree. *)
Fixpoint isFullyManagedNode (path : string) (n : OS.node) (managedPaths : gset string)
  : bool :=
  match n with
  | OS.Dir _ entries =>
      (fix each (entries : list (string * OS.node)) : bool :=
         match entries with
         | [] => true
         | (name, entry) :: rest =>
             let entryPath := Filepath.Join [path; name] in
             match Filepath.Rel "overlay" entryPath with
             | None => false
             | Some relPath =>
                 if bool_decide (relPath ∈ managedPaths) then
                   if OS.IsDir entry then
                     if isFullyManagedNode entryPath entry managedPaths
                     then each rest else false
                   else each rest
                 else false
             end
         end) entries
  | _ => false
  end.

Definition isFullyManaged (root : OS.node) (path : string) (managedPaths : gset string)
  : bool :=
  match OS.namei root true path with
  | OS.RFound _ n => isFullyManagedNode path n managedPaths
  | _ => false
  end.

(** removeEmptyDirs recursively traverses the directory tree starting
    at 'dir'.  After processing children, it checks if the directory
    is empty and removes it.  [n] is the directory at [dir] and
    [parentWritable] tells whether its entry can be removed; the
    result is what is left of [n] ([None] when it was removed) and the
    error.  The subdirectories after a failing one are not visited. *)
Fixpoint removeEmptyDirsNode (dir : string) (parentWritable : bool) (n : OS.node)
  : option OS.node * option error :=
  match n with
  | OS.Dir w entries =>
      let '(entries', err) :=
        (fix each (entries : list (string * OS.node))
           : list (string * OS.node) * option error :=
           match entries with
           | [] => ([], None)
           | (name, entry) :: rest =>
               if OS.IsDir entry then
                 let subdir := Filepath.Join [dir; name] in
                 match removeEmptyDirsNode subdir w entry with
                 | (Some entry', Some e) => ((name, entry') :: rest, Some e)
                 | (None, Some e) => (rest, Some e)
                 | (Some entry', None) =>
                     let '(rest', err) := each rest in
                     ((name, entry') :: rest', err)
                 | (None, None) => each rest
                 end
               else
                 let '(rest', err) := each rest in
                 ((name, entry) :: rest', err)
           end) entries in
      match err with
      | Some e => (Some (OS.Dir w entries'), Some e)
      | None =>
          if OS.isNil entries' && negb (String.eqb dir "overlay") then
            if parentWritable then (None, None)
            else (Some (OS.Dir w entries'), Some (ErrRemoveDir dir OS.EACCES))
          else (Some (OS.Dir w entries'), None)
      end
  | _ => (Some n, Some (ErrReadDir dir OS.ENOTDIR))
  end.

Definition removeEmptyDirs (root : OS.node) (dir : string) : OS.node * option error :=
  match OS.namei root true dir with
  | OS.RFound l n =>
      match removeEmptyDirsNode dir (OS.parentWritable root l) n with
      | (n', err) => (OS.setAt root l n', err)
      end
  | OS.RMissing _ _ => (root, Some (ErrReadDir dir OS.ENOENT))
  | OS.RError e => (root, Some (ErrReadDir dir e))
  end.

(** The variables of the loop over the managed paths. *)
Record Loop : Type := mkLoop {
  root : OS.node;
  state : State;
  removed : nat
}.

(** One iteration of the loop "Process each managed path".  [None]
    is the run-time panic of [info.IsDir()] on the nil FileInfo that
    os.Lstat returns with an error other than "does not exist". *)
Definition processPath (managedPaths : gset string) (relPath : string) (v : Loop)
  : option Loop :=
  let fullPath := Filepath.Join ["overlay"; relPath] in
  match OS.Lstat (root v) fullPath with
  | Err e =>
      if OS.IsNotExist e
      then Some (mkLoop (root v) (RemoveManagedFile (state v) relPath) (removed v))
      else None
  | Ok info =>
      if negb (OS.IsDir info) then
        match OS.Remove (root v) fullPath with
        | Ok root' =>
            Some (mkLoop root' (RemoveManagedFile (state v) relPath) (S (removed v)))
        | Err _ =>
            Some (mkLoop (root v) (RemoveManagedFile (state v) relPath) (removed v))
        end
      else if isFullyManaged (root v) fullPath managedPaths then
        match OS.RemoveAll (root v) fullPath with
        | (root', None) =>
            Some (mkLoop root' (RemoveManagedFile (state v) relPath) (S (removed v)))
        | (root', Some _) =>
            Some (mkLoop root' (RemoveManagedFile (state v) relPath) (removed v))
        end
      else Some v
  end.

(** The loop; the flag tells whether it ended in the panic. *)
Fixpoint processPaths (managedPaths : gset string) (paths : list string) (v : Loop)
  : Loop * bool :=
  match paths with
  | [] => (v, false)
  | relPath :: rest =>
      match processPath managedPaths relPath v with
      | Some v' => processPaths managedPaths rest v'
      | None => (v, true)
      end
  end.

(** The loop "Final cleanup: ensure all managed paths are removed
    from state". *)
Definition dropAll (paths : list string) (s : State) : State :=
  fold_left RemoveManagedFile paths s.

Inductive outcome : Type :=
| Removed (count : nat)   (* "Removed %d managed files and directories" *)
| Failed (e : error)
| Panicked.

(** The RunE function of cleanCmd. *)
Definition cleanCmd (w : World) : outcome * World :=
  let missing :=
    match OS.Stat (fs w) "overlay" with
    | Err e => OS.IsNotExist e
    | Ok _ => false
    end in
  if missing then (Failed ErrOverlayMissing, w)
  else
    match LoadState w with
    | Err e => (Failed e, w)
    | Ok st =>
        let managedPaths := managedPaths st in
        let sortedPaths := sortedPaths st in
        match processPaths managedPaths sortedPaths (mkLoop (fs w) st 0) with
        | (v, true) => (Panicked, mkWorld (root v) (stateFile w) (stateWritable w))
        | (v, false) =>
            let st' := dropAll (elements managedPaths) (state v) in
            match removeEmptyDirs (root v) "overlay" with
            | (root', Some e) =>
                (Failed (ErrEmptyDirs e), mkWorld root' (stateFile w) (stateWritable w))
            | (root', None) =>
                match SaveState st' (mkWorld root' (stateFile w) (stateWritable w)) with
                | Err e => (Failed e, mkWorld root' (stateFile w) (stateWritable w))
                | Ok w' => (Removed (removed v), w')
                end
            end
        end
    end.

End Clean.

(** ** Properties of trees *)

Module TreeSpec.
Import OS.

(** [shrinks n n']: the tree [n'] is the tree [n] with entries
    deleted; nothing is added and no file or link is changed. *)
Fixpoint shrinks (n n' : node) {struct n} : Prop :=
  n' = n
  ∨ match n with
    | Dir w es =>
        ∃ es', n' = Dir w es'
          ∧ (fix shrinkEntries (es es' : list (string * node)) {struct es} : Prop :=
               match es with
               | [] => es' = []
               | (x, c) :: r =>
                   shrinkEntries r es'
                   ∨ match es' with
                     | (x', c') :: r' => x' = x ∧ shrinks c c' ∧ shrinkEntries r r'
                     | [] => False
                     end
               end) es es'
    | _ => False
    end.

Global Arguments shrinks : simpl never.



(** The entry "overlay" of the working directory is no symbolic
    link. *)
Definition overlayNotLink (root : node) : Prop :=
  ∀ target, lookup root ["overlay"] ≠ Some (Symlink target).

(** The entries of a directory shrink. *)
Definition shrinkEntries : list (string * node) → list (string * node) → Prop :=
  fix shrinkEntries (es es' : list (string * node)) {struct es} : Prop :=
    match es with
    | [] => es' = []
    | (x, c) :: r =>
        shrinkEntries r es'
        ∨ match es' with
          | (x', c') :: r' => x' = x ∧ shrinks c c' ∧ shrinkEntries r r'
          | [] => False
          end
    end.


(** The entries of a directory after os.RemoveAll below it. *)
Definition purgeEntries (w : bool) : list (string * node) → list (string * node) :=
  fix purgeEntries (es : list (string * node)) : list (string * node) :=
    match es with
    | [] => []
    | (x, c) :: r =>
        let '(c', gone) := purge c in
        if gone && w then purgeEntries r else (x, c') :: purgeEntries r
    end.

(** The loop of removeEmptyDirs over the entries of a directory. *)
Definition removeEmptySubdirs (dir : string) (w : bool)
  : list (string * node) → list (string * node) * option error :=
  fix each (entries : list (string * node)) : list (string * node) * option error :=
    match entries with
    | [] => ([], None)
    | (name, entry) :: rest =>
        if IsDir entry then
          let subdir := Filepath.Join [dir; name] in
          match Clean.removeEmptyDirsNode subdir w entry with
          | (Some entry', Some e) => ((name, entry') :: rest, Some e)
          | (None, Some e) => (rest, Some e)
          | (Some entry', None) =>
              let '(rest', err) := each rest in
              ((name, entry') :: rest', err)
          | (None, None) => each rest
          end
        else
          let '(rest', err) := each rest in
          ((name, entry) :: rest', err)
    end.

(** Two nodes of the same kind: two files, two directories, or two
    links with the same target. *)
Definition sameKind (n n' : node) : Prop :=
  match n, n' with
  | File _ _, File _ _ => True
  | Symlink t, Symlink t' => t = t'
  | Dir _ _, Dir _ _ => True
  | _, _ => False
  end.

(** [grows root root']: every place of [root] is a place of [root']
    that holds a node of the same kind. *)
Definition grows (root root' : node) : Prop :=
  ∀ l n, lookup root l = Some n → ∃ n', lookup root' l = Some n' ∧ sameKind n n'.

End TreeSpec.

(** ** cmd/dir_info.go *)

Module Dirs.

(** DirInfo tracks information about a directory *)
Record DirInfo : Type := mkDirInfo {
  HasUnmanaged : bool;
  ManagedFiles : gmap string bool;
  IsManaged : bool
}.

(** The DirInfo that InitDir makes for a directory it has not seen. *)
Definition newDirInfo : DirInfo := mkDirInfo false ∅ false.

(** InitDir initializes directory tracking information.  The map
    holds pointers in the source; InitDir changes no DirInfo, so the
    value stands for the pointer.  [fuel] bounds the depth of the
    recursion over the parent directories. *)
Fixpoint InitDir (fuel : nat) (dir : string) (dirMap : gmap string DirInfo)
  : option (DirInfo * gmap string DirInfo) :=
  match dirMap !! dir with
  | Some info => Some (info, dirMap)
  | None =>
      let info := newDirInfo in
      let dirMap := <[dir := info]> dirMap in
      if negb (String.eqb dir "overlay") then
        match fuel with
        | 0 => None
        | S fuel' =>
            let parent := Filepath.Dir dir in
            match InitDir fuel' parent dirMap with
            | Some (_, dirMap') => Some (info, dirMap')
            | None => None
            end
        end
      else Some (info, dirMap)
  end.

(** Every directory of the map other than "overlay" has its parent
    directory in the map. *)
Definition parentsTracked (dirMap : gmap string DirInfo) : Prop :=
  ∀ dir, is_Some (dirMap !! dir) → dir ≠ "overlay" →
         is_Some (dirMap !! Filepath.Dir dir).

(** A bound on the calls of InitDir for a directory: filepath.Dir
    shortens a path until it is the current directory or the root. *)
Definition steps (dir : string) : nat :=
  if String.eqb dir "." || String.eqb dir "/" then 0 else S (String.length dir).

End Dirs.

(** ** internal/config/types.go *)

Module Types.

(** UnmarshalYAML implements custom YAML unmarshaling.  The argument
    [unmarshal] of the source, the decoder of the YAML node at hand,
    is given by what its two calls return: the node decoded into a
    string, and the node decoded into the fields from and to of the
    struct (the field String is not decoded: its tag is "-").  [None]
    is the error of the decoder. *)
Definition UnmarshalYAML (asString : option string) (asStruct : option (string * string))
  : option Link.SymlinkSpec :=
  match asString with
  | Some str => Some (Link.mkSymlinkSpec str str str)
  | None =>
      match asStruct with
      | None => None
      | Some (from, to) => Some (Link.mkSymlinkSpec from to "")
      end
  end.

End Types.

(** ** What the materializer records *)

Module LinkSpec.

(** Every created link has its entry in the state. *)
Definition registered (ctx : Link.Ctx) : Prop :=
  ∀ dst, dst ∈ Link.createdLinks ctx →
         Config.IsManagedFile (Link.state ctx) (Strings.TrimPrefix dst "overlay/") ≠ None.

(** The created links and the registered paths of [ctx] are created
    links and registered paths of [ctx']. *)
Definition extends (ctx ctx' : Link.Ctx) : Prop :=
  Link.createdLinks ctx `prefix_of` Link.createdLinks ctx'
  ∧ ∀ q, Config.IsManagedFile (Link.state ctx) q ≠ None →
         Config.IsManagedFile (Link.state ctx') q ≠ None.

End LinkSpec.

(** ** The managed block of .gitignore *)

Module GitignoreSpec.

(** The lines of the managed block for the created links. *)
Definition managedBlock (createdLinks : list string) : string :=
  Link.beginMarker
  +:+ (Link.newline
       +:+ (fold_left (λ acc link, acc +:+ (link +:+ Link.newline)) createdLinks ""
            +:+ Link.endMarker)).

(** A string without line break. *)
Definition lineOf (s : string) : Prop := Strings.Count s "010" = 0.

(** No line is a marker of the managed block. *)
Definition markerFree (lines : list string) : Prop :=
  (Link.beginMarker ∉ lines) ∧ (Link.endMarker ∉ lines).

(** The blank line that updateGitignore puts before the new block
    when the lines kept do not end with one. *)
Definition withBlankLine (newLines : list string) : list string :=
  match last newLines with
  | Some l => if String.eqb l "" then newLines else newLines ++ [""]
  | None => newLines
  end.

(** The text that updateGitignore writes over an existing file. *)
Definition rewritten (existing : string) (createdLinks : list string) : string :=
  Strings.Join
    (withBlankLine (Link.dropManagedBlock (Strings.Split existing "010") false)
     ++ [managedBlock createdLinks])
    Link.newline.

End GitignoreSpec.

(** ** The scenarios of the repository's tests and of the specification *)

Section Scenarios.
Import OS Config.

Definition file (data : string) : node := File 420 data.
Definition dir (entries : list (string * node)) : node := Dir true entries.

(** TestCleanCommand, "clean managed directory with nested structure". *)
Definition nestedWorld : World :=
  mkWorld
    (dir [(".upstream", dir [("dir", dir [("managed.txt", file "managed")])]);
          ("overlay",
           dir [("dir",
                 dir [("empty", dir []);
                      ("keep", dir [("custom.txt", file "custom")]);
                      ("managed.txt", Symlink "../../.upstream/dir/managed.txt")])])])
    (StateStored (mkState [mkManagedFile "dir/managed.txt" "symlink" "dir/managed.txt";
                           mkManagedFile "dir/empty" "symlink" "dir/empty"]))
    true.

(** The scenario of the specification: one directory mapping. *)
Definition libraryWorld : World :=
  mkWorld
    (dir [(".upstream", dir [("src", dir [("lib", dir [("x.txt", file "x")])])]);
          ("overlay", dir [])])
    StateAbsent true.

Definition libraryConfig : Link.Config :=
  Link.mkConfig [Link.mkSymlinkSpec "src/lib" "library" ""] "".

(** Two file mappings; the target of the second one exists. *)
Definition partialWorld : World :=
  mkWorld
    (dir [(".upstream", dir [("a.txt", file "a"); ("b.txt", file "b")]);
          ("overlay", dir [("b.txt", file "custom")])])
    StateAbsent true.

Definition partialConfig : Link.Config :=
  Link.mkConfig [Link.mkSymlinkSpec "a.txt" "a.txt" "a.txt"; Link.mkSymlinkSpec "b.txt" "b.txt" "b.txt"] "".


(** A stale link at overlay/b.txt whose referent .upstream/old.txt is
    gone. *)
Definition staleWorld : World :=
  mkWorld
    (dir [(".upstream", dir [("new.txt", file "new")]);
          ("overlay", dir [("b.txt", Symlink "../.upstream/old.txt")])])
    StateAbsent true.




End Scenarios.

(** * Properties *)

Example clean1 : map Filepath.Clean ["a/./b"; "a//b"; "a/../../x"; "/../a"; ""; "a/.."; "/"; "../../a/"]
  = ["a/b"; "a/b"; "../x"; "/a"; "."; "."; "/"; "../../a"].
Proof. vm_compute. reflexivity. Qed.

Example rel1 : map (fun '(b, t) => Filepath.Rel b t)
   [("a/b", "a/b/c/d"); ("a/b", "a/b/../c"); ("a/b/c", "a/c/d"); ("/a/b", "/c/d"); (".", "a/b"); ("..", "a"); ("a", "/a"); ("/", "/x"); ("/a", "/"); ("a/b/c/d", "a/b")]
  = [Some "c/d"; Some "../c"; Some "../../c/d"; Some "../../c/d"; Some "a/b"; None; None; Some "x"; Some ".."; Some "../.."].
Proof. vm_compute. reflexivity. Qed.

Example dir1 : map Filepath.Dir ["dir/a/b"; "a"; "/a"; "a/"; ""; "a//b"]
  = ["dir/a"; "."; "/"; "a"; "."; "a"].
Proof. vm_compute. reflexivity. Qed.

Example validate_tests :
  map (fun p => validatePath "overlay" p)
      ["test.txt"; "subdir/test.txt"; ".config"; "../test.txt"; "/etc/passwd";
       "subdir/../../../test.txt"; "subdir/./test.txt"; "subdir//test.txt"; "a/../b"; "a/.."; "..foo"]
  = [Ok tt; Ok tt; Ok tt; Err (ErrEscape "../test.txt"); Err (ErrAbsolutePath "/etc/passwd");
     Err (ErrEscape "subdir/../../../test.txt"); Ok tt; Ok tt; Err (ErrEscape "a/../b"); Ok tt; Err (ErrEscape "..foo")].
Proof. vm_compute. reflexivity. Qed.

(** ** Path elements *)

Section PathElements.
Import Filepath Strings PathSpec.

Lemma Split_nonempty s c : ∃ h t, Split s c = h :: t.
Proof.
  destruct s as [|d s]; simpl; [eauto|].
  destruct (Ascii.eqb d c); [eauto|]. destruct (Split s c); eauto.
Qed.

Lemma Split_app a b :
  Split (a +:+ String "/" b) "/" = Split a "/" ++ Split b "/".
Proof.
  induction a as [|d a IH]; [done|]. simpl.
  destruct (Ascii.eqb d "/"); [by rewrite IH|].
  rewrite IH. destruct (Split_nonempty a "/") as (h & t & ->). done.
Qed.

Lemma Split_sepFree e : sepFree e → Split e "/" = [e].
Proof.
  unfold sepFree. induction e as [|d e IH]; simpl; [done|].
  destruct (Ascii.eqb d "/"); [done|]. intros H. by rewrite IH.
Qed.

Lemma Split_Forall_sepFree s : Forall sepFree (Split s "/").
Proof.
  induction s as [|d s IH]; simpl; [by repeat constructor|].
  destruct (Ascii.eqb d "/") eqn:Hd; [by constructor|].
  destruct (Split s "/") as [|h t]; [by constructor; [unfold sepFree; simpl; rewrite Hd|]|].
  apply Forall_cons in IH as [Hh Ht]. constructor; [|done].
  unfold sepFree in *. simpl. by rewrite Hd.
Qed.

Lemma Split_Join l :
  l ≠ [] → Forall sepFree l → Split (Join l "/") "/" = l.
Proof.
  induction l as [|e l IH]; [done|]. intros _ Hall.
  apply Forall_cons in Hall as [He Hl].
  destruct l as [|e' l]; [by apply Split_sepFree|].
  change (Join (e :: e' :: l) "/") with (e +:+ String "/" (Join (e' :: l) "/")).
  rewrite Split_app, IH by done. by rewrite Split_sepFree.
Qed.

Lemma HasPrefix_app_sepFree e s :
  e ≠ "" → sepFree e → HasPrefix (e +:+ s) "/" = false.
Proof.
  destruct e as [|d e]; [done|]. intros _. unfold sepFree. simpl.
  destruct (Ascii.eqb d "/"); [done|]. by rewrite andb_false_l.
Qed.

Lemma HasPrefix_sepFree e : sepFree e → HasPrefix e "/" = false.
Proof.
  destruct e as [|d e]; [done|]. unfold sepFree. simpl.
  destruct (Ascii.eqb d "/"); [done|]. by rewrite andb_false_l.
Qed.

Lemma cleanElems_app rooted l1 l2 out :
  cleanElems rooted (l1 ++ l2) out
  = cleanElems rooted l2 (cleanElems rooted l1 out).
Proof.
  revert out. induction l1 as [|e l1 IH]; intros out; [done|]. simpl.
  destruct (String.eqb e ""); [done|]. destruct (String.eqb e "."); [done|].
  destruct (String.eqb e ".."); [|done].
  destruct out as [|top out']; [by destruct rooted|].
  destruct (String.eqb top ".."); [by destruct rooted|done].
Qed.

(** Pushing real elements. *)
Lemma cleanElems_names rooted names out :
  Forall plainName names →
  cleanElems rooted names out = rev names ++ out.
Proof.
  revert out. induction names as [|e names IH]; intros out Hall; [done|].
  apply Forall_cons in Hall as [(He1 & He2 & He3 & _) Hall]. simpl.
  apply String.eqb_neq in He1, He2, He3. rewrite He1, He2, He3.
  rewrite IH by done. by rewrite <- app_assoc.
Qed.

(** Leading dot-dot elements of a path that is not rooted pile up. *)
Lemma cleanElems_dotdots k j l :
  cleanElems false (replicate k ".." ++ l) (replicate j "..")
  = cleanElems false l (replicate (k + j) "..").
Proof.
  revert j. induction k as [|k IH]; intros j; [done|].
  assert (cleanElems false (replicate (S k) ".." ++ l) (replicate j "..")
          = cleanElems false (replicate k ".." ++ l) (replicate (S j) "..")) as ->
    by (by destruct j).
  rewrite IH. do 2 f_equal. lia.
Qed.

End PathElements.

Section CleanFacts.
Import Filepath Strings PathSpec.

Lemma cleanElems_shape rooted elems names k :
  Forall sepFree elems → Forall plainName names → (rooted = true → k = 0) →
  ∃ k' names',
    cleanElems rooted elems (names ++ replicate k "..")
    = names' ++ replicate k' ".."
    ∧ Forall plainName names' ∧ (rooted = true → k' = 0).
Proof.
  intros Hsep. revert names k.
  induction Hsep as [|e elems He _ IH]; intros names k Hnames Hk; [by eauto|].
  simpl.
  destruct (String.eqb_spec e ""); [by apply IH|].
  destruct (String.eqb_spec e "."); [by apply IH|].
  destruct (String.eqb_spec e "..").
  - destruct names as [|top names]; simpl.
    + destruct k as [|k]; simpl.
      * destruct rooted; [by apply (IH [] 0)|]. by apply (IH [] 1).
      * destruct rooted; [by apply (IH [] (S k))|].
        apply (IH [] (S (S k))); [done|]. intros; done.
    + apply Forall_cons in Hnames as [(_ & _ & Htop & _) Hnames].
      apply String.eqb_neq in Htop. rewrite Htop. by apply IH.
  - apply (IH (e :: names) k); [|done]. by constructor.
Qed.

Lemma rev_replicate {A} k (x : A) : rev (replicate k x) = replicate k x.
Proof.
  induction k as [|k IH]; [done|]. simpl. rewrite IH.
  clear. induction k as [|k IH]; [done|]. simpl. by rewrite IH.
Qed.

Lemma Clean_render_cleanList path :
  Clean path = render (IsAbs path) (cleanList path).
Proof. unfold Clean. destruct (String.eqb_spec path ""); [by subst|done]. Qed.

Lemma cleanList_normal path : normal (IsAbs path) (cleanList path).
Proof.
  unfold cleanList.
  destruct (cleanElems_shape (IsAbs path) (Split path Separator) [] 0)
    as (k & names & Heq & Hnames & Hk); [apply Split_Forall_sepFree|done..|].
  simpl in Heq. rewrite Heq. exists k, (rev names).
  rewrite rev_app_distr, rev_replicate. split_and!; [done| |done].
  by apply Forall_rev.
Qed.

Lemma normal_app_names rooted l names :
  normal rooted l → Forall plainName names → normal rooted (l ++ names).
Proof.
  intros (k & names' & -> & Hnames & Hk) HN. exists k, (names' ++ names).
  rewrite <- app_assoc. split_and!; [done| |done]. by apply Forall_app.
Qed.

Lemma normal_Forall_sepFree rooted l : normal rooted l → Forall sepFree l.
Proof.
  intros (k & names & -> & Hnames & _). apply Forall_app. split.
  - apply Forall_replicate. done.
  - eapply Forall_impl; [done|]. by intros e (_ & _ & _ & ?).
Qed.

Lemma normal_Forall_nonempty rooted l : normal rooted l → Forall (λ e, e ≠ "") l.
Proof.
  intros (k & names & -> & Hnames & _). apply Forall_app. split.
  - apply Forall_replicate. done.
  - eapply Forall_impl; [done|]. by intros e (? & _).
Qed.

Lemma normal_Forall_nodot rooted l : normal rooted l → Forall (λ e, e ≠ ".") l.
Proof.
  intros (k & names & -> & Hnames & _). apply Forall_app. split.
  - apply Forall_replicate. done.
  - eapply Forall_impl; [done|]. by intros e (_ & ? & _).
Qed.

Lemma Split_Join_normal rooted l :
  normal rooted l → l ≠ [] → Split (Join l "/") "/" = l.
Proof. intros Hn Hl. apply Split_Join; [done|]. by eapply normal_Forall_sepFree. Qed.

Lemma Split_render rooted l :
  normal rooted l →
  Split (render rooted l) "/"
  = if rooted then "" :: (match l with [] => [""] | _ => l end)
    else match l with [] => ["."] | _ => l end.
Proof.
  intros Hn. unfold render. destruct rooted.
  - change (Split ("/" +:+ Join l "/") "/") with ("" :: Split (Join l "/") "/").
    destruct l as [|e l]; [done|]. by erewrite Split_Join_normal.
  - destruct l as [|e l]; [done|]. by erewrite Split_Join_normal.
Qed.

Lemma IsAbs_render rooted l : normal rooted l → IsAbs (render rooted l) = rooted.
Proof.
  intros Hn. unfold render, IsAbs. destruct rooted; [done|].
  destruct l as [|e l]; [done|].
  pose proof (normal_Forall_sepFree _ _ Hn) as Hsep.
  pose proof (normal_Forall_nonempty _ _ Hn) as Hne.
  apply Forall_cons in Hsep as [He _]. apply Forall_cons in Hne as [He' _].
  destruct l; [by apply HasPrefix_sepFree|]. by apply HasPrefix_app_sepFree.
Qed.

Lemma render_neq rooted l s :
  normal rooted l → l ≠ [] → Split s "/" ≠ (if rooted then "" :: l else l) →
  render rooted l ≠ s.
Proof.
  intros Hn Hl Hs Heq. apply Hs. rewrite <- Heq, (Split_render _ _ Hn).
  by destruct rooted, l.
Qed.

Lemma cleanList_render rooted l : normal rooted l → cleanList (render rooted l) = l.
Proof.
  intros Hn. unfold cleanList. rewrite (IsAbs_render _ _ Hn).
  unfold Separator. rewrite (Split_render _ _ Hn).
  destruct Hn as (k & names & -> & Hnames & Hk). destruct rooted.
  - rewrite Hk by done. simpl.
    destruct names as [|e names]; [done|].
    change (cleanElems true ("" :: e :: names) []) with (cleanElems true (e :: names) []).
    rewrite cleanElems_names by done. by rewrite app_nil_r, rev_involutive.
  - assert (cleanElems false (replicate k ".." ++ names) []
            = rev names ++ replicate k "..") as Hc.
    { rewrite (cleanElems_dotdots k 0), cleanElems_names by done.
      by rewrite Nat.add_0_r. }
    destruct (replicate k ".." ++ names) eqn:Hl; [done|].
    rewrite Hc, rev_app_distr, rev_involutive, rev_replicate. done.
Qed.

(** Clean is the identity on normalized paths. *)
Lemma Clean_render rooted l : normal rooted l → Clean (render rooted l) = render rooted l.
Proof.
  intros Hn. rewrite Clean_render_cleanList, (IsAbs_render _ _ Hn).
  by rewrite cleanList_render.
Qed.

Lemma Clean_idempotent path : Clean (Clean path) = Clean path.
Proof.
  rewrite (Clean_render_cleanList path). apply Clean_render, cleanList_normal.
Qed.

End CleanFacts.

Section RelFacts.
Import Filepath Strings PathSpec.

Lemma pathElements_render rooted l :
  normal rooted l → pathElements (render rooted l) = rootElems rooted ++ l.
Proof.
  intros Hn. unfold pathElements, elements, Separator.
  pose proof (normal_Forall_nonempty _ _ Hn) as Hne.
  pose proof (normal_Forall_nodot _ _ Hn) as Hnd.
  destruct l as [|e l].
  { by destruct rooted. }
  apply Forall_cons in Hne as [He _]. apply Forall_cons in Hnd as [He' _].
  assert (∀ s, Split s "/" ≠ (if rooted then "" :: e :: l else e :: l) →
               String.eqb (render rooted (e :: l)) s = false) as Hneq.
  { intros s Hs. apply String.eqb_neq. by apply render_neq. }
  rewrite (Hneq "."), (Hneq ""), (Hneq "/"), (Split_render _ _ Hn).
  - by destruct rooted.
  - destruct rooted; simpl; congruence.
  - destruct rooted; simpl; congruence.
  - destruct rooted; simpl; congruence.
Qed.

Lemma relSkip_prefix b n : relSkip b (b ++ n) = ([], n, "").
Proof.
  induction b as [|x b IH]; simpl; [by destruct n|].
  by rewrite String.eqb_refl.
Qed.

Lemma relSkip_common b t brest trest cur :
  relSkip b t = (brest, trest, cur) →
  ∃ common, b = common ++ brest ∧ t = common ++ trest.
Proof.
  revert t. induction b as [|x b IH]; intros t Hskip.
  - exists []. destruct t; simpl in Hskip; by simplify_eq.
  - destruct t as [|y t]; simpl in Hskip.
    + exists []. by simplify_eq.
    + destruct (String.eqb_spec y x) as [->|Hne].
      * destruct (IH _ Hskip) as (common & -> & ->). by exists (x :: common).
      * exists []. by simplify_eq.
Qed.

Lemma HasPrefix_ups (brest : list string) x :
  brest ≠ [] →
  HasPrefix (Join (map (λ _, "..") brest) "/") ".." = true
  ∧ HasPrefix (Join (map (λ _, "..") brest) "/" +:+ x) ".." = true.
Proof. destruct brest as [|b [|b' r]]; done. Qed.

Lemma HasPrefix_dotdot_Join l :
  HasPrefix (Join (".." :: l) "/") ".." = true.
Proof. by destruct l. Qed.

Lemma HasPrefix_Join_name e l :
  e ≠ "" → e ≠ "." → HasPrefix e ".." = false →
  HasPrefix (Join (e :: l) "/") ".." = false.
Proof.
  intros He He' Hp. destruct l as [|e' l]; [done|].
  change (Join (e :: e' :: l) "/") with (e +:+ String "/" (Join (e' :: l) "/")).
  destruct e as [|c [|c' e]]; [done| |].
  - simpl. destruct (Ascii.eqb_spec c "."); [by subst|done].
  - simpl in *. done.
Qed.

(** In a normalized element list the parent-directory elements come
    first. *)
Lemma normal_suffix_dotdot rooted pre rest :
  normal rooted (pre ++ rest) → ".." ∈ rest → ∃ rest', rest = ".." :: rest'.
Proof.
  intros (k & names & Heq & Hnames & _) Hin.
  assert (".." ∉ names) as Hnotin.
  { intros Hd. eapply Forall_forall in Hnames; [|done]. by destruct Hnames as (_ & _ & ? & _). }
  revert k Heq. induction pre as [|p pre IH]; intros k Heq; simpl in Heq.
  - destruct k as [|k]; simpl in Heq; [by subst|]. subst. eauto.
  - destruct k as [|k]; simpl in Heq.
    + exfalso. apply Hnotin. rewrite <- Heq. right. apply elem_of_app. by right.
    + simplify_eq. eauto.
Qed.

Lemma Rel_render_ne rB LB rT LT :
  normal rB LB → normal rT LT → render rT LT ≠ render rB LB →
  Rel (render rB LB) (render rT LT)
  = if negb (Bool.eqb rB rT) then None
    else
      let '(brest, trest, cur) :=
        relSkip (rootElems rB ++ LB) (elements (render rT LT)) in
      if String.eqb cur ".." then None
      else
        match brest with
        | [] => Some (Join trest "/")
        | _ :: _ =>
            let ups := Join (map (λ _, "..") brest) "/" in
            match trest with
            | [] => Some ups
            | _ :: _ => Some (ups +:+ "/" +:+ Join trest "/")
            end
        end.
Proof.
  intros HB HT Hne. unfold Rel.
  rewrite (Clean_render _ _ HB), (Clean_render _ _ HT).
  apply String.eqb_neq in Hne. rewrite Hne.
  rewrite <- (pathElements_render _ _ HB). unfold pathElements.
  pose proof (IsAbs_render _ _ HB) as HaB. pose proof (IsAbs_render _ _ HT) as HaT.
  unfold IsAbs in *. rewrite HaT.
  destruct (String.eqb_spec (render rB LB) ".") as [Hdot|Hndot].
  - rewrite Hdot in HaB. simpl in HaB. subst rB. done.
  - rewrite HaB. done.
Qed.

Lemma elements_render_target rT LT :
  normal rT LT →
  elements (render rT LT)
  = if negb rT && bool_decide (LT = []) then ["."] else rootElems rT ++ LT.
Proof.
  intros HT. destruct rT, LT as [|e LT]; try done.
  - rewrite <- (pathElements_render _ _ HT). unfold pathElements. done.
  - rewrite <- (pathElements_render _ _ HT). unfold pathElements.
    destruct (String.eqb_spec (render false (e :: LT)) ".") as [Heq|]; [|done].
    exfalso. revert Heq. apply render_neq; [done..|].
    pose proof (normal_Forall_nodot _ _ HT) as Hnd.
    apply Forall_cons in Hnd as [? _]. simpl. congruence.
Qed.

(** A relative path computed by Rel that does not begin with ".."
    exhibits the target as lying inside the base. *)
Lemma Rel_render_inside rB LB rT LT rel :
  normal rB LB → normal rT LT →
  Rel (render rB LB) (render rT LT) = Some rel →
  HasPrefix rel ".." = false →
  rT = rB ∧ ∃ rest, LT = LB ++ rest ∧ ".." ∉ rest.
Proof.
  intros HB HT Hrel Hpre.
  destruct (decide (render rT LT = render rB LB)) as [Heq|Hne].
  { assert (rT = rB) as -> by (by rewrite <- (IsAbs_render _ _ HT), Heq, IsAbs_render).
    split; [done|]. exists []. rewrite app_nil_r. split; [|apply not_elem_of_nil].
    apply (f_equal pathElements) in Heq.
    rewrite !pathElements_render in Heq by done. by apply app_inv_head in Heq. }
  rewrite Rel_render_ne in Hrel by done.
  destruct (Bool.eqb rB rT) eqn:Hr; [|done]. apply Bool.eqb_prop in Hr as <-.
  split; [done|]. simpl in Hrel.
  rewrite (elements_render_target _ _ HT) in Hrel.
  destruct (negb rB && bool_decide (LT = [])) eqn:Hdot.
  - (* the target is the current directory *)
    apply andb_prop in Hdot as [HrB HLT].
    apply negb_true_iff in HrB as ->. apply bool_decide_eq_true in HLT as ->.
    cbn [rootElems app] in Hrel. destruct LB as [|b LB]; [done|].
    cbn [relSkip] in Hrel.
    pose proof (normal_Forall_nodot _ _ HB) as Hnd.
    apply Forall_cons in Hnd as [Hb _].
    destruct (String.eqb_spec "." b); [congruence|].
    destruct (String.eqb b ".."); [done|].
    destruct (HasPrefix_ups (b :: LB) ("/" +:+ Join ["."] "/")) as [_ H2]; [done|].
    simplify_eq. congruence.
  - destruct (relSkip (rootElems rB ++ LB) (rootElems rB ++ LT))
      as [[brest trest] cur] eqn:Hskip.
    destruct (String.eqb cur ".."); [done|].
    destruct (relSkip_common _ _ _ _ _ Hskip) as (common & Hb & Ht).
    destruct brest as [|b brest].
    + rewrite app_nil_r in Hb. subst common.
      rewrite <- app_assoc in Ht. apply app_inv_head in Ht. subst LT.
      exists trest. split; [done|]. intros Hin.
      destruct (normal_suffix_dotdot _ _ _ HT Hin) as (rest' & ->).
      simplify_eq. by rewrite HasPrefix_dotdot_Join in Hpre.
    + exfalso. destruct (HasPrefix_ups (b :: brest) ("/" +:+ Join trest "/")) as [H1 H2]; [done|].
      destruct trest; simplify_eq; congruence.
Qed.

(** Real elements appended to the base give a relative path that
    does not begin with "..". *)
Lemma Rel_render_below r LB N :
  normal r LB → Forall plainName N → Forall (λ e, HasPrefix e ".." = false) N →
  ∃ rel, Rel (render r LB) (render r (LB ++ N)) = Some rel
         ∧ HasPrefix rel ".." = false.
Proof.
  intros HB HN HNp.
  assert (normal r (LB ++ N)) as HT by (by apply normal_app_names).
  destruct (decide (render r (LB ++ N) = render r LB)) as [Heq|Hne].
  { exists ".". unfold Rel. rewrite !Clean_render, Heq, String.eqb_refl by done. done. }
  rewrite Rel_render_ne by done. rewrite Bool.eqb_reflx. simpl.
  rewrite (elements_render_target _ _ HT).
  destruct (negb r && bool_decide (LB ++ N = [])) eqn:Hdot.
  { apply andb_prop in Hdot as [_ Hnil]. apply bool_decide_eq_true in Hnil.
    apply app_eq_nil in Hnil as [-> ->]. by rewrite app_nil_r in Hne. }
  rewrite app_assoc, relSkip_prefix. simpl.
  eexists. split; [done|].
  destruct N as [|e N]; [done|].
  apply Forall_cons in HN as [(He & He' & _) _]. apply Forall_cons in HNp as [Hp _].
  by apply HasPrefix_Join_name.
Qed.

End RelFacts.

(** ** The path validator *)

Section ValidatePath.
Import Filepath Strings PathSpec.

Lemma Contains_cons c s sub :
  Contains s sub = true → Contains (String c s) sub = true.
Proof. intros H. simpl. rewrite H. apply orb_true_r. Qed.

Lemma Contains_dotdot_slash path :
  Contains path "../" = true →
  ∃ seg, seg ∈ Split path "/" ∧ Contains seg ".." = true.
Proof.
  induction path as [|d path IH]; [done|].
  intros Hc. change (Contains (String d path) "../")
    with (HasPrefix (String d path) "../" || Contains path "../") in Hc.
  apply orb_prop in Hc as [Hp|Hc].
  - destruct path as [|d' [|d'' path]]; simpl in Hp; try (by rewrite ?andb_false_r in Hp).
    apply andb_prop in Hp as [Hd Hp]. apply andb_prop in Hp as [Hd' Hp].
    apply andb_prop in Hp as [Hd'' _].
    apply Ascii.eqb_eq in Hd as ->, Hd' as ->, Hd'' as ->.
    exists "..". split; [|done]. simpl.
    destruct (Split_nonempty path "/") as (h & t & ->). by left.
  - destruct (IH Hc) as (seg & Hin & Hseg). simpl.
    destruct (Ascii.eqb d "/"); [exists seg; split; [by right|done]|].
    destruct (Split path "/") as [|h t]; [by apply elem_of_nil in Hin|].
    apply elem_of_cons in Hin as [->|Hin].
    + exists (String d h). split; [by left|]. by apply Contains_cons.
    + exists seg. split; [by right|done].
Qed.

Lemma HasPrefix_Contains s sub : HasPrefix s sub = true → Contains s sub = true.
Proof. intros H. destruct s; simpl; by rewrite H. Qed.

(** Elements without ".." are skipped or pushed by Clean. *)
Lemma cleanElems_nodotdot rooted segs out :
  Forall sepFree segs → Forall (λ e, Contains e ".." = false) segs →
  cleanElems rooted segs out
  = rev (filter (λ e, e ≠ "" ∧ e ≠ ".") segs) ++ out
  ∧ Forall plainName (filter (λ e, e ≠ "" ∧ e ≠ ".") segs).
Proof.
  intros Hsep. revert out.
  induction Hsep as [|e segs He _ IH]; intros out Hnd; [done|].
  apply Forall_cons in Hnd as [Hnd Hnds]. simpl.
  destruct (String.eqb_spec e "") as [->|Hne].
  { rewrite filter_cons_False by tauto. by apply IH. }
  destruct (String.eqb_spec e ".") as [->|Hnd'].
  { rewrite filter_cons_False by tauto. by apply IH. }
  destruct (String.eqb_spec e "..") as [->|Hndd]; [done|].
  rewrite filter_cons_True by done. destruct (IH (e :: out) Hnds) as [-> Hall].
  split; [simpl; by rewrite <- app_assoc|]. by constructor.
Qed.

Lemma IsAbs_app base s : base ≠ "" → IsAbs (base +:+ s) = IsAbs base.
Proof. by destruct base. Qed.

(** The normalized join of a base with a path without ".." elements:
    the elements of the base, then the real elements of the path. *)
Lemma Clean_Join_below base path :
  IsAbs path = false →
  Forall (λ seg, Contains seg ".." = false) (Split path "/") →
  let N := filter (λ e, e ≠ "" ∧ e ≠ ".") (Split path "/") in
  Clean (Filepath.Join [base; path]) = render (IsAbs base) (cleanList base ++ N)
  ∧ Forall plainName N.
Proof.
  intros Habs Hnd N.
  destruct (cleanElems_nodotdot false (Split path "/") [] (Split_Forall_sepFree _) Hnd)
    as [Hc HN].
  split; [|done]. fold N in Hc.
  destruct (String.eqb_spec base "") as [->|Hbase].
  - simpl. destruct (String.eqb_spec path "") as [->|Hpath]; [done|].
    change (Join [path] "/") with path.
    rewrite Clean_idempotent, Clean_render_cleanList, Habs. f_equal.
    unfold cleanList. rewrite Habs. unfold Separator. rewrite Hc.
    by rewrite app_nil_r, rev_involutive.
  - cbn [Filepath.Join]. apply String.eqb_neq in Hbase as Hbase'. rewrite Hbase'.
    change (Join [base; path] "/") with (base +:+ String "/" path).
    rewrite Clean_idempotent, Clean_render_cleanList, IsAbs_app by done. f_equal.
    unfold cleanList at 1. rewrite IsAbs_app by done. unfold Separator.
    rewrite Split_app, cleanElems_app.
    destruct (cleanElems_nodotdot (IsAbs base) (Split path "/")
                (cleanElems (IsAbs base) (Split base "/") [])
                (Split_Forall_sepFree _) Hnd) as [-> _].
    by rewrite rev_app_distr, rev_involutive.
Qed.

(** C1, as the code has it.  validatePath rejects every absolute
    path, every path with the substring "../" and every path whose
    normalized join with the base leaves the base; it accepts every
    relative path none of whose elements contains "..", among them
    the "./"-prefixed and doubled-separator forms, and such a path
    stays inside the base. *)
Theorem validatePath_escape_rejection :
  ∀ base path : string,
    (IsAbs path = true → validatePath base path = Err (ErrAbsolutePath path))
    ∧ (Contains path "../" = true → ∃ e, validatePath base path = Err e)
    ∧ (¬ inside base path → ∃ e, validatePath base path = Err e)
    ∧ (IsAbs path = false →
       Forall (λ seg, Contains seg ".." = false) (Split path "/") →
       validatePath base path = Ok tt ∧ inside base path).
Proof.
  intros base path. unfold validatePath. split_and!.
  - by intros ->.
  - intros Hc. destruct (IsAbs path); [eauto|].
    destruct (Rel _ _); [|eauto]. rewrite Hc, orb_true_r. eauto.
  - intros Hout. destruct (IsAbs path); [eauto|].
    destruct (Rel _ _) as [rel|] eqn:Hrel; [|eauto].
    destruct (HasPrefix rel "..") eqn:Hpre; [eauto|]. exfalso. apply Hout.
    rewrite (Clean_render_cleanList base) in Hrel.
    rewrite (Clean_render_cleanList (Filepath.Join [base; path])) in Hrel.
    pose proof (cleanList_normal base) as HB.
    pose proof (cleanList_normal (Filepath.Join [base; path])) as HT.
    destruct (Rel_render_inside _ _ _ _ _ HB HT Hrel Hpre) as (Hr & rest & Hrest & Hnotin).
    exists rest. split; [|done].
    rewrite (Clean_render_cleanList base).
    rewrite (Clean_render_cleanList (Filepath.Join [base; path])).
    rewrite !pathElements_render, Hr, Hrest by done. by rewrite app_assoc.
  - intros Habs Hnd. rewrite Habs.
    destruct (Clean_Join_below base path Habs Hnd) as [HT HN].
    pose proof (cleanList_normal base) as HB.
    assert (Forall (λ e, HasPrefix e ".." = false)
              (filter (λ e, e ≠ "" ∧ e ≠ ".") (Split path "/"))) as HNp.
    { apply Forall_forall. intros e He. apply list_elem_of_filter in He as [_ He].
      eapply Forall_forall in Hnd; [|done].
      destruct (HasPrefix e "..") eqn:Hp; [|done].
      apply HasPrefix_Contains in Hp. congruence. }
    destruct (Rel_render_below _ _ _ HB HN HNp) as (rel & Hrel & Hpre).
    rewrite HT, (Clean_render_cleanList base), Hrel, Hpre.
    destruct (Contains path "../") eqn:Hc.
    { apply Contains_dotdot_slash in Hc as (seg & Hin & Hseg).
      eapply Forall_forall in Hnd; [|done]. congruence. }
    split; [done|].
    exists (filter (λ e, e ≠ "" ∧ e ≠ ".") (Split path "/")). split.
    + rewrite HT, (Clean_render_cleanList base).
      rewrite !pathElements_render; [by rewrite app_assoc|done|].
      by apply normal_app_names.
    + intros Hin. eapply Forall_forall in HN; [|done].
      by destruct HN as (_ & _ & ? & _).
Qed.

Lemma validatePath_escape_rejection_witness :
  validatePath "overlay" "./subdir//test.txt" = Ok tt
  ∧ inside "overlay" "./subdir//test.txt".
Proof.
  apply (validatePath_escape_rejection "overlay" "./subdir//test.txt").
  - reflexivity.
  - vm_compute. repeat constructor.
Defined.

(** The path "a/../b" is relative and normalizes to "overlay/b",
    inside the base, and is rejected all the same. *)
Lemma validatePath_rejects_inner_dotdot :
  IsAbs "a/../b" = false
  ∧ Clean (Filepath.Join ["overlay"; "a/../b"]) = "overlay/b"
  ∧ inside "overlay" "a/../b"
  ∧ validatePath "overlay" "a/../b" = Err (ErrEscape "a/../b").
Proof.
  split_and!; [reflexivity..| |reflexivity].
  exists ["b"]. split; [reflexivity|].
  intros Hin. apply list_elem_of_singleton in Hin. discriminate Hin.
Qed.

End ValidatePath.

(** ** The state store *)

Section Registry.
Import Config.

Lemma removeLoop_filter n path files :
  n ≤ length files →
  removeLoop n path files
  = filter (λ f, Path f ≠ path) (take n files) ++ drop n files.
Proof.
  revert files. induction n as [|i IH]; intros files Hn; simpl.
  - done.
  - destruct (lookup_lt_is_Some_2 files i ltac:(lia)) as [f Hf].
    rewrite Hf. rewrite (take_S_r _ _ _ Hf), filter_app.
    destruct (String.eqb_spec (Path f) path) as [Heq|Hne].
    + rewrite IH by (rewrite length_delete by eauto; lia).
      rewrite delete_take_drop.
      assert (length (take i files) = i) as Hlen by (rewrite length_take; lia).
      rewrite take_app_length' by done. rewrite drop_app_length' by done.
      rewrite filter_cons_False by (simpl; tauto). simpl.
      by rewrite app_nil_r.
    + rewrite IH by lia.
      rewrite filter_cons_True by done. simpl.
      rewrite <- app_assoc. simpl. by rewrite <- (drop_S _ _ _ Hf).
Qed.

Lemma RemoveManagedFile_filter s path :
  ManagedFiles (RemoveManagedFile s path)
  = filter (λ f, Path f ≠ path) (ManagedFiles s).
Proof.
  unfold RemoveManagedFile; simpl.
  rewrite removeLoop_filter by done.
  by rewrite firstn_all, drop_all, app_nil_r.
Qed.

Lemma AddManagedFile_filter s path linkMode source :
  ManagedFiles (AddManagedFile s path linkMode source)
  = filter (λ f, Path f ≠ path) (ManagedFiles s)
    ++ [mkManagedFile path linkMode source].
Proof.
  unfold AddManagedFile; simpl.
  rewrite removeLoop_filter by done.
  by rewrite firstn_all, drop_all, app_nil_r.
Qed.

End Registry.

Section RegistryInvariant.
Import Config RegistryOps.

Lemma NoDup_map_Path_filter (P : ManagedFile → Prop) `{∀ f, Decision (P f)} files :
  NoDup (map Path files) → NoDup (map Path (filter P files)).
Proof.
  induction files as [|f r IH]; simpl; intros Hnd; [constructor|].
  apply NoDup_cons in Hnd as [Hnotin Hnd].
  destruct (decide (P f)).
  - rewrite filter_cons_True by done. simpl. apply NoDup_cons. split; [|auto].
    intros Hin. apply Hnotin.
    apply list_elem_of_fmap in Hin as (g & Hg & Hin).
    apply list_elem_of_filter in Hin as [_ Hin].
    apply list_elem_of_fmap. eauto.
  - rewrite filter_cons_False by done. auto.
Qed.

Lemma Path_not_in_filter path files :
  path ∉ map Path (filter (λ f, Path f ≠ path) files).
Proof.
  intros Hin. apply list_elem_of_fmap in Hin as (g & Hg & Hin).
  apply list_elem_of_filter in Hin as [Hne _]. congruence.
Qed.

Lemma apply_unique s o : uniquePaths s → uniquePaths (apply s o).
Proof.
  unfold uniquePaths. intros Hnd. destruct o as [path lm src|path]; cbn [apply].
  - rewrite AddManagedFile_filter, map_app. simpl.
    apply NoDup_app. split_and!.
    + by apply NoDup_map_Path_filter.
    + intros x Hx Hx'. apply list_elem_of_singleton in Hx' as ->.
      by apply Path_not_in_filter in Hx.
    + apply NoDup_singleton.
  - rewrite RemoveManagedFile_filter. by apply NoDup_map_Path_filter.
Qed.

Lemma run_unique ops s : uniquePaths s → uniquePaths (run ops s).
Proof.
  revert s. induction ops as [|o ops IH]; intros s Hs; [done|].
  apply IH. by apply apply_unique.
Qed.

Lemma findManaged_app_notin files1 files2 path :
  path ∉ map Path files1 →
  findManaged (files1 ++ files2) path = findManaged files2 path.
Proof.
  induction files1 as [|f r IH]; simpl; intros Hnotin; [done|].
  apply not_elem_of_cons in Hnotin as [Hne Hnotin].
  destruct (String.eqb_spec (Path f) path); [congruence|auto].
Qed.

Lemma findManaged_None files path :
  findManaged files path = None → filter (λ f, Path f ≠ path) files = files.
Proof.
  induction files as [|f r IH]; simpl; intros Hfind; [done|].
  destruct (String.eqb_spec (Path f) path); [done|].
  rewrite filter_cons_True by done. by rewrite IH.
Qed.

(** C8.  Starting from a registry with at most one entry per path
    (the empty registry of a first run in particular), every sequence
    of AddManagedFile and RemoveManagedFile calls leaves at most one
    entry per path; an upsert leaves exactly the new entry under its
    path, which is the one IsManagedFile finds; and RemoveManagedFile
    of a path without entry changes nothing. *)
Theorem registry_one_entry_per_path :
  ∀ (ops : list op) (s0 : State),
    uniquePaths s0 →
    let s := run ops s0 in
    uniquePaths s
    ∧ (∀ path linkMode source,
         let s' := AddManagedFile s path linkMode source in
         uniquePaths s'
         ∧ filter (λ f, Path f = path) (ManagedFiles s')
           = [mkManagedFile path linkMode source]
         ∧ IsManagedFile s' path = Some (mkManagedFile path linkMode source))
    ∧ (∀ path, IsManagedFile s path = None → RemoveManagedFile s path = s).
Proof.
  intros ops s0 Hs0 s.
  assert (uniquePaths s) as Hs by (by apply run_unique).
  split_and!; [done| |].
  - intros path lm src s'. split_and!.
    + by apply (apply_unique s (Upsert path lm src)).
    + subst s'. rewrite AddManagedFile_filter, filter_app.
      rewrite filter_cons_True by done. rewrite filter_nil.
      assert (filter (λ f, Path f = path)
                (filter (λ f, Path f ≠ path) (ManagedFiles s)) = []) as ->; [|done].
      clear. induction (ManagedFiles s) as [|f r IH]; [done|].
      destruct (decide (Path f = path)).
      * by rewrite filter_cons_False by tauto.
      * rewrite filter_cons_True by done. by rewrite filter_cons_False by done.
    + subst s'. unfold IsManagedFile. rewrite AddManagedFile_filter.
      rewrite findManaged_app_notin by apply Path_not_in_filter.
      simpl. by rewrite String.eqb_refl.
  - intros path Hnone. unfold IsManagedFile in Hnone.
    destruct s as [files]. unfold RemoveManagedFile. simpl in *. f_equal.
    rewrite removeLoop_filter by done.
    rewrite firstn_all, drop_all, app_nil_r. by apply findManaged_None.
Qed.

Lemma registry_one_entry_per_path_witness :
  let s := run [Upsert "a" "symlink" "a"; Upsert "a" "copy" "a"; Remove "b"] (mkState []) in
  ManagedFiles s = [mkManagedFile "a" "copy" "a"] ∧ uniquePaths s.
Proof.
  split; [reflexivity|].
  apply (registry_one_entry_per_path
           [Upsert "a" "symlink" "a"; Upsert "a" "copy" "a"; Remove "b"] (mkState [])).
  constructor.
Defined.

End RegistryInvariant.

(** ** Entries of a directory *)

Section EntriesUnder.
Import Config PathSpec.

Lemma Contains_sep_Count s :
  Strings.Contains s "/" = false ↔ Strings.Count s "/" = 0.
Proof.
  induction s as [|c s IH]; [done|]. simpl.
  destruct (Ascii.eqb c "/"); simpl; [done|]. apply IH.
Qed.

Lemma dirPrefix_sepFree name : sepFree name → Filepath.dirPrefix name = "".
Proof.
  intros Hsep. apply Contains_sep_Count in Hsep.
  destruct name as [|c name]; [done|].
  unfold Filepath.dirPrefix. by rewrite Hsep.
Qed.

Lemma Contains_app_sep a b : Strings.Contains (a +:+ String "/" b) "/" = true.
Proof.
  induction a as [|c a IH]; [done|].
  change (String c a +:+ String "/" b) with (String c (a +:+ String "/" b)).
  by apply Contains_cons.
Qed.

Lemma dirPrefix_app a b :
  Filepath.dirPrefix (a +:+ String "/" b) = a +:+ String "/" (Filepath.dirPrefix b).
Proof.
  induction a as [|c a IH].
  - change ("" +:+ String "/" b) with (String "/" b).
    by cbn [Filepath.dirPrefix Strings.Contains Strings.HasPrefix Ascii.eqb Bool.eqb andb orb].
  - change (String c a +:+ String "/" b) with (String c (a +:+ String "/" b)).
    cbn [Filepath.dirPrefix]. rewrite Contains_cons by apply Contains_app_sep.
    by rewrite IH.
Qed.

Lemma Clean_trailing_sep dir : dir ≠ "" → Filepath.Clean (dir +:+ "/") = Filepath.Clean dir.
Proof.
  intros Hdir. rewrite !Clean_render_cleanList, IsAbs_app by done. f_equal.
  unfold cleanList. rewrite IsAbs_app by done. unfold Filepath.Separator.
  by rewrite Split_app, cleanElems_app.
Qed.

Lemma Clean_nonempty path : Filepath.Clean path ≠ "".
Proof.
  rewrite Clean_render_cleanList. unfold render.
  destruct (Filepath.IsAbs path); [done|].
  pose proof (normal_Forall_nonempty _ _ (cleanList_normal path)) as Hne.
  destruct (cleanList path) as [|e [|e' l]]; [done| |].
  - by apply Forall_cons in Hne as [? _].
  - apply Forall_cons in Hne as [? _]. by destruct e.
Qed.

Lemma Dir_child dir name :
  dir ≠ "" → sepFree name →
  Filepath.Dir (dir +:+ String "/" name) = Filepath.Clean dir.
Proof.
  intros Hdir Hname. unfold Filepath.Dir.
  rewrite dirPrefix_app, dirPrefix_sepFree by done. by apply Clean_trailing_sep.
Qed.

Lemma Clean_child dir a :
  dir ≠ "" → plainName a →
  Filepath.Clean (dir +:+ String "/" a)
  = render (Filepath.IsAbs dir) (cleanList dir ++ [a]).
Proof.
  intros Hdir Ha. rewrite Clean_render_cleanList, IsAbs_app by done. f_equal.
  unfold cleanList. rewrite IsAbs_app by done. unfold Filepath.Separator.
  rewrite Split_app, cleanElems_app.
  rewrite (Split_sepFree a) by (by destruct Ha as (_ & _ & _ & ?)).
  rewrite cleanElems_names by (by constructor). done.
Qed.

Lemma Clean_child_neq dir a :
  Filepath.Clean dir = dir → plainName a →
  Filepath.Clean (dir +:+ String "/" a) ≠ dir.
Proof.
  intros Hclean Ha Heq.
  assert (dir ≠ "") as Hdir by (rewrite <- Hclean; apply Clean_nonempty).
  rewrite Clean_child in Heq by done.
  assert (dir = render (Filepath.IsAbs dir) (cleanList dir)) as Hd
    by (by rewrite <- Clean_render_cleanList).
  pose proof (eq_trans Heq Hd) as Heq'. clear Heq Hd. rename Heq' into Heq.
  apply (f_equal pathElements) in Heq.
  pose proof (cleanList_normal dir) as Hn.
  rewrite !pathElements_render in Heq;
    [|done|apply normal_app_names; [done|by constructor]].
  apply app_inv_head in Heq. apply (f_equal length) in Heq.
  rewrite length_app in Heq. simpl in Heq. lia.
Qed.

Lemma string_app_cons d a b : String d a +:+ b = String d (a +:+ b).
Proof. reflexivity. Qed.

Lemma string_app_assoc a b c : (a +:+ b) +:+ c = a +:+ (b +:+ c).
Proof.
  induction a as [|d a IH]; [done|]. by rewrite !string_app_cons, IH.
Qed.

Lemma length_app_string a b :
  String.length (a +:+ b) = String.length a + String.length b.
Proof.
  induction a as [|c a IH]; [done|]. rewrite string_app_cons. simpl. by rewrite IH.
Qed.

Lemma elem_of_filesInDir files dir f :
  f ∈ filesInDir files dir ↔
  f ∈ files ∧ (Filepath.Dir (Path f) = dir ∨ Path f = dir).
Proof.
  induction files as [|g files IH]; simpl.
  - split; [by intros ?%elem_of_nil|by intros [?%elem_of_nil _]].
  - destruct (String.eqb_spec (Filepath.Dir (Path g)) dir) as [Hd|Hd];
      destruct (String.eqb_spec (Path g) dir) as [Hp|Hp]; simpl;
      rewrite ?elem_of_cons, IH; intuition congruence.
Qed.

(** C4, as the code has it.  GetManagedFilesInDir returns exactly
    the entries whose path is [dir] or whose parent directory
    (filepath.Dir of the path) is [dir]: for a normalized [dir] the
    entries directly in it are returned, the entries one or more
    directories further down are not. *)
Theorem GetManagedFilesInDir_direct_children :
  ∀ (s : State) (dir : string),
    (∀ f, f ∈ GetManagedFilesInDir s dir ↔
          f ∈ ManagedFiles s ∧ (Filepath.Dir (Path f) = dir ∨ Path f = dir))
    ∧ (Filepath.Clean dir = dir →
       ∀ f name, f ∈ ManagedFiles s → sepFree name →
                 Path f = dir +:+ "/" +:+ name →
                 f ∈ GetManagedFilesInDir s dir)
    ∧ (Filepath.Clean dir = dir →
       ∀ f a b, plainName a → sepFree b →
                Path f = dir +:+ "/" +:+ a +:+ "/" +:+ b →
                f ∉ GetManagedFilesInDir s dir).
Proof.
  intros s dir. unfold GetManagedFilesInDir. split_and!.
  - intros f. apply elem_of_filesInDir.
  - intros Hclean f name Hin Hname Hpath.
    assert (dir ≠ "") as Hdir by (rewrite <- Hclean; apply Clean_nonempty).
    apply elem_of_filesInDir. split; [done|]. left.
    rewrite Hpath. change ("/" +:+ name) with (String "/" name).
    by rewrite Dir_child.
  - intros Hclean f a b Ha Hb Hpath Hin.
    assert (dir ≠ "") as Hdir by (rewrite <- Hclean; apply Clean_nonempty).
    apply elem_of_filesInDir in Hin as [_ [Hd|Hp]].
    + rewrite Hpath in Hd.
      change (dir +:+ "/" +:+ a +:+ "/" +:+ b)
        with (dir +:+ String "/" (a +:+ String "/" b)) in Hd.
      unfold Filepath.Dir in Hd.
      rewrite !dirPrefix_app, dirPrefix_sepFree in Hd by done.
      change (dir +:+ String "/" (a +:+ "/"))
        with (dir +:+ (String "/" a +:+ "/")) in Hd.
      rewrite <- string_app_assoc, Clean_trailing_sep in Hd by (by destruct dir).
      by apply (Clean_child_neq dir a).
    + rewrite Hpath in Hp. apply (f_equal String.length) in Hp.
      rewrite !length_app_string in Hp. simpl in Hp. lia.
Qed.

Lemma GetManagedFilesInDir_direct_children_witness :
  mkManagedFile "dir/x.txt" "symlink" "x.txt"
  ∈ GetManagedFilesInDir
      (mkState [mkManagedFile "dir/x.txt" "symlink" "x.txt";
                mkManagedFile "dir/a/b" "copy" "a/b"]) "dir"
  ∧ mkManagedFile "dir/a/b" "copy" "a/b"
    ∉ GetManagedFilesInDir
        (mkState [mkManagedFile "dir/x.txt" "symlink" "x.txt";
                  mkManagedFile "dir/a/b" "copy" "a/b"]) "dir".
Proof.
  pose proof (GetManagedFilesInDir_direct_children
                (mkState [mkManagedFile "dir/x.txt" "symlink" "x.txt";
                          mkManagedFile "dir/a/b" "copy" "a/b"]) "dir")
    as (_ & Hchild & Hdeep).
  split.
  - apply (Hchild eq_refl _ "x.txt"); [by left|reflexivity|reflexivity].
  - apply (Hdeep eq_refl _ "a" "b"); [|reflexivity|reflexivity].
    unfold plainName, sepFree. split_and!; [done..|reflexivity].
Defined.

(** The entry at dir/a/b lies under dir and is not returned. *)
Lemma GetManagedFilesInDir_misses_nested :
  CleanOrder.nestedUnder "dir/a/b" "dir"
  ∧ GetManagedFilesInDir (mkState [mkManagedFile "dir/a/b" "copy" "a/b"]) "dir" = [].
Proof. split; [by exists "a/b"|reflexivity]. Qed.

End EntriesUnder.

(** ** The processing order of the cleanup engine *)

Section CleanOrderFacts.
Import CleanOrder.

Lemma compare_refl s : (s ?= s)%string = Eq.
Proof.
  induction s as [|a s IH]; simpl; [done|].
  unfold Ascii.compare. by rewrite N.compare_refl.
Qed.

Lemma ltb_irrefl s : String.ltb s s = false.
Proof. unfold String.ltb. by rewrite compare_refl. Qed.

Lemma ltb_leb a b : String.ltb a b = true ↔ String.le a b ∧ a ≠ b.
Proof.
  unfold String.le, String.ltb, String.leb.
  destruct (a ?= b)%string eqn:Hc; simpl.
  - apply String.compare_eq_iff in Hc. split; [done|]. intros [_ ?]; done.
  - split; [|done]. intros _. split; [done|]. intros ->.
    by rewrite compare_refl in Hc.
  - split; [done|]. by intros [[] _].
Qed.

Lemma ltb_trans a b c :
  String.ltb a b = true → String.ltb b c = true → String.ltb a c = true.
Proof.
  rewrite !ltb_leb. intros [Hab Hne] [Hbc Hne']. split.
  - by etrans.
  - intros ->. apply Hne. by apply (anti_symm String.le).
Qed.

Lemma ltb_total a b : a ≠ b → String.ltb a b = true ∨ String.ltb b a = true.
Proof.
  intros Hne. rewrite !ltb_leb.
  destruct (total String.le a b); [left|right]; split; congruence.
Qed.

Lemma ltb_asym a b : String.ltb a b = true → String.ltb b a = false.
Proof.
  intros Hab. destruct (String.ltb b a) eqn:Hba; [|done].
  pose proof (ltb_trans _ _ _ Hab Hba) as H. by rewrite ltb_irrefl in H.
Qed.

(** [less] orders by depth descending, ties by reverse lexical order. *)
Lemma less_spec a b :
  less a b = true ↔
  Strings.Count b "/" < Strings.Count a "/"
  ∨ (Strings.Count a "/" = Strings.Count b "/" ∧ String.ltb b a = true).
Proof.
  unfold less.
  destruct (Nat.eqb_spec (Strings.Count a "/") (Strings.Count b "/")) as [Heq|Hne].
  - split; [intros ?; right; done|]. intros [?|[_ ?]]; [lia|done].
  - rewrite Nat.ltb_lt. split; [by left|]. intros [?|[? _]]; [done|lia].
Qed.

Lemma less_irrefl a : less a a = false.
Proof.
  destruct (less a a) eqn:H; [|done].
  apply less_spec in H as [?|[_ H]]; [lia|]. by rewrite ltb_irrefl in H.
Qed.

Lemma less_trans a b c : less a b = true → less b c = true → less a c = true.
Proof.
  rewrite !less_spec. intros [?|[? Hab]] [?|[? Hbc]]; try (left; lia).
  right. split; [lia|]. by eapply ltb_trans.
Qed.

Lemma less_total a b : a ≠ b → less a b = true ∨ less b a = true.
Proof.
  intros Hne. rewrite !less_spec.
  destruct (lt_eq_lt_dec (Strings.Count a "/") (Strings.Count b "/")) as [[?|?]|?].
  - right. by left.
  - destruct (ltb_total a b Hne); [right|left]; right; done.
  - left. by left.
Qed.

Lemma less_asym a b : less a b = true → less b a = false.
Proof.
  intros Hab. destruct (less b a) eqn:Hba; [|done].
  pose proof (less_trans _ _ _ Hab Hba) as H. by rewrite less_irrefl in H.
Qed.

Lemma insert_Permutation x l : insert x l ≡ₚ x :: l.
Proof.
  induction l as [|y r IH]; simpl; [done|].
  destruct (less x y); [done|]. rewrite IH. apply Permutation_swap.
Qed.

Lemma sortSlice_Permutation l : sortSlice l ≡ₚ l.
Proof.
  induction l as [|x l IH]; simpl; [done|].
  by rewrite insert_Permutation, IH.
Qed.

Lemma insert_sorted x l :
  x ∉ l →
  StronglySorted (λ a b, less a b = true) l →
  StronglySorted (λ a b, less a b = true) (insert x l).
Proof.
  induction l as [|y r IH]; simpl; intros Hnotin Hsorted.
  - repeat constructor.
  - apply not_elem_of_cons in Hnotin as [Hne Hnotin].
    apply StronglySorted_inv in Hsorted as [Hr Hy].
    destruct (less x y) eqn:Hxy.
    + constructor; [by constructor|].
      constructor; [done|].
      eapply Forall_impl; [exact Hy|]. intros z Hz. by eapply less_trans.
    + constructor; [by apply IH|].
      rewrite insert_Permutation. constructor; [|done].
      destruct (less_total x y Hne); congruence.
Qed.

Lemma sortSlice_sorted l :
  NoDup l → StronglySorted (λ a b, less a b = true) (sortSlice l).
Proof.
  induction 1 as [|x l Hnotin Hnd IH]; simpl; [constructor|].
  apply insert_sorted; [|done]. by rewrite sortSlice_Permutation.
Qed.

Lemma Count_app a b c :
  Strings.Count (a +:+ b) c = Strings.Count a c + Strings.Count b c.
Proof. induction a as [|d a IH]; simpl; [done|]. rewrite IH. lia. Qed.

Lemma nestedUnder_less child anc : nestedUnder child anc → less child anc = true.
Proof.
  intros [rest ->]. apply less_spec. left.
  rewrite !Count_app. simpl. lia.
Qed.

Lemma sorted_before (l : list string) x y :
  StronglySorted (λ a b, less a b = true) l →
  x ∈ l → y ∈ l → less x y = true →
  ∃ l1 l2 l3, l = l1 ++ x :: l2 ++ y :: l3.
Proof.
  intros Hsorted Hx Hy Hxy.
  apply list_elem_of_split in Hx as (l1 & l' & ->).
  apply elem_of_app in Hy as [Hy|Hy].
  - assert (less y x = true) as Hyx.
    { apply (StronglySorted_app_1_elem_of (λ a b, less a b = true) l1 (x :: l'));
        [done..|by left]. }
    by rewrite (less_asym _ _ Hxy) in Hyx.
  - apply elem_of_cons in Hy as [->|Hy].
    + by rewrite less_irrefl in Hxy.
    + apply list_elem_of_split in Hy as (l2 & l3 & ->). eauto.
Qed.

(** C7.  The slice clean iterates over holds exactly the managed
    paths, each once, sorted by the comparison [less]: depth (number of
    separators) descending and, at equal depth, reverse lexical order.
    Hence a managed path nested under another managed path is
    processed before it. *)
Theorem clean_processes_children_first :
  ∀ (s : Config.State),
    let sorted := sortedPaths s in
    (∀ p, p ∈ sorted ↔ p ∈ map Config.Path (Config.ManagedFiles s))
    ∧ NoDup sorted
    ∧ StronglySorted (λ a b, less a b = true) sorted
    ∧ (∀ a b, less a b = true ↔
         Strings.Count b "/" < Strings.Count a "/"
         ∨ (Strings.Count a "/" = Strings.Count b "/" ∧ String.ltb b a = true))
    ∧ (∀ child anc,
         child ∈ sorted → anc ∈ sorted → nestedUnder child anc →
         ∃ l1 l2 l3, sorted = l1 ++ child :: l2 ++ anc :: l3).
Proof.
  intros s sorted.
  assert (sorted ≡ₚ elements (managedPaths s)) as Hperm
      by apply sortSlice_Permutation.
  assert (StronglySorted (λ a b, less a b = true) sorted) as Hsorted.
  { apply sortSlice_sorted, NoDup_elements. }
  split_and!.
  - intros p. rewrite Hperm, elem_of_elements. unfold managedPaths.
    by rewrite elem_of_list_to_set.
  - rewrite Hperm. apply NoDup_elements.
  - done.
  - apply less_spec.
  - intros child anc Hc Ha Hnested.
    apply sorted_before; auto using nestedUnder_less.
Qed.

End CleanOrderFacts.

(** ** The scenarios of the repository's tests *)

Section TestScenarios.
Import OS Config.

Example clean_nested :
  Clean.cleanCmd nestedWorld
  = (Clean.Removed 2,
     mkWorld
       (dir [(".upstream", dir [("dir", dir [("managed.txt", file "managed")])]);
             ("overlay",
              dir [("dir", dir [("keep", dir [("custom.txt", file "custom")])])])])
       (StateStored (mkState [])) true).
Proof. vm_compute. reflexivity. Qed.

Example link_library :
  Link.CreateLinks "symlink" false libraryConfig libraryWorld
  = (mkWorld
       (dir [(".gitignore",
              file ("# BEGIN GIT-OVERLAY MANAGED BLOCK - DO NOT EDIT" +:+ Link.newline
                    +:+ "overlay/library/x.txt" +:+ Link.newline
                    +:+ "# END GIT-OVERLAY MANAGED BLOCK"));
             (".upstream", dir [("src", dir [("lib", dir [("x.txt", file "x")])])]);
             ("overlay",
              dir [("library",
                    dir [("x.txt", Symlink "../../.upstream/src/lib/x.txt")])])])
       (StateStored (mkState [mkManagedFile "library/x.txt" "symlink" "src/lib/x.txt"]))
       true,
     None).
Proof. vm_compute. reflexivity. Qed.

Example link_library_again :
  snd (Link.CreateLinks "symlink" false libraryConfig
         (fst (Link.CreateLinks "symlink" false libraryConfig libraryWorld)))
  = Some (ErrProcessDirectory "src/lib" (ErrTargetExists "overlay/library/x.txt")).
Proof. vm_compute. reflexivity. Qed.

Example link_then_clean :
  Clean.cleanCmd (fst (Link.CreateLinks "symlink" true libraryConfig libraryWorld))
  = (Clean.Removed 1,
     mkWorld
       (dir [(".gitignore",
              file ("# BEGIN GIT-OVERLAY MANAGED BLOCK - DO NOT EDIT" +:+ Link.newline
                    +:+ "overlay/library/x.txt" +:+ Link.newline
                    +:+ "# END GIT-OVERLAY MANAGED BLOCK"));
             (".upstream", dir [("src", dir [("lib", dir [("x.txt", file "x")])])]);
             ("overlay", dir [])])
       (StateStored (mkState [])) true).
Proof. vm_compute. reflexivity. Qed.

End TestScenarios.

(** ** The cleanup engine: the registry after clean *)

Section CleanRegistry.
Import Config CleanOrder Clean.

Lemma filter_all {A} (P : A → Prop) `{∀ x, Decision (P x)} (l : list A) :
  (∀ x, x ∈ l → P x) → filter P l = l.
Proof.
  induction l as [|x l IH]; intros Hall; [done|].
  rewrite filter_cons_True by (apply Hall; by left).
  f_equal. apply IH. intros y Hy. apply Hall. by right.
Qed.

Lemma filter_none {A} (P : A → Prop) `{∀ x, Decision (P x)} (l : list A) :
  (∀ x, x ∈ l → ¬ P x) → filter P l = [].
Proof.
  induction l as [|x l IH]; intros Hall; [done|].
  rewrite filter_cons_False by (apply Hall; by left).
  apply IH. intros y Hy. apply Hall. by right.
Qed.

Lemma dropAll_filter paths s :
  ManagedFiles (dropAll paths s)
  = filter (λ f, Path f ∉ paths) (ManagedFiles s).
Proof.
  unfold dropAll. revert s. induction paths as [|p paths IH]; intros s; simpl.
  - symmetry. apply filter_all. intros f _. apply not_elem_of_nil.
  - rewrite IH, RemoveManagedFile_filter, list_filter_filter.
    apply list_filter_iff. intros f. rewrite not_elem_of_cons. tauto.
Qed.

Lemma processPath_state managedPaths relPath v v' :
  processPath managedPaths relPath v = Some v' →
  ManagedFiles (state v') ⊆ ManagedFiles (state v).
Proof.
  assert (ManagedFiles (RemoveManagedFile (state v) relPath)
            ⊆ ManagedFiles (state v)) as Hsub.
  { rewrite RemoveManagedFile_filter. intros f Hf.
    by apply list_elem_of_filter in Hf as [_ ?]. }
  unfold processPath. intros Hstep.
  destruct (OS.Lstat (root v) _) as [info|e].
  - destruct (negb (OS.IsDir info)).
    + destruct (OS.Remove (root v) _); by simplify_eq.
    + destruct (isFullyManaged (root v) _ managedPaths); [|by simplify_eq].
      destruct (OS.RemoveAll (root v) _) as [root' [e|]]; by simplify_eq.
  - destruct (OS.IsNotExist e); by simplify_eq.
Qed.

Lemma processPaths_state managedPaths paths v v' panicked :
  processPaths managedPaths paths v = (v', panicked) →
  ManagedFiles (state v') ⊆ ManagedFiles (state v).
Proof.
  revert v. induction paths as [|p paths IH]; intros v Hrun; simpl in Hrun.
  - by simplify_eq.
  - destruct (processPath managedPaths p v) as [v1|] eqn:Hstep; [|by simplify_eq].
    etrans; [by apply IH|]. by eapply processPath_state.
Qed.

(** After the final cleanup loop the state is empty. *)
Lemma dropAll_managedPaths st s :
  ManagedFiles s ⊆ ManagedFiles st →
  dropAll (elements (managedPaths st)) s = mkState [].
Proof.
  intros Hsub. pose proof (dropAll_filter (elements (managedPaths st)) s) as Hd.
  destruct (dropAll _ s) as [files]. simpl in Hd. f_equal. rewrite Hd.
  apply filter_none. intros f Hf Hnotin. apply Hnotin.
  apply elem_of_elements. unfold managedPaths. apply elem_of_list_to_set.
  apply list_elem_of_fmap. exists f. split; [done|]. by apply Hsub.
Qed.

End CleanRegistry.

(** ** The link materializer: persistence *)

Section Materialize.
Import OS Config Link.

Lemma processLinks_app linkMode force l1 l2 ctx ctx1 :
  processLinks linkMode force l1 ctx = (ctx1, None) →
  processLinks linkMode force (l1 ++ l2) ctx = processLinks linkMode force l2 ctx1.
Proof.
  revert ctx. induction l1 as [|link l1 IH]; intros ctx Hrun; simpl in *.
  - by simplify_eq.
  - destruct (processLink linkMode force link ctx) as [ctx' [e|]]; [done|]. by apply IH.
Qed.

(** C2, as the code has it.  CreateLinks stops at the first mapping
    that fails, whatever mappings follow, and returns the error
    without saving: whenever CreateLinks returns an error the state
    file is what it was before the call, so the entries upserted
    before the failure are not persisted.  The state is saved, with
    all entries upserted, when every mapping succeeded. *)
Theorem CreateLinks_persists_on_success_only :
  ∀ (flagLinkMode : string) (force : bool) (cfg : Link.Config) (w w' : World),
    (∀ e, CreateLinks flagLinkMode force cfg w = (w', Some e) →
          stateFile w' = stateFile w)
    ∧ (∀ linkMode l1 link l2 ctx ctx1 ctx2 e,
          processLinks linkMode force l1 ctx = (ctx1, None) →
          processLink linkMode force link ctx1 = (ctx2, Some e) →
          processLinks linkMode force (l1 ++ link :: l2) ctx = (ctx2, Some e))
    ∧ (CreateLinks flagLinkMode force cfg w = (w', None) →
       ∃ st ctx,
         LoadState w = Ok st
         ∧ processLinks
             (if String.eqb (LinkMode_ cfg) "" then flagLinkMode else LinkMode_ cfg)
             force (Symlinks cfg) (mkCtx (fs w) [] st) = (ctx, None)
         ∧ stateFile w' = StateStored (state ctx)).
Proof.
  intros flagLinkMode force cfg w w'. unfold CreateLinks. split_and!.
  - intros e Hrun. destruct (LoadState w) as [st|e0]; [|by simplify_eq].
    destruct (processLinks _ _ _ _) as [ctx [e1|]]; [by simplify_eq|].
    destruct (updateGitignore _ _) as [root'|e2]; [|by simplify_eq].
    unfold SaveState in Hrun. simpl in Hrun.
    destruct (stateWritable w); by simplify_eq.
  - intros linkMode l1 link l2 ctx ctx1 ctx2 e Hl1 Hlink.
    rewrite (processLinks_app _ _ _ _ _ _ Hl1). simpl. by rewrite Hlink.
  - intros Hrun. destruct (LoadState w) as [st|e0]; [|by simplify_eq].
    destruct (processLinks _ _ _ _) as [ctx [e1|]] eqn:Hlinks; [by simplify_eq|].
    destruct (updateGitignore _ _) as [root'|e2]; [|by simplify_eq].
    unfold SaveState in Hrun. simpl in Hrun.
    destruct (stateWritable w); simplify_eq. by exists st, ctx.
Qed.

Lemma CreateLinks_persists_on_success_only_witness :
  stateFile (fst (CreateLinks "symlink" false partialConfig partialWorld))
  = stateFile partialWorld.
Proof.
  apply (CreateLinks_persists_on_success_only "symlink" false partialConfig partialWorld
           (fst (CreateLinks "symlink" false partialConfig partialWorld)))
    with (e := ErrProcessFile "b.txt" (ErrTargetExists "overlay/b.txt")).
  vm_compute. reflexivity.
Defined.

(** createLink fails on the second target after the first target was
    linked and upserted; the registry file does not hold the entry of
    the first target when CreateLinks returns. *)
Lemma CreateLinks_drops_upserted_entries :
  let r := CreateLinks "symlink" false partialConfig partialWorld in
  snd r = Some (ErrProcessFile "b.txt" (ErrTargetExists "overlay/b.txt"))
  ∧ Lstat (fs (fst r)) "overlay/a.txt" = Ok (Symlink "../.upstream/a.txt")
  ∧ fst (processLinks "symlink" false (Symlinks partialConfig)
           (mkCtx (fs partialWorld) [] (mkState [])))
    = mkCtx (fs (fst r)) ["overlay/a.txt"]
        (mkState [mkManagedFile "a.txt" "symlink" "a.txt"])
  ∧ stateFile (fst r) = StateAbsent
  ∧ LoadState (fst r) = Ok (mkState []).
Proof. vm_compute. split_and!; reflexivity. Qed.

End Materialize.

(** ** The cleanup engine: errors *)

Section CleanErrors.
Import OS Config CleanOrder Clean.




End CleanErrors.

(** ** createLink *)

Section CreateLink.
Import OS Config Link.

Lemma IsManagedFile_AddManagedFile s path linkMode source :
  IsManagedFile (AddManagedFile s path linkMode source) path
  = Some (mkManagedFile path linkMode source).
Proof.
  unfold IsManagedFile. rewrite AddManagedFile_filter.
  rewrite findManaged_app_notin by apply Path_not_in_filter.
  simpl. by rewrite String.eqb_refl.
Qed.

(** C10, as the code has it.  When the target path holds a symbolic
    link whose referent does not exist, os.Stat fails and the branch
    for an existing target is not taken: with or without force no
    "target already exists" error is raised and the stale link is not
    removed.  For the link modes symlink and hardlink the creation of
    the link then fails, and the stale link stays in place. *)
Theorem createLink_stale_link_target :
  ∀ (src dst linkMode : string) (force : bool) (ctx : Ctx)
    (root1 : node) (target : string) (e : errno),
    validatePath "overlay" (Strings.TrimPrefix dst "overlay/") = Ok tt →
    MkdirAll (root ctx) (Filepath.Dir dst) = (root1, None) →
    Lstat root1 dst = Ok (Symlink target) →
    Stat root1 dst = Err e →
    handleExisting root1 dst force = Ok root1
    ∧ (Strings.HasSuffix dst ".gitignore" = false →
       linkMode = "symlink" ∨ linkMode = "hardlink" →
       ∃ err,
         createLink src dst linkMode force ctx = (withRoot ctx root1, Some err)
         ∧ (err = ErrRelativePath src dst
            ∨ err = ErrSymlink src dst EEXIST
            ∨ ∃ cause, err = ErrHardlink src dst cause)
         ∧ Lstat (root (withRoot ctx root1)) dst = Ok (Symlink target)).
Proof.
  intros src dst linkMode force ctx root1 target e Hvalid Hmkdir Hlstat Hstat.
  assert (handleExisting root1 dst force = Ok root1) as Hexisting.
  { unfold handleExisting. by rewrite Hstat. }
  split; [done|]. intros Hsuffix Hmode.
  unfold createLink. rewrite Hvalid, Hmkdir, Hexisting, Hsuffix.
  assert (∃ l, namei root1 false dst = RFound l (Symlink target)) as [l Hnamei].
  { unfold Lstat, statWith in Hlstat.
    destruct (namei root1 false dst) as [l n| |]; simplify_eq. eauto. }
  unfold makeLink. destruct Hmode as [-> | ->]; simpl.
  - destruct (Filepath.Rel _ _) as [relPath|]; [|eauto 6].
    unfold Symlink_. rewrite Hnamei. eauto 6.
  - unfold Link. destruct (namei root1 false src) as [ls [| |]| |]; eauto 8.
    all: rewrite Hnamei; eauto 8.
Qed.

Lemma createLink_stale_link_target_witness :
  handleExisting (fs staleWorld) "overlay/b.txt" true = Ok (fs staleWorld)
  ∧ createLink ".upstream/new.txt" "overlay/b.txt" "symlink" true
      (mkCtx (fs staleWorld) [] (mkState []))
    = (mkCtx (fs staleWorld) [] (mkState []),
       Some (ErrSymlink ".upstream/new.txt" "overlay/b.txt" EEXIST)).
Proof.
  destruct (createLink_stale_link_target
              ".upstream/new.txt" "overlay/b.txt" "symlink" true
              (mkCtx (fs staleWorld) [] (mkState []))
              (fs staleWorld) "../.upstream/old.txt" ENOENT)
    as [Hexisting Hfail]; [reflexivity..|].
  split; [exact Hexisting|]. reflexivity.
Defined.

(** With link mode copy the step after the skipped branch does not
    fail: copyFile follows the stale link and creates its referent in
    the source tree. *)
Lemma createLink_copies_through_stale_link :
  Lstat (fs staleWorld) "overlay/b.txt" = Ok (Symlink "../.upstream/old.txt")
  ∧ Stat (fs staleWorld) "overlay/b.txt" = Err ENOENT
  ∧ createLink ".upstream/new.txt" "overlay/b.txt" "copy" true
      (mkCtx (fs staleWorld) [] (mkState []))
    = (mkCtx
         (dir [(".upstream", dir [("new.txt", file "new"); ("old.txt", file "new")]);
               ("overlay", dir [("b.txt", Symlink "../.upstream/old.txt")])])
         ["overlay/b.txt"]
         (mkState [mkManagedFile "b.txt" "copy" "new.txt"]),
       None).
Proof. vm_compute. split_and!; reflexivity. Qed.

End CreateLink.

(** ** Trees *)

Section Trees.
Import OS TreeSpec.

(** Induction on trees with the hypothesis for every entry of a
    directory. *)
Lemma node_ind' (P : node → Prop)
    (HFile : ∀ mode data, P (File mode data))
    (HSymlink : ∀ target, P (Symlink target))
    (HDir : ∀ w es, Forall (λ e, P e.2) es → P (Dir w es)) :
  ∀ n, P n.
Proof.
  fix IH 1. intros [mode data|target|w es]; [apply HFile|apply HSymlink|].
  apply HDir. induction es as [|[x c] r IHr]; constructor; [apply IH|apply IHr].
Qed.

Lemma shrinks_Dir w es n' :
  shrinks (Dir w es) n' ↔ n' = Dir w es ∨ ∃ es', n' = Dir w es' ∧ shrinkEntries es es'.
Proof. reflexivity. Qed.

Lemma shrinks_refl n : shrinks n n.
Proof. destruct n; by left. Qed.

Lemma shrinkEntries_refl es : shrinkEntries es es.
Proof.
  induction es as [|[x c] r IH]; simpl; [done|].
  right. split_and!; [done|apply shrinks_refl|done].
Qed.

Lemma shrinks_Dir_intro w es es' : shrinkEntries es es' → shrinks (Dir w es) (Dir w es').
Proof. intros H. apply shrinks_Dir. right. eauto. Qed.

Lemma shrinks_Dir_inv w es n' :
  shrinks (Dir w es) n' → ∃ es', n' = Dir w es' ∧ shrinkEntries es es'.
Proof.
  intros [->|H]%shrinks_Dir; [|done]. exists es. split; [done|apply shrinkEntries_refl].
Qed.

Lemma shrinkEntries_nil es : shrinkEntries es [].
Proof. induction es as [|[x c] r IH]; simpl; [done|by left]. Qed.

Lemma shrinks_trans a b c : shrinks a b → shrinks b c → shrinks a c.
Proof.
  revert b c. induction a as [mode data|target|w es IH] using node_ind'; intros b c Hab Hbc.
  - destruct Hab as [->|[]]. done.
  - destruct Hab as [->|[]]. done.
  - apply shrinks_Dir_inv in Hab as (esb & -> & Hesb).
    apply shrinks_Dir_inv in Hbc as (esc & -> & Hesc).
    apply shrinks_Dir_intro. clear w.
    revert esb esc Hesb Hesc. induction IH as [|[x n] r Hn _ IHr]; intros esb esc Hesb Hesc.
    + simpl in *. subst. done.
    + simpl in Hesb. destruct Hesb as [Hdrop|Hkeep].
      * simpl. left. by eapply IHr.
      * destruct esb as [|[xb nb] rb]; [done|]. destruct Hkeep as (-> & Hnb & Hrb).
        simpl in Hesc. destruct Hesc as [Hdrop|Hkeep].
        -- simpl. left. by eapply IHr.
        -- destruct esc as [|[xc nc] rc]; [done|]. destruct Hkeep as (-> & Hnc & Hrc).
           simpl. right. split_and!; [done|by eapply Hn|by eapply IHr].
Qed.

Lemma shrinkEntries_delEntry x es : shrinkEntries es (delEntry x es).
Proof.
  induction es as [|[y c] r IH]; simpl; [done|].
  destruct (String.eqb y x); [by left|].
  right. split_and!; [done|apply shrinks_refl|done].
Qed.

Lemma shrinkEntries_replaceEntry x c c' es :
  assoc x es = Some c → shrinks c c' → shrinkEntries es (replaceEntry x c' es).
Proof.
  intros Hassoc Hc. induction es as [|[y d] r IH]; simpl in *; [done|].
  destruct (String.eqb_spec y x) as [->|Hne].
  - simplify_eq. right. split_and!; [done..|apply shrinkEntries_refl].
  - right. split_and!; [done|apply shrinks_refl|by apply IH].
Qed.

Lemma putEntry_replace x c v es :
  assoc x es = Some c → putEntry x v es = replaceEntry x v es.
Proof. unfold putEntry. by intros ->. Qed.

Lemma shrinks_setAt_None root l : shrinks root (setAt root l None).
Proof.
  revert root. induction l as [|x l IH]; intros root; [apply shrinks_refl|].
  destruct root as [mode data|target|w es]; [apply shrinks_refl..|].
  simpl. destruct l as [|y l].
  - apply shrinks_Dir_intro, shrinkEntries_delEntry.
  - destruct (assoc x es) as [c|] eqn:Hassoc; [|apply shrinks_refl].
    rewrite (putEntry_replace _ _ _ _ Hassoc).
    apply shrinks_Dir_intro. eapply shrinkEntries_replaceEntry; [done|apply IH].
Qed.

Lemma shrinks_setAt_Some root l n n' :
  lookup root l = Some n → shrinks n n' → shrinks root (setAt root l (Some n')).
Proof.
  revert root. induction l as [|x l IH]; intros root Hlookup Hn.
  - simpl in *. by simplify_eq.
  - destruct root as [mode data|target|w es]; [done..|]. simpl in Hlookup.
    destruct (assoc x es) as [c|] eqn:Hassoc; [|done].
    simpl. destruct l as [|y l].
    + simpl in Hlookup. simplify_eq.
      rewrite (putEntry_replace _ _ _ _ Hassoc).
      apply shrinks_Dir_intro. by eapply shrinkEntries_replaceEntry.
    + rewrite Hassoc, (putEntry_replace _ _ _ _ Hassoc).
      apply shrinks_Dir_intro. eapply shrinkEntries_replaceEntry; [done|by apply IH].
Qed.

Lemma purge_Dir w es :
  purge (Dir w es) = (Dir w (purgeEntries w es), isNil (purgeEntries w es)).
Proof. reflexivity. Qed.

Lemma purge_shrinks n : shrinks n (purge n).1.
Proof.
  induction n as [mode data|target|w es IH] using node_ind'; [by left..|].
  rewrite purge_Dir. simpl. apply shrinks_Dir_intro.
  induction IH as [|[x c] r Hc _ IHr]; simpl; [done|]. simpl in Hc.
  destruct (purge c) as [c' gone] eqn:Hp. simpl in Hc.
  destruct (gone && w); [by left|]. right. done.
Qed.

Lemma lookup_app root l1 l2 :
  lookup root (l1 ++ l2) = lookup root l1 ≫= λ n, lookup n l2.
Proof.
  revert root. induction l1 as [|x l1 IH]; intros root; simpl; [done|].
  destruct root as [| |w es]; [done..|]. destruct (assoc x es); [apply IH|done].
Qed.

Lemma lookup_snoc root l x w es c :
  lookup root l = Some (Dir w es) → assoc x es = Some c →
  lookup root (l ++ [x]) = Some c.
Proof. intros Hl Hx. rewrite lookup_app, Hl. simpl. by rewrite Hx. Qed.

(** A resolved path names the node at the resolved location. *)
Lemma resolveFrom_lookup fuel root follow cur comps l n :
  resolveFrom fuel root follow cur comps = RFound l n → lookup root l = Some n.
Proof.
  revert cur comps. induction fuel as [|fuel IHf]; intros cur comps;
    revert cur; induction comps as [|c rest IHc]; intros cur; simpl.
  - destruct (lookup root cur) eqn:Hl; intros; by simplify_eq.
  - destruct (lookup root cur) as [[| |w es]|] eqn:Hl; try done.
    destruct (String.eqb c "" || String.eqb c "."); [apply IHc|].
    destruct (String.eqb c ".."); [apply IHc|].
    destruct (assoc c es) as [[| target|]|] eqn:Hassoc; try apply IHc.
    + destruct (isNil rest && negb follow).
      * intros; simplify_eq. by eapply lookup_snoc.
      * by destruct (String.eqb target "").
    + by destruct (isNil rest).
  - destruct (lookup root cur) eqn:Hl; intros; by simplify_eq.
  - destruct (lookup root cur) as [[| |w es]|] eqn:Hl; try done.
    destruct (String.eqb c "" || String.eqb c "."); [apply IHc|].
    destruct (String.eqb c ".."); [apply IHc|].
    destruct (assoc c es) as [[| target|]|] eqn:Hassoc; try apply IHc.
    + destruct (isNil rest && negb follow).
      * intros; simplify_eq. by eapply lookup_snoc.
      * destruct (String.eqb target ""); [done|]. apply IHf.
    + by destruct (isNil rest).
Qed.

Lemma namei_lookup root follow path l n :
  namei root follow path = RFound l n → lookup root l = Some n.
Proof.
  unfold namei. destruct (String.eqb path ""); [done|]. apply resolveFrom_lookup.
Qed.

Lemma Remove_shrinks root path root' : Remove root path = Ok root' → shrinks root root'.
Proof.
  unfold Remove. destruct (namei root false path) as [[|x l] n| |]; try done.
  destruct (parentWritable root (x :: l)); [|done].
  destruct n as [| |w [|e es]]; try done; intros [= <-];
    exact (shrinks_setAt_None root (x :: l)).
Qed.

Lemma RemoveAll_shrinks root path root' err :
  RemoveAll root path = (root', err) → shrinks root root'.
Proof.
  unfold RemoveAll. destruct (namei root false path) as [l n| |e] eqn:Hnamei.
  - pose proof (purge_shrinks n) as Hp. destruct (purge n) as [n' gone]. simpl in Hp.
    destruct (gone && negb (isNil l) && parentWritable root l); intros [= <- <-].
    + apply shrinks_setAt_None.
    + eapply shrinks_setAt_Some; [by eapply namei_lookup|done].
  - intros [= <- <-]. apply shrinks_refl.
  - destruct e; intros [= <- <-]; apply shrinks_refl.
Qed.

End Trees.

(** ** Pruning of empty directories *)

Section Prune.
Import OS TreeSpec Clean.

Lemma removeEmptyDirsNode_Dir dir pw w es :
  removeEmptyDirsNode dir pw (Dir w es)
  = let '(entries', err) := removeEmptySubdirs dir w es in
    match err with
    | Some e => (Some (Dir w entries'), Some e)
    | None =>
        if isNil entries' && negb (String.eqb dir "overlay") then
          if pw then (None, None)
          else (Some (Dir w entries'), Some (ErrRemoveDir dir EACCES))
        else (Some (Dir w entries'), None)
    end.
Proof. reflexivity. Qed.

Lemma removeEmptySubdirs_cons dir w name entry rest :
  removeEmptySubdirs dir w ((name, entry) :: rest)
  = if IsDir entry then
      match removeEmptyDirsNode (Filepath.Join [dir; name]) w entry with
      | (Some entry', Some e) => ((name, entry') :: rest, Some e)
      | (None, Some e) => (rest, Some e)
      | (Some entry', None) =>
          let '(rest', err) := removeEmptySubdirs dir w rest in
          ((name, entry') :: rest', err)
      | (None, None) => removeEmptySubdirs dir w rest
      end
    else
      let '(rest', err) := removeEmptySubdirs dir w rest in
      ((name, entry) :: rest', err).
Proof. reflexivity. Qed.

Lemma removeEmptyDirsNode_ok_inv dir pw n n' :
  removeEmptyDirsNode dir pw n = (Some n', None) →
  ∃ w es es',
    n = Dir w es ∧ n' = Dir w es'
    ∧ removeEmptySubdirs dir w es = (es', None)
    ∧ isNil es' && negb (String.eqb dir "overlay") = false.
Proof.
  destruct n as [mode data|target|w es]; [done..|].
  rewrite removeEmptyDirsNode_Dir.
  destruct (removeEmptySubdirs dir w es) as [es' [e|]] eqn:Hsub; [done|].
  destruct (isNil es' && negb (String.eqb dir "overlay")) eqn:Hcond.
  - by destruct pw.
  - intros [= <-]. by exists w, es, es'.
Qed.

Lemma removeEmptySubdirs_shrinks dir w es :
  Forall (λ e, ∀ dir pw n' err,
              removeEmptyDirsNode dir pw e.2 = (Some n', err) → shrinks e.2 n') es →
  ∀ es' err, removeEmptySubdirs dir w es = (es', err) → shrinkEntries es es'.
Proof.
  induction 1 as [|[name c] r Hc _ IHr]; intros es' err; [by intros [= <- <-]|].
  rewrite removeEmptySubdirs_cons. simpl in Hc.
  destruct (IsDir c).
  - destruct (removeEmptyDirsNode _ w c) as [[c'|] [e|]] eqn:Hprune.
    + intros [= <- <-]. simpl. right.
      split_and!; [done|by eapply Hc|apply shrinkEntries_refl].
    + destruct (removeEmptySubdirs dir w r) as [r' err'] eqn:Hr.
      intros [= <- <-]. simpl. right. split_and!; [done|by eapply Hc|by eapply IHr].
    + intros [= <- <-]. simpl. left. apply shrinkEntries_refl.
    + intros Hr. simpl. left. by eapply IHr.
  - destruct (removeEmptySubdirs dir w r) as [r' err'] eqn:Hr.
    intros [= <- <-]. simpl. right.
    split_and!; [done|apply shrinks_refl|by eapply IHr].
Qed.

Lemma removeEmptyDirsNode_shrinks n :
  ∀ dir pw n' err, removeEmptyDirsNode dir pw n = (Some n', err) → shrinks n n'.
Proof.
  induction n as [mode data|target|w es IH] using node_ind'; intros dir pw n' err.
  - intros [= <- <-]. apply shrinks_refl.
  - intros [= <- <-]. apply shrinks_refl.
  - rewrite removeEmptyDirsNode_Dir.
    destruct (removeEmptySubdirs dir w es) as [es' err'] eqn:Hsub.
    pose proof (removeEmptySubdirs_shrinks dir w es IH _ _ Hsub) as Hes.
    destruct err' as [e|]; [intros [= <- <-]; by apply shrinks_Dir_intro|].
    destruct (isNil es' && negb (String.eqb dir "overlay")).
    + destruct pw; [done|]. intros [= <- <-]. by apply shrinks_Dir_intro.
    + intros [= <- <-]. by apply shrinks_Dir_intro.
Qed.

(** A second pruning of a pruned directory changes nothing. *)
Lemma removeEmptyDirsNode_again n :
  ∀ dir pw n',
    removeEmptyDirsNode dir pw n = (Some n', None) →
    ∀ pw', removeEmptyDirsNode dir pw' n' = (Some n', None).
Proof.
  induction n as [mode data|target|w es IH] using node_ind'; intros dir pw n' Hprune pw';
    [done..|].
  apply removeEmptyDirsNode_ok_inv in Hprune as (w0 & es0 & es' & [= <- <-] & -> & Hsub & Hcond).
  rewrite removeEmptyDirsNode_Dir.
  assert (removeEmptySubdirs dir w es' = (es', None)) as ->; [|by rewrite Hcond].
  clear Hcond. revert es' Hsub.
  induction IH as [|[name c] r Hc _ IHr]; intros es'; [by intros [= <-]|].
  rewrite removeEmptySubdirs_cons. simpl in Hc.
  destruct (IsDir c) eqn:Hdir.
  - destruct (removeEmptyDirsNode _ w c) as [[c'|] [e|]] eqn:Hprune; try done.
    + destruct (removeEmptySubdirs dir w r) as [r' err'] eqn:Hr.
      intros [= <- ->]. rewrite removeEmptySubdirs_cons.
      pose proof (Hc _ _ _ Hprune w) as Hagain.
      apply removeEmptyDirsNode_ok_inv in Hprune as (w1 & es1 & es1' & -> & -> & _).
      simpl. simpl in Hagain. rewrite Hagain. by rewrite (IHr r').
    + apply IHr.
  - destruct (removeEmptySubdirs dir w r) as [r' err'] eqn:Hr.
    intros [= <- ->]. rewrite removeEmptySubdirs_cons, Hdir. by rewrite (IHr r').
Qed.

End Prune.

(** ** The overlay directory during clean *)

Section OverlayDir.
Import OS TreeSpec Config CleanOrder Clean.

Lemma assoc_delEntry x y es :
  assoc y (delEntry x es) = if String.eqb x y then None else assoc y es.
Proof.
  induction es as [|[z c] r IH]; simpl; [by destruct (String.eqb x y)|].
  destruct (String.eqb_spec z x) as [->|Hzx]; simpl; rewrite IH;
    destruct (String.eqb_spec x y) as [->|Hxy]; try done;
    destruct (String.eqb_spec z y); congruence.
Qed.

Lemma assoc_replaceEntry x v y es c :
  assoc x es = Some c →
  assoc y (replaceEntry x v es) = if String.eqb x y then Some v else assoc y es.
Proof.
  induction es as [|[z d] r IH]; simpl; [done|].
  destruct (String.eqb_spec z x) as [->|Hzx].
  - intros _. simpl. by destruct (String.eqb x y).
  - intros Hassoc. simpl. rewrite IH by done.
    destruct (String.eqb_spec z y) as [->|Hzy]; [|done].
    destruct (String.eqb_spec x y); congruence.
Qed.

Lemma setAt_deep_Symlink c y l v target :
  setAt c (y :: l) v = Symlink target → c = Symlink target.
Proof.
  destruct c as [| |w es]; [done..|]. simpl.
  destruct l; [done|]. by destruct (assoc y es).
Qed.

Lemma assoc_purgeEntries_Symlink w x es target :
  assoc x (purgeEntries w es) = Some (Symlink target) →
  assoc x es = Some (Symlink target).
Proof.
  induction es as [|[y c] r IH]; simpl; [done|].
  destruct (purge c) as [c' gone] eqn:Hp.
  destruct (String.eqb_spec y x) as [->|Hyx].
  - destruct (gone && w) eqn:Hgw.
    + intros Hr. exfalso. apply andb_prop in Hgw as [_ ->].
      clear -Hr. induction r as [|[z d] r IH]; simpl in Hr; [done|].
      destruct (purge d) as [d' gone'] eqn:Hd.
      destruct gone'; simpl in Hr; [by apply IH|].
      destruct (String.eqb z x); [|by apply IH].
      simplify_eq. by destruct d as [| |w' es'].
    + simpl. rewrite String.eqb_refl. intros [= ->].
      destruct c as [| |w' es']; [| |rewrite purge_Dir in Hp]; simpl in Hp;
        by simplify_eq.
  - destruct (gone && w); [done|]. simpl.
    by apply String.eqb_neq in Hyx as ->.
Qed.

Lemma purge_Symlink n target : (purge n).1 = Symlink target → n = Symlink target.
Proof. by destruct n. Qed.

Lemma overlayNotLink_setAt_None root l :
  overlayNotLink root → overlayNotLink (setAt root l None).
Proof.
  intros HQ target. destruct l as [|x l]; [apply HQ|].
  destruct root as [| |w es]; [apply HQ..|]. simpl.
  specialize (HQ target). simpl in HQ.
  destruct l as [|y l].
  - rewrite assoc_delEntry. destruct (String.eqb_spec x "overlay"); [done|].
    by destruct (assoc "overlay" es).
  - destruct (assoc x es) as [c|] eqn:Hassoc; [|done]. simpl.
    rewrite (putEntry_replace _ _ _ _ Hassoc), (assoc_replaceEntry _ _ _ _ _ Hassoc).
    destruct (String.eqb_spec x "overlay") as [->|Hne].
    + rewrite Hassoc in HQ. intros [= Hs].
      pose proof (setAt_deep_Symlink c y l None target Hs). by subst.
    + by destruct (assoc "overlay" es).
Qed.

Lemma overlayNotLink_setAt_purge root l n :
  overlayNotLink root → lookup root l = Some n →
  overlayNotLink (setAt root l (Some (purge n).1)).
Proof.
  intros HQ Hlookup target. specialize (HQ target). destruct l as [|x l].
  - simpl in *. simplify_eq. destruct n as [| |w es]; [done..|].
    rewrite purge_Dir. simpl in *.
    destruct (assoc "overlay" (purgeEntries w es)) as [c|] eqn:Hc; [|done].
    intros [= ->]. apply assoc_purgeEntries_Symlink in Hc. by rewrite Hc in HQ.
  - destruct root as [| |w es]; [done..|]. simpl in *.
    destruct (assoc x es) as [c|] eqn:Hassoc; [|done].
    destruct l as [|y l].
    + simpl in Hlookup. simplify_eq. simpl.
      rewrite (putEntry_replace _ _ _ _ Hassoc), (assoc_replaceEntry _ _ _ _ _ Hassoc).
      destruct (String.eqb_spec x "overlay") as [->|Hne].
      * rewrite Hassoc in HQ. intros [= Hs]. apply purge_Symlink in Hs. by subst.
      * by destruct (assoc "overlay" es).
    + simpl.
      rewrite (putEntry_replace _ _ _ _ Hassoc), (assoc_replaceEntry _ _ _ _ _ Hassoc).
      destruct (String.eqb_spec x "overlay") as [->|Hne].
      * rewrite Hassoc in HQ. intros [= Hs].
        pose proof (setAt_deep_Symlink c y l _ target Hs). by subst.
      * by destruct (assoc "overlay" es).
Qed.

Lemma Remove_overlayNotLink root path root' :
  Remove root path = Ok root' → overlayNotLink root → overlayNotLink root'.
Proof.
  unfold Remove. destruct (namei root false path) as [[|x l] n| |]; try done.
  destruct (parentWritable root (x :: l)); [|done].
  destruct n as [| |w [|e es]]; try done; intros [= <-] HQ;
    exact (overlayNotLink_setAt_None root (x :: l) HQ).
Qed.

Lemma RemoveAll_overlayNotLink root path root' err :
  RemoveAll root path = (root', err) → overlayNotLink root → overlayNotLink root'.
Proof.
  unfold RemoveAll. destruct (namei root false path) as [l n| |e] eqn:Hnamei.
  - pose proof (overlayNotLink_setAt_purge root l n) as Hp.
    destruct (purge n) as [n' gone]. simpl in Hp.
    destruct (gone && negb (isNil l) && parentWritable root l); intros [= <- <-] HQ.
    + by apply overlayNotLink_setAt_None.
    + apply Hp; [done|]. by eapply namei_lookup.
  - by intros [= <- <-].
  - by destruct e; intros [= <- <-].
Qed.

Lemma processPath_overlayNotLink managedPaths relPath v v' :
  processPath managedPaths relPath v = Some v' →
  overlayNotLink (root v) → overlayNotLink (root v').
Proof.
  unfold processPath.
  destruct (Lstat (root v) _) as [info|e].
  - destruct (negb (IsDir info)).
    + destruct (Remove (root v) _) eqn:Hr; intros [= <-]; [|done].
      simpl. by eapply Remove_overlayNotLink.
    + destruct (isFullyManaged (root v) _ managedPaths); [|by intros [= <-]].
      destruct (RemoveAll (root v) _) as [root' [e|]] eqn:Hr; intros [= <-]; simpl;
        by eapply RemoveAll_overlayNotLink.
  - destruct (IsNotExist e); [|done]. by intros [= <-].
Qed.

Lemma processPaths_overlayNotLink managedPaths paths v v' panicked :
  processPaths managedPaths paths v = (v', panicked) →
  overlayNotLink (root v) → overlayNotLink (root v').
Proof.
  revert v. induction paths as [|p paths IH]; intros v; simpl.
  - by intros [= <- <-].
  - destruct (processPath managedPaths p v) as [v1|] eqn:Hstep; [|by intros [= <- <-]].
    intros Hrun HQ. eapply IH; [done|]. by eapply processPath_overlayNotLink.
Qed.

Lemma resolveFrom_nil fuel root follow cur :
  resolveFrom fuel root follow cur []
  = match lookup root cur with
    | Some n => RFound cur n
    | None => RError ENOENT
    end.
Proof. by destruct fuel. Qed.

Lemma resolveFrom_cons fuel root follow cur c rest :
  resolveFrom fuel root follow cur (c :: rest)
  = match lookup root cur with
    | Some (Dir _ es) =>
        if String.eqb c "" || String.eqb c "." then resolveFrom fuel root follow cur rest
        else if String.eqb c ".." then resolveFrom fuel root follow (parentOf cur) rest
        else
          match assoc c es with
          | None => if isNil rest then RMissing cur c else RError ENOENT
          | Some (Symlink target) =>
              if isNil rest && negb follow
              then RFound (cur ++ [c]) (Symlink target)
              else if String.eqb target "" then RError ENOENT
              else
                match fuel with
                | 0 => RError ELOOP
                | S fuel' =>
                    resolveFrom fuel' root follow
                      (if Filepath.IsAbs target then [] else cur)
                      (Strings.Split target "/" ++ rest)
                end
          | Some _ => resolveFrom fuel root follow (cur ++ [c]) rest
          end
    | Some _ => RError ENOTDIR
    | None => RError ENOENT
    end.
Proof. by destruct fuel. Qed.

Lemma namei_overlay_eq root follow :
  namei root follow "overlay"
  = resolveFrom MAXSYMLINKS root follow [] ["overlay"].
Proof. reflexivity. Qed.

(** Where the path "overlay" leads when the entry is no link. *)
Lemma namei_overlay root l n :
  overlayNotLink root →
  namei root true "overlay" = RFound l n →
  l = ["overlay"] ∧ lookup root ["overlay"] = Some n.
Proof.
  intros HQ. rewrite namei_overlay_eq, resolveFrom_cons.
  destruct root as [| |w es]; [done..|].
  unfold overlayNotLink in HQ. cbn [lookup] in *.
  change (String.eqb "overlay" "" || String.eqb "overlay" ".") with false.
  change (String.eqb "overlay" "..") with false. cbv iota.
  destruct (assoc "overlay" es) as [[| target|]|] eqn:Hassoc.
  - rewrite resolveFrom_nil. cbn [app lookup]. rewrite Hassoc. by intros [= <- <-].
  - by destruct (HQ target).
  - rewrite resolveFrom_nil. cbn [app lookup]. rewrite Hassoc. by intros [= <- <-].
  - done.
Qed.

Lemma namei_overlay_Dir root follow w es :
  lookup root ["overlay"] = Some (Dir w es) →
  namei root follow "overlay" = RFound ["overlay"] (Dir w es).
Proof.
  rewrite namei_overlay_eq, resolveFrom_cons.
  destruct root as [| |w' es']; [done..|]. cbn [lookup].
  change (String.eqb "overlay" "" || String.eqb "overlay" ".") with false.
  change (String.eqb "overlay" "..") with false. cbv iota.
  destruct (assoc "overlay" es') as [n|] eqn:Hassoc; [|done].
  intros [= ->]. rewrite resolveFrom_nil. cbn [app lookup]. by rewrite Hassoc.
Qed.

End OverlayDir.

(** ** Copies *)

Section Copies.
Import OS TreeSpec Config Link.

Lemma sameKind_refl n : sameKind n n.
Proof. by destruct n. Qed.

Lemma grows_refl root : grows root root.
Proof. intros l n Hl. exists n. split; [done|apply sameKind_refl]. Qed.

Lemma sameKind_trans n1 n2 n3 : sameKind n1 n2 → sameKind n2 n3 → sameKind n1 n3.
Proof. destruct n1, n2, n3; simpl; intros; try done; congruence. Qed.

Lemma grows_trans r1 r2 r3 : grows r1 r2 → grows r2 r3 → grows r1 r3.
Proof.
  intros H12 H23 l n Hl. destruct (H12 l n Hl) as (n2 & Hl2 & Hk2).
  destruct (H23 l n2 Hl2) as (n3 & Hl3 & Hk3). exists n3. split; [done|].
  by eapply sameKind_trans.
Qed.

Lemma assoc_insertEntry x v y es :
  assoc x es = None →
  assoc y (insertEntry x v es) = if String.eqb x y then Some v else assoc y es.
Proof.
  induction es as [|[z c] r IH]; simpl; [done|].
  destruct (String.eqb_spec z x) as [->|Hzx]; [done|]. intros Hassoc.
  destruct (String.ltb x z); simpl; [done|]. rewrite IH by done.
  destruct (String.eqb_spec z y) as [->|Hzy]; [|done].
  destruct (String.eqb_spec x y); congruence.
Qed.

Lemma assoc_putEntry x v y es :
  assoc y (putEntry x v es) = if String.eqb x y then Some v else assoc y es.
Proof.
  unfold putEntry. destruct (assoc x es) as [c|] eqn:Hassoc.
  - by eapply assoc_replaceEntry.
  - by apply assoc_insertEntry.
Qed.

Lemma assoc_putEntry_eq x v es : assoc x (putEntry x v es) = Some v.
Proof. by rewrite assoc_putEntry, String.eqb_refl. Qed.

Lemma assoc_putEntry_ne x v y es : x ≠ y → assoc y (putEntry x v es) = assoc y es.
Proof. intros Hxy. rewrite assoc_putEntry. by destruct (String.eqb_spec x y). Qed.

Lemma lookup_setAt_old root l n v :
  lookup root l = Some n → lookup (setAt root l (Some v)) l = Some v.
Proof.
  revert root. induction l as [|x l IH]; intros root; [done|].
  destruct root as [| |w es]; [done..|]. simpl.
  destruct (assoc x es) as [c|] eqn:Hassoc; [|done]. intros Hl.
  destruct l as [|y l]; simpl; rewrite assoc_putEntry_eq; [done|].
  by apply IH.
Qed.

Lemma lookup_setAt_new root p x v w es :
  lookup root p = Some (Dir w es) →
  lookup (setAt root (p ++ [x]) (Some v)) (p ++ [x]) = Some v.
Proof.
  revert root. induction p as [|y p IH]; intros root.
  - intros [= ->]. simpl. by rewrite assoc_putEntry_eq.
  - destruct root as [| |w0 es0]; [done..|]. simpl.
    destruct (assoc y es0) as [c|] eqn:Hassoc; [|done]. intros Hl.
    destruct (p ++ [x]) as [|z q] eqn:Hq; [by destruct p|].
    rewrite assoc_putEntry_eq. by apply IH.
Qed.

(** Putting a file at a place that holds a file, or nothing, leaves
    every other place as it is. *)
Lemma grows_setAt root l mode data :
  match lookup root l with Some (File _ _) | None => True | _ => False end →
  grows root (setAt root l (Some (File mode data))).
Proof.
  revert root. induction l as [|x l IH]; intros root.
  - simpl. destruct root as [m d| |]; [|done..]. intros _ [|y l] n; [|done].
    intros [= <-]. by eexists.
  - destruct root as [| |w es]; [intros; apply grows_refl..|].
    destruct l as [|y l].
    + simpl. intros Hx [|z q] n.
      * intros [= <-]. by eexists.
      * simpl. rewrite assoc_putEntry. destruct (String.eqb_spec x z) as [->|Hxz].
        -- destruct (assoc z es) as [[m d| |]|]; try done.
           destruct q; [|done]. intros [= <-]. by eexists.
        -- intros Hl. eexists. split; [done|apply sameKind_refl].
    + intros Hx. change (setAt (Dir w es) (x :: y :: l) (Some (File mode data)))
        with (match assoc x es with
              | Some c => Dir w (putEntry x (setAt c (y :: l) (Some (File mode data))) es)
              | None => Dir w es
              end).
      change (lookup (Dir w es) (x :: y :: l))
        with (match assoc x es with Some c => lookup c (y :: l) | None => None end) in Hx.
      destruct (assoc x es) as [c|] eqn:Hassoc; [|apply grows_refl].
      intros [|z q] n.
      * intros [= <-]. by eexists.
      * simpl. rewrite assoc_putEntry. destruct (String.eqb_spec x z) as [->|Hxz].
        -- rewrite Hassoc. by apply IH.
        -- intros Hl. eexists. split; [done|apply sameKind_refl].
Qed.

Lemma grows_Dir root root' l w es :
  grows root root' → lookup root l = Some (Dir w es) →
  ∃ w' es', lookup root' l = Some (Dir w' es')
            ∧ ∀ x c, assoc x es = Some c → ∃ c', assoc x es' = Some c' ∧ sameKind c c'.
Proof.
  intros Hg Hl. destruct (Hg l _ Hl) as ([| |w' es'] & Hl' & Hk); [done..|].
  exists w', es'. split; [done|]. intros x c Hx.
  destruct (Hg (l ++ [x]) c) as (c' & Hc' & Hkc); [by eapply lookup_snoc|].
  exists c'. split; [|done]. rewrite lookup_app, Hl' in Hc'. simpl in Hc'.
  by destruct (assoc x es').
Qed.

(** A path that names a node names the node at the same place in a
    tree that has grown. *)
Lemma resolveFrom_grows fuel root root' follow cur comps l n :
  grows root root' →
  resolveFrom fuel root follow cur comps = RFound l n →
  ∃ n', resolveFrom fuel root' follow cur comps = RFound l n' ∧ sameKind n n'.
Proof.
  intros Hg. revert cur comps. induction fuel as [|fuel IHf]; intros cur comps;
    revert cur; induction comps as [|c rest IHc]; intros cur; simpl.
  - destruct (lookup root cur) as [n0|] eqn:Hl; [|done]. intros [= <- <-].
    destruct (Hg _ _ Hl) as (n' & -> & Hk). by exists n'.
  - destruct (lookup root cur) as [[| |w es]|] eqn:Hl; try done.
    destruct (grows_Dir _ _ _ _ _ Hg Hl) as (w' & es' & -> & Hes).
    destruct (String.eqb c "" || String.eqb c "."); [apply IHc|].
    destruct (String.eqb c ".."); [apply IHc|].
    destruct (assoc c es) as [child|] eqn:Hassoc; [|by destruct (isNil rest)].
    destruct (Hes _ _ Hassoc) as (child' & -> & Hk).
    destruct child as [| target|], child' as [| target'|]; try done; try apply IHc.
    simpl in Hk. subst target'.
    destruct (isNil rest && negb follow).
    + intros [= <- <-]. by eexists.
    + by destruct (String.eqb target "").
  - destruct (lookup root cur) as [n0|] eqn:Hl; [|done]. intros [= <- <-].
    destruct (Hg _ _ Hl) as (n' & -> & Hk). by exists n'.
  - destruct (lookup root cur) as [[| |w es]|] eqn:Hl; try done.
    destruct (grows_Dir _ _ _ _ _ Hg Hl) as (w' & es' & -> & Hes).
    destruct (String.eqb c "" || String.eqb c "."); [apply IHc|].
    destruct (String.eqb c ".."); [apply IHc|].
    destruct (assoc c es) as [child|] eqn:Hassoc; [|by destruct (isNil rest)].
    destruct (Hes _ _ Hassoc) as (child' & -> & Hk).
    destruct child as [| target|], child' as [| target'|]; try done; try apply IHc.
    simpl in Hk. subst target'.
    destruct (isNil rest && negb follow).
    + intros [= <- <-]. by eexists.
    + destruct (String.eqb target ""); [done|]. apply IHf.
Qed.

(** A path that names an absent entry names the file that is put
    there. *)
Lemma resolveFrom_created fuel root root' follow cur comps p x mode data :
  grows root root' →
  resolveFrom fuel root follow cur comps = RMissing p x →
  lookup root' (p ++ [x]) = Some (File mode data) →
  resolveFrom fuel root' follow cur comps = RFound (p ++ [x]) (File mode data).
Proof.
  intros Hg. revert cur comps. induction fuel as [|fuel IHf]; intros cur comps;
    revert cur; induction comps as [|c rest IHc]; intros cur; simpl.
  - by destruct (lookup root cur).
  - destruct (lookup root cur) as [[| |w es]|] eqn:Hl; try done.
    destruct (grows_Dir _ _ _ _ _ Hg Hl) as (w' & es' & Hl' & Hes). rewrite Hl'.
    destruct (String.eqb c "" || String.eqb c "."); [apply IHc|].
    destruct (String.eqb c ".."); [apply IHc|].
    destruct (assoc c es) as [child|] eqn:Hassoc.
    + destruct (Hes _ _ Hassoc) as (child' & -> & Hk).
      destruct child as [| target|], child' as [| target'|]; try done; try apply IHc.
      simpl in Hk. subst target'.
      destruct (isNil rest && negb follow); [done|]. by destruct (String.eqb target "").
    + destruct rest; [|done]. simpl. intros [= <- <-] Hnew.
      pose proof Hnew as Hnew'. rewrite lookup_app, Hl' in Hnew'. simpl in Hnew'.
      destruct (assoc c es') as [child'|]; [|done]. simplify_eq. by rewrite Hnew.
  - by destruct (lookup root cur).
  - destruct (lookup root cur) as [[| |w es]|] eqn:Hl; try done.
    destruct (grows_Dir _ _ _ _ _ Hg Hl) as (w' & es' & Hl' & Hes). rewrite Hl'.
    destruct (String.eqb c "" || String.eqb c "."); [apply IHc|].
    destruct (String.eqb c ".."); [apply IHc|].
    destruct (assoc c es) as [child|] eqn:Hassoc.
    + destruct (Hes _ _ Hassoc) as (child' & -> & Hk).
      destruct child as [| target|], child' as [| target'|]; try done; try apply IHc.
      simpl in Hk. subst target'.
      destruct (isNil rest && negb follow); [done|].
      destruct (String.eqb target ""); [done|]. apply IHf.
    + destruct rest; [|done]. simpl. intros [= <- <-] Hnew.
      pose proof Hnew as Hnew'. rewrite lookup_app, Hl' in Hnew'. simpl in Hnew'.
      destruct (assoc c es') as [child'|]; [|done]. simplify_eq. by rewrite Hnew.
Qed.

(** The absent entry that a path names is absent from a directory. *)
Lemma resolveFrom_missing fuel root follow cur comps p x :
  resolveFrom fuel root follow cur comps = RMissing p x →
  (∃ w es, lookup root p = Some (Dir w es)) ∧ lookup root (p ++ [x]) = None.
Proof.
  revert cur comps. induction fuel as [|fuel IHf]; intros cur comps;
    revert cur; induction comps as [|c rest IHc]; intros cur; simpl.
  - by destruct (lookup root cur).
  - destruct (lookup root cur) as [[| |w es]|] eqn:Hl; try done.
    destruct (String.eqb c "" || String.eqb c "."); [apply IHc|].
    destruct (String.eqb c ".."); [apply IHc|].
    destruct (assoc c es) as [[| target|]|] eqn:Hassoc; try apply IHc.
    + destruct (isNil rest && negb follow); [done|]. by destruct (String.eqb target "").
    + destruct (isNil rest); [|done]. intros [= <- <-]. split; [by eauto|].
      rewrite lookup_app, Hl. simpl. by rewrite Hassoc.
  - by destruct (lookup root cur).
  - destruct (lookup root cur) as [[| |w es]|] eqn:Hl; try done.
    destruct (String.eqb c "" || String.eqb c "."); [apply IHc|].
    destruct (String.eqb c ".."); [apply IHc|].
    destruct (assoc c es) as [[| target|]|] eqn:Hassoc; try apply IHc.
    + destruct (isNil rest && negb follow); [done|].
      destruct (String.eqb target ""); [done|]. apply IHf.
    + destruct (isNil rest); [|done]. intros [= <- <-]. split; [by eauto|].
      rewrite lookup_app, Hl. simpl. by rewrite Hassoc.
Qed.

(** Putting a node at a place that holds no directory leaves the
    files at the other places as they are. *)
Lemma lookup_setAt_ne root l l' v mode data :
  l ≠ l' →
  lookup root l' = Some (File mode data) →
  (∀ w es, lookup root l ≠ Some (Dir w es)) →
  lookup (setAt root l (Some v)) l' = Some (File mode data).
Proof.
  revert root l'. induction l as [|x l IH]; intros root l' Hne Hl' Hnd.
  - destruct l' as [|y l']; [done|]. destruct root as [| |w es]; [done..|].
    by destruct (Hnd w es).
  - destruct root as [| |w es]; [done..|]. destruct l' as [|y l']; [done|].
    simpl in Hl'. destruct l as [|z l].
    + simpl. rewrite assoc_putEntry. destruct (String.eqb_spec x y) as [->|Hxy]; [|done].
      destruct (assoc y es) as [[| |w' es']|] eqn:Hassoc; try done.
      * destruct l'; [done|]. done.
      * destruct l'; done.
      * destruct (Hnd w' es'). simpl. by rewrite Hassoc.
    + change (setAt (Dir w es) (x :: z :: l) (Some v))
        with (match assoc x es with
              | Some c => Dir w (putEntry x (setAt c (z :: l) (Some v)) es)
              | None => Dir w es
              end).
      destruct (assoc x es) as [c|] eqn:Hassoc; [|done].
      simpl. rewrite assoc_putEntry. destruct (String.eqb_spec x y) as [->|Hxy]; [|done].
      rewrite Hassoc in Hl'. apply IH; [congruence|done|].
      intros w' es' Hc. apply (Hnd w' es'). simpl. by rewrite Hassoc.
Qed.

Lemma namei_grows root root' follow path l n :
  grows root root' → namei root follow path = RFound l n →
  ∃ n', namei root' follow path = RFound l n' ∧ lookup root' l = Some n' ∧ sameKind n n'.
Proof.
  unfold namei. intros Hg. destruct (String.eqb path ""); [done|]. intros Hr.
  destruct (resolveFrom_grows _ _ _ _ _ _ _ _ Hg Hr) as (n' & Hr' & Hk).
  exists n'. split_and!; [done| |done]. by eapply resolveFrom_lookup.
Qed.

(** os.Create: the path names the created or truncated file
    afterwards, and every other place is as it was. *)
Lemma Create_spec root path root1 l :
  Create root path = Ok (root1, l) →
  ∃ mode, root1 = setAt root l (Some (File mode ""))
          ∧ grows root root1
          ∧ lookup root1 l = Some (File mode "")
          ∧ namei root1 true path = RFound l (File mode "")
          ∧ ∀ w es, lookup root l ≠ Some (Dir w es).
Proof.
  unfold Create. destruct (namei root true path) as [l0 [mode data| |]|p x|] eqn:Hn; try done.
  - intros [= <- <-]. exists mode. pose proof (namei_lookup _ _ _ _ _ Hn) as Hl.
    assert (grows root (setAt root l0 (Some (File mode "")))) as Hg.
    { apply grows_setAt. by rewrite Hl. }
    split_and!; [done|done|by eapply lookup_setAt_old| |by rewrite Hl].
    destruct (namei_grows _ _ _ _ _ _ Hg Hn) as (n' & -> & Hl' & _).
    erewrite lookup_setAt_old in Hl' by done. by simplify_eq.
  - destruct (parentWritable root (p ++ [x])); [|done]. intros [= <- <-]. exists 420%N.
    unfold namei in *. destruct (String.eqb path ""); [done|].
    destruct (resolveFrom_missing _ _ _ _ _ _ _ Hn) as [(w & es & Hp) Hx].
    assert (grows root (setAt root (p ++ [x]) (Some (File 420 "")))) as Hg.
    { apply grows_setAt. by rewrite Hx. }
    split_and!; [done|done|by eapply lookup_setAt_new| |by rewrite Hx].
    eapply resolveFrom_created; [done..|]. by eapply lookup_setAt_new.
Qed.

(** copyFile is a byte copy: when it succeeds, the source path and
    the target path name regular files with the same content and the
    same permission bits. *)
Lemma copyFile_copies root src dst root' :
  copyFile root src dst = (root', None) →
  ∃ mode data,
    Stat root' src = Ok (File mode data) ∧ Stat root' dst = Ok (File mode data)
    ∧ (ReadFile root src = Ok data ∨ data = "").
Proof.
  unfold copyFile, Open.
  destruct (namei root true src) as [ls ns| |] eqn:Hsrc; try done.
  destruct (Create root dst) as [[root1 ld]|] eqn:Hcreate; [|done].
  destruct (Create_spec _ _ _ _ Hcreate) as (m0 & Hroot1 & Hg1 & Hld1 & Hdst1 & Hnd).
  unfold readAt. destruct (lookup root1 ls) as [[ms data| |]|] eqn:Hls1; try done.
  unfold writeAt. rewrite Hld1.
  set (root2 := setAt root1 ld (Some (File m0 data))).
  assert (grows root1 root2) as Hg2. { apply grows_setAt. by rewrite Hld1. }
  assert (lookup root2 ld = Some (File m0 data)) as Hld2 by by eapply lookup_setAt_old.
  assert (lookup root2 ls = Some (File ms data)) as Hls2.
  { destruct (decide (ld = ls)) as [->|Hne].
    - rewrite Hld2. congruence.
    - apply lookup_setAt_ne; [done|done|]. intros w es. by rewrite Hld1. }
  destruct (namei_grows _ _ _ _ _ _ Hg1 Hsrc) as (ns1 & Hsrc1 & _ & _).
  destruct (namei_grows _ _ _ _ _ _ Hg2 Hsrc1) as (ns2 & Hsrc2 & Hns2 & _).
  destruct (namei_grows _ _ _ _ _ _ Hg2 Hdst1) as (nd2 & Hdst2 & Hnd2 & _).
  rewrite Hls2 in Hns2. rewrite Hld2 in Hnd2. simplify_eq.
  unfold Stat at 1, statWith. rewrite Hsrc2. simpl.
  unfold Chmod. rewrite Hdst2. intros [= <-].
  set (root3 := setAt root2 ld (Some (File ms data))).
  assert (grows root2 root3) as Hg3. { apply grows_setAt. by rewrite Hld2. }
  assert (lookup root3 ld = Some (File ms data)) as Hld3 by by eapply lookup_setAt_old.
  assert (lookup root3 ls = Some (File ms data)) as Hls3.
  { destruct (decide (ld = ls)) as [->|Hne]; [done|].
    apply lookup_setAt_ne; [done|done|]. intros w es. by rewrite Hld2. }
  destruct (namei_grows _ _ _ _ _ _ Hg3 Hsrc2) as (ns3 & Hsrc3 & Hns3 & _).
  destruct (namei_grows _ _ _ _ _ _ Hg3 Hdst2) as (nd3 & Hdst3 & Hnd3 & _).
  rewrite Hls3 in Hns3. rewrite Hld3 in Hnd3. simplify_eq.
  exists ms, data. unfold Stat, statWith. rewrite Hsrc3, Hdst3. split_and!; [done..|].
  unfold ReadFile, Open, readAt. rewrite Hsrc.
  destruct (decide (ld = ls)) as [->|Hne].
  - right. congruence.
  - left. pose proof (namei_lookup _ _ _ _ _ Hsrc) as Hls.
    destruct ns as [ms0 data0| |].
    + erewrite lookup_setAt_ne in Hls1; [|done|done|done]. rewrite Hls. by simplify_eq.
    + destruct (Hg1 _ _ Hls) as (n' & Hn' & Hk). rewrite Hls1 in Hn'. by simplify_eq.
    + destruct (Hg1 _ _ Hls) as (n' & Hn' & Hk). rewrite Hls1 in Hn'. by simplify_eq.
Qed.



End Copies.

(** ** Clean after clean *)

Section CleanTwice.
Import OS TreeSpec Config CleanOrder Clean.

Lemma cleanCmd_Removed_inv w n w1 :
  cleanCmd w = (Removed n, w1) →
  ∃ st v root',
    LoadState w = Ok st
    ∧ processPaths (managedPaths st) (sortedPaths st) (mkLoop (fs w) st 0) = (v, false)
    ∧ removeEmptyDirs (root v) "overlay" = (root', None)
    ∧ n = removed v
    ∧ w1 = mkWorld root' (StateStored (mkState [])) true.
Proof.
  unfold cleanCmd.
  destruct (match Stat (fs w) "overlay" with Ok _ => false | Err e => IsNotExist e end);
    [done|].
  destruct (LoadState w) as [st|e]; [|done].
  destruct (processPaths _ _ _) as [v [|]] eqn:Hrun; [done|].
  destruct (removeEmptyDirs _ _) as [root' [e|]] eqn:Hprune; [done|].
  unfold SaveState. simpl. destruct (stateWritable w); [|done].
  intros [= <- <-]. exists st, v, root'. split_and!; [done..|].
  f_equal. f_equal. apply dropAll_managedPaths.
  by apply (processPaths_state _ _ _ _ _ Hrun).
Qed.

Lemma removeEmptyDirsNode_overlay pw n err :
  removeEmptyDirsNode "overlay" pw n ≠ (None, err).
Proof.
  destruct n as [| |w es]; [done..|]. rewrite removeEmptyDirsNode_Dir.
  destruct (removeEmptySubdirs "overlay" w es) as [es' [e|]]; [done|].
  change (String.eqb "overlay" "overlay") with true. by rewrite andb_false_r.
Qed.

Lemma removeEmptyDirs_overlay_inv root root' :
  overlayNotLink root →
  removeEmptyDirs root "overlay" = (root', None) →
  ∃ rw res w es es',
    root = Dir rw res
    ∧ assoc "overlay" res = Some (Dir w es)
    ∧ removeEmptyDirsNode "overlay" rw (Dir w es) = (Some (Dir w es'), None)
    ∧ root' = Dir rw (replaceEntry "overlay" (Dir w es') res).
Proof.
  intros HQ. unfold removeEmptyDirs.
  destruct (namei root true "overlay") as [l n| |] eqn:Hnamei; [|done..].
  destruct (namei_overlay _ _ _ HQ Hnamei) as [-> Hlookup].
  destruct root as [| |rw res]; [done..|]. cbn [lookup] in Hlookup.
  destruct (assoc "overlay" res) as [c|] eqn:Hassoc; [|done]. simplify_eq.
  change (parentWritable (Dir rw res) ["overlay"]) with rw.
  destruct (removeEmptyDirsNode "overlay" rw n) as [[n'|] err] eqn:Hprune;
    [|by apply removeEmptyDirsNode_overlay in Hprune].
  intros [= <- ->].
  destruct (removeEmptyDirsNode_ok_inv _ _ _ _ Hprune) as (w & es & es' & -> & -> & _).
  exists rw, res, w, es, es'. split_and!; [done..|].
  cbn [setAt]. by rewrite (putEntry_replace _ _ _ _ Hassoc).
Qed.

Lemma replaceEntry_again x v es :
  replaceEntry x v (replaceEntry x v es) = replaceEntry x v es.
Proof.
  induction es as [|[y c] r IH]; [done|]. simpl.
  destruct (String.eqb_spec y x) as [->|Hne]; simpl.
  - by rewrite String.eqb_refl.
  - apply String.eqb_neq in Hne as ->. by rewrite IH.
Qed.

(** C6.  When the entry "overlay" of the working directory is no
    symbolic link and clean succeeds, a second clean right after it
    succeeds, reports that it removed nothing, and leaves the file
    system and the state file, which holds the empty registry, as the
    first clean left them. *)
Theorem clean_twice_is_idempotent :
  ∀ (w w1 : World) (n : nat),
    overlayNotLink (fs w) →
    cleanCmd w = (Removed n, w1) →
    cleanCmd w1 = (Removed 0, w1)
    ∧ stateFile w1 = StateStored (mkState []).
Proof.
  intros w w1 n HQ Hclean.
  apply cleanCmd_Removed_inv in Hclean as (st & v & root' & Hload & Hrun & Hprune & -> & ->).
  split; [|done].
  assert (overlayNotLink (root v)) as HQv
      by (by apply (processPaths_overlayNotLink _ _ _ _ _ Hrun)).
  destruct (removeEmptyDirs_overlay_inv _ _ HQv Hprune)
    as (rw & res & wo & es & es' & Hroot & Hassoc & Hnode & ->).
  assert (lookup (Dir rw (replaceEntry "overlay" (Dir wo es') res)) ["overlay"]
          = Some (Dir wo es')) as Hlookup.
  { cbn [lookup]. rewrite (assoc_replaceEntry _ _ _ _ _ Hassoc). done. }
  unfold cleanCmd. cbn [fs].
  unfold Stat, statWith. rewrite (namei_overlay_Dir _ _ _ _ Hlookup).
  unfold LoadState. cbn [stateFile].
  change (managedPaths (mkState [])) with (∅ : gset string).
  unfold sortedPaths.
  change (managedPaths (mkState [])) with (∅ : gset string).
  rewrite elements_empty. cbn [sortSlice foldr processPaths dropAll fold_left root state].
  unfold removeEmptyDirs. rewrite (namei_overlay_Dir _ _ _ _ Hlookup).
  rewrite (removeEmptyDirsNode_again _ _ _ _ Hnode).
  cbn [setAt]. unfold putEntry.
  rewrite (assoc_replaceEntry _ _ _ _ _ Hassoc), String.eqb_refl, replaceEntry_again.
  unfold SaveState. cbn [stateWritable fs removed]. done.
Qed.

Lemma clean_twice_is_idempotent_witness :
  cleanCmd (cleanCmd nestedWorld).2 = (Removed 0, (cleanCmd nestedWorld).2)
  ∧ stateFile (cleanCmd nestedWorld).2 = StateStored (mkState []).
Proof.
  apply (clean_twice_is_idempotent nestedWorld (cleanCmd nestedWorld).2 2).
  - intros target. vm_compute. discriminate.
  - vm_compute. reflexivity.
Defined.

End CleanTwice.

(** ** What clean leaves of the tree *)

Section CleanLeaves.
Import OS TreeSpec PathSpec Config CleanOrder Clean.




Lemma processPath_shrinks managedPaths relPath v v' :
  processPath managedPaths relPath v = Some v' → shrinks (root v) (root v').
Proof.
  unfold processPath.
  destruct (Lstat (root v) _) as [info|e].
  - destruct (negb (IsDir info)).
    + destruct (Remove (root v) _) eqn:Hr; intros [= <-]; [|apply shrinks_refl].
      by eapply Remove_shrinks.
    + destruct (isFullyManaged (root v) _ managedPaths);
        [|intros [= <-]; apply shrinks_refl].
      destruct (RemoveAll (root v) _) as [root' [e|]] eqn:Hr; intros [= <-];
        by eapply RemoveAll_shrinks.
  - destruct (IsNotExist e); [|done]. intros [= <-]. apply shrinks_refl.
Qed.

Lemma processPaths_shrinks managedPaths paths v v' panicked :
  processPaths managedPaths paths v = (v', panicked) → shrinks (root v) (root v').
Proof.
  revert v. induction paths as [|p paths IH]; intros v; simpl.
  - intros [= <- <-]. apply shrinks_refl.
  - destruct (processPath managedPaths p v) as [v1|] eqn:Hstep;
      [|intros [= <- <-]; apply shrinks_refl].
    intros Hrun. eapply shrinks_trans; [by eapply processPath_shrinks|by apply IH].
Qed.

Lemma removeEmptyDirs_shrinks root dir root' err :
  removeEmptyDirs root dir = (root', err) → shrinks root root'.
Proof.
  unfold removeEmptyDirs.
  destruct (namei root true dir) as [l n| |e] eqn:Hnamei;
    [|intros [= <- <-]; apply shrinks_refl..].
  destruct (removeEmptyDirsNode dir _ n) as [[n'|] err'] eqn:Hprune; intros [= <- <-].
  - eapply shrinks_setAt_Some; [by eapply namei_lookup|].
    by eapply removeEmptyDirsNode_shrinks.
  - apply shrinks_setAt_None.
Qed.

(** clean only deletes. *)
Lemma cleanCmd_shrinks w out w' : cleanCmd w = (out, w') → shrinks (fs w) (fs w').
Proof.
  unfold cleanCmd.
  destruct (match Stat (fs w) "overlay" with Ok _ => false | Err e => IsNotExist e end);
    [intros [= <- <-]; apply shrinks_refl|].
  destruct (LoadState w) as [st|e]; [|intros [= <- <-]; apply shrinks_refl].
  destruct (processPaths _ _ _) as [v panicked] eqn:Hrun.
  pose proof (processPaths_shrinks _ _ _ _ _ Hrun) as Hv. simpl in Hv.
  destruct panicked; [by intros [= <- <-]|].
  destruct (removeEmptyDirs _ _) as [root' err] eqn:Hprune.
  pose proof (removeEmptyDirs_shrinks _ _ _ _ Hprune) as Hp.
  assert (shrinks (fs w) root') as Hall by (by eapply shrinks_trans).
  destruct err as [e|]; [by intros [= <- <-]|].
  unfold SaveState. simpl. by destruct (stateWritable w); intros [= <- <-].
Qed.





End CleanLeaves.

(** ** Materialize, then clean *)

Section RoundTrip.
Import OS TreeSpec PathSpec Config CleanOrder Clean.








End RoundTrip.

(** ** The state store: how the operations compose *)

Section RegistryAlgebra.
Import Config.

Lemma findManaged_filter_ne files path q :
  q ≠ path →
  findManaged (filter (λ f, Path f ≠ path) files) q = findManaged files q.
Proof.
  intros Hq. induction files as [|f r IH]; [done|].
  destruct (decide (Path f = path)) as [Hf|Hf].
  - rewrite filter_cons_False by tauto. simpl.
    destruct (String.eqb_spec (Path f) q); [congruence|done].
  - rewrite filter_cons_True by done. simpl. by rewrite IH.
Qed.

Lemma findManaged_filter_eq files path :
  findManaged (filter (λ f, Path f ≠ path) files) path = None.
Proof.
  induction files as [|f r IH]; [done|].
  destruct (decide (Path f = path)) as [Hf|Hf].
  - by rewrite filter_cons_False by tauto.
  - rewrite filter_cons_True by done. simpl.
    by destruct (String.eqb_spec (Path f) path).
Qed.

Lemma findManaged_app files1 files2 path :
  findManaged (files1 ++ files2) path
  = match findManaged files1 path with
    | Some f => Some f
    | None => findManaged files2 path
    end.
Proof.
  induction files1 as [|f r IH]; [done|]. simpl.
  by destruct (String.eqb (Path f) path).
Qed.

Lemma State_eq s s' : ManagedFiles s = ManagedFiles s' → s = s'.
Proof. destruct s, s'. simpl. by intros ->. Qed.

(** X1.  RemoveManagedFile: the loop that deletes in place while it runs
    backwards over the indices removes every entry of the path,
    however many there are, and keeps the other entries in their
    order; the path is not managed afterwards and the other paths are
    found as before. *)
Theorem RemoveManagedFile_removes_the_path :
  ∀ (s : State) (path : string),
    ManagedFiles (RemoveManagedFile s path)
    = filter (λ f, Path f ≠ path) (ManagedFiles s)
    ∧ IsManagedFile (RemoveManagedFile s path) path = None
    ∧ (∀ q, q ≠ path →
            IsManagedFile (RemoveManagedFile s path) q = IsManagedFile s q).
Proof.
  intros s path. pose proof (RemoveManagedFile_filter s path) as Hfilter.
  split_and!; [done| |].
  - unfold IsManagedFile. rewrite Hfilter. apply findManaged_filter_eq.
  - intros q Hq. unfold IsManagedFile. rewrite Hfilter. by apply findManaged_filter_ne.
Qed.

(** X2.  AddManagedFile puts the new entry last, leaves the entries of the
    other paths where they are, and grows the list by at most one
    entry. *)
Theorem AddManagedFile_keeps_other_paths :
  ∀ (s : State) (path linkMode source : string),
    let s' := AddManagedFile s path linkMode source in
    last (ManagedFiles s') = Some (mkManagedFile path linkMode source)
    ∧ (∀ q, q ≠ path → IsManagedFile s' q = IsManagedFile s q)
    ∧ filter (λ f, Path f ≠ path) (ManagedFiles s')
      = filter (λ f, Path f ≠ path) (ManagedFiles s)
    ∧ length (ManagedFiles s') ≤ S (length (ManagedFiles s)).
Proof.
  intros s path linkMode source s'. subst s'.
  rewrite AddManagedFile_filter. split_and!.
  - by rewrite last_snoc.
  - intros q Hq. unfold IsManagedFile. rewrite AddManagedFile_filter, findManaged_app.
    rewrite findManaged_filter_ne by done.
    destruct (findManaged (ManagedFiles s) q); [done|]. simpl.
    destruct (String.eqb_spec path q); [congruence|done].
  - rewrite filter_app, filter_cons_False by (simpl; tauto).
    rewrite filter_nil, app_nil_r. apply list_filter_filter_l. tauto.
  - rewrite length_app. simpl. pose proof (length_filter (λ f, Path f ≠ path) (ManagedFiles s)).
    lia.
Qed.

(** X3.  How the two operations compose: an upsert followed by a remove of
    the same path is the remove; a remove is idempotent; of two
    upserts of one path the later one wins; removes of two paths
    commute. *)
Theorem registry_operations_compose :
  ∀ (s : State) (p q lm src lm' src' : string),
    RemoveManagedFile (AddManagedFile s p lm src) p = RemoveManagedFile s p
    ∧ RemoveManagedFile (RemoveManagedFile s p) p = RemoveManagedFile s p
    ∧ AddManagedFile (AddManagedFile s p lm src) p lm' src' = AddManagedFile s p lm' src'
    ∧ RemoveManagedFile (RemoveManagedFile s p) q = RemoveManagedFile (RemoveManagedFile s q) p.
Proof.
  intros s p q lm src lm' src'.
  assert (∀ files : list ManagedFile, filter (λ f, Path f ≠ p) (filter (λ f, Path f ≠ p) files)
                   = filter (λ f, Path f ≠ p) files) as Hidem.
  { intros files. apply list_filter_filter_l. tauto. }
  split_and!; apply State_eq.
  - rewrite !RemoveManagedFile_filter, AddManagedFile_filter, filter_app.
    rewrite filter_cons_False by (simpl; tauto). by rewrite filter_nil, app_nil_r, Hidem.
  - by rewrite !RemoveManagedFile_filter, Hidem.
  - rewrite !AddManagedFile_filter, filter_app.
    rewrite filter_cons_False by (simpl; tauto). by rewrite filter_nil, app_nil_r, Hidem.
  - rewrite !RemoveManagedFile_filter, !list_filter_filter. apply list_filter_iff. tauto.
Qed.

End RegistryAlgebra.

Section EntriesInDirEdge.
Import Config.

(** X4.  GetManagedFilesInDir compares the cleaned parent of each path with
    the argument as it is given: for an argument that is not in
    cleaned form (a trailing separator, a "./" prefix, the empty
    string) no parent ever matches, and only the entries whose path is
    the argument itself are returned. *)
Theorem GetManagedFilesInDir_unclean_dir :
  ∀ (s : State) (dir : string),
    Filepath.Clean dir ≠ dir →
    GetManagedFilesInDir s dir = filter (λ f, Path f = dir) (ManagedFiles s).
Proof.
  intros s dir Hdir. unfold GetManagedFilesInDir.
  induction (ManagedFiles s) as [|f r IH]; [done|]. simpl.
  assert (String.eqb (Filepath.Dir (Path f)) dir = false) as ->.
  { apply String.eqb_neq. intros Heq. apply Hdir. rewrite <- Heq.
    unfold Filepath.Dir. apply Clean_idempotent. }
  simpl. destruct (String.eqb_spec (Path f) dir) as [Heq|Hne].
  - rewrite filter_cons_True by done. by rewrite IH.
  - rewrite filter_cons_False by done. done.
Qed.

Lemma GetManagedFilesInDir_unclean_dir_witness :
  GetManagedFilesInDir
    (mkState [mkManagedFile "sub/x.txt" "symlink" "x.txt";
              mkManagedFile "sub/" "copy" "sub"]) "sub/"
  = [mkManagedFile "sub/" "copy" "sub"].
Proof.
  rewrite GetManagedFilesInDir_unclean_dir; [reflexivity|].
  vm_compute. discriminate.
Defined.

End EntriesInDirEdge.

Section ComparatorOrder.
Import Config CleanOrder.

(** X5.  The comparison that clean passes to sort.Slice is a strict total
    order on paths, so the sorted slice does not depend on the order
    in which the keys of the map of managed paths are met. *)
Theorem clean_order_is_total :
  (∀ a, less a a = false)
  ∧ (∀ a b, less a b = true → less b a = false)
  ∧ (∀ a b c, less a b = true → less b c = true → less a c = true)
  ∧ (∀ a b, a ≠ b → less a b = true ∨ less b a = true)
  ∧ (∀ (s : State) (keys : list string),
       keys ≡ₚ elements (managedPaths s) → sortSlice keys = sortedPaths s).
Proof.
  split_and!.
  - apply less_irrefl.
  - apply less_asym.
  - apply less_trans.
  - apply less_total.
  - intros s keys Hperm. unfold sortedPaths.
    assert (NoDup keys) as Hnodup by (rewrite Hperm; apply NoDup_elements).
    apply (StronglySorted_unique_strong (λ a b, less a b = true)).
    + intros x1 x2 _ _ H12 H21. by rewrite (less_asym _ _ H12) in H21.
    + by apply sortSlice_sorted.
    + apply sortSlice_sorted, NoDup_elements.
    + by rewrite !sortSlice_Permutation.
Qed.

End ComparatorOrder.

(** ** What clean keeps *)

Section Leaves.
Import OS TreeSpec Config CleanOrder Clean.

(** The node below a place that holds something is found through a
    directory. *)
Lemma lookup_prefix_Dir root l x r n :
  lookup root (l ++ x :: r) = Some n → ∃ w es, lookup root l = Some (Dir w es).
Proof.
  rewrite lookup_app. destruct (lookup root l) as [[| |w es]|]; try done. by eauto.
Qed.

Lemma lookup_prefix_Some root l r n :
  lookup root (l ++ r) = Some n → ∃ m, lookup root l = Some m.
Proof. rewrite lookup_app. destruct (lookup root l); [by eauto|done]. Qed.

(** Setting or removing the node at one place leaves the places
    beside it as they are. *)
Lemma lookup_setAt_beside root l0 v l :
  ¬ l0 `prefix_of` l → ¬ l `prefix_of` l0 →
  lookup (setAt root l0 v) l = lookup root l.
Proof.
  revert root l. induction l0 as [|x r0 IH]; intros root l H1 H2.
  - destruct H1. apply prefix_nil.
  - destruct l as [|y r]; [destruct H2; apply prefix_nil|].
    destruct root as [| |w es]; [done..|].
    destruct r0 as [|z r0].
    + assert (x ≠ y) as Hxy.
      { intros ->. apply H1. by apply prefix_cons, prefix_nil. }
      destruct v as [v|]; simpl.
      * by rewrite assoc_putEntry_ne.
      * rewrite assoc_delEntry. by destruct (String.eqb_spec x y).
    + change (setAt (Dir w es) (x :: z :: r0) v)
        with (match assoc x es with
              | Some c => Dir w (putEntry x (setAt c (z :: r0) v) es)
              | None => Dir w es
              end).
      destruct (assoc x es) as [c|] eqn:Hassoc; [|done]. simpl.
      rewrite assoc_putEntry. destruct (String.eqb_spec x y) as [->|Hxy]; [|done].
      rewrite Hassoc. apply IH.
      * intros Hp. apply H1. by apply prefix_cons.
      * intros Hp. apply H2. by apply prefix_cons.
Qed.

Lemma lookup_setAt_below root l0 n0 v l :
  lookup root l0 = Some n0 →
  lookup (setAt root l0 (Some v)) (l0 ++ l) = lookup v l.
Proof.
  intros Hl0. rewrite lookup_app. by erewrite lookup_setAt_old.
Qed.

(** The files and links of a directory stay where they are when its
    empty directories are pruned; a directory that holds a file or a
    link somewhere below it is not removed. *)
Lemma removeEmptyDirsNode_leaves n :
  ∀ dir pw r err l leaf,
    removeEmptyDirsNode dir pw n = (r, err) →
    lookup n l = Some leaf → IsDir leaf = false →
    ∃ n', r = Some n' ∧ lookup n' l = Some leaf.
Proof.
  induction n as [mode data|target|w es IH] using node_ind'.
  - intros dir pw r err l leaf [= <- <-] Hl _. by eauto.
  - intros dir pw r err l leaf [= <- <-] Hl _. by eauto.
  - intros dir pw r err l leaf Hrun Hl Hleaf.
    destruct l as [|x l]; [simpl in Hl; by injection Hl as <-|].
    rewrite removeEmptyDirsNode_Dir in Hrun.
    destruct (removeEmptySubdirs dir w es) as [es' err'] eqn:Hsub.
    assert (∃ c', assoc x es' = Some c' ∧ lookup c' l = Some leaf) as (c' & Hc' & Hleaf').
    { clear Hrun. simpl in Hl. revert es' err' Hsub Hl.
      induction es as [|[y c] rest IHrest]; intros es' err' Hsub Hl; [done|].
      apply Forall_cons in IH as [IHc IH]. simpl in IHc.
      rewrite removeEmptySubdirs_cons in Hsub. simpl in Hl.
      destruct (String.eqb_spec y x) as [->|Hyx].
      - destruct (IsDir c) eqn:Hdir.
        + destruct (removeEmptyDirsNode (Filepath.Join [dir; x]) w c) as [r1 e1] eqn:Hc.
          destruct (IHc _ _ _ _ _ _ Hc Hl Hleaf) as (c1 & -> & Hc1).
          exists c1. destruct e1 as [e1|].
          * simplify_eq. simpl. by rewrite String.eqb_refl.
          * destruct (removeEmptySubdirs dir w rest) as [rest' e2]. simplify_eq.
            simpl. by rewrite String.eqb_refl.
        + destruct (removeEmptySubdirs dir w rest) as [rest' e2]. simplify_eq.
          exists c. simpl. by rewrite String.eqb_refl.
      - assert (∀ rest' e2, removeEmptySubdirs dir w rest = (rest', e2) →
                  ∃ c', assoc x rest' = Some c' ∧ lookup c' l = Some leaf) as Hrest.
        { intros rest' e2 Hr. by eapply IHrest. }
        assert (∃ c', assoc x rest = Some c' ∧ lookup c' l = Some leaf) as Hkeep.
        { destruct (assoc x rest) as [c0|]; [by eauto|done]. }
        destruct (IsDir c).
        + destruct (removeEmptyDirsNode (Filepath.Join [dir; y]) w c) as [[c1|] [e1|]].
          * simplify_eq. simpl. by destruct (String.eqb_spec y x).
          * destruct (removeEmptySubdirs dir w rest) as [rest' e2] eqn:Hr. simplify_eq.
            simpl. destruct (String.eqb_spec y x); [done|]. by eapply Hrest.
          * by simplify_eq.
          * by eapply Hrest.
        + destruct (removeEmptySubdirs dir w rest) as [rest' e2] eqn:Hr. simplify_eq.
          simpl. destruct (String.eqb_spec y x); [done|]. by eapply Hrest. }
    assert (isNil es' = false) as Hnil by (by destruct es').
    rewrite Hnil in Hrun. simpl in Hrun.
    destruct err' as [e|]; simplify_eq; eexists; (split; [done|]); simpl; by rewrite Hc'.
Qed.

Lemma removeEmptyDirs_leaves root dir root' err l leaf :
  removeEmptyDirs root dir = (root', err) →
  lookup root l = Some leaf → IsDir leaf = false →
  lookup root' l = Some leaf.
Proof.
  unfold removeEmptyDirs.
  destruct (namei root true dir) as [l0 n0| |] eqn:Hn; [|by intros [= <- <-]..].
  pose proof (namei_lookup _ _ _ _ _ Hn) as Hl0.
  destruct (removeEmptyDirsNode dir (parentWritable root l0) n0) as [r e] eqn:Hrun.
  intros [= <- <-] Hl Hleaf.
  destruct (decide (l0 `prefix_of` l)) as [[k ->]|Hnp].
  - rewrite lookup_app, Hl0 in Hl. simpl in Hl.
    destruct (removeEmptyDirsNode_leaves _ _ _ _ _ _ _ Hrun Hl Hleaf) as (n' & -> & Hn').
    by erewrite lookup_setAt_below.
  - rewrite lookup_setAt_beside; [done|done|].
    intros [k ->]. destruct k as [|x k].
    + apply Hnp. by rewrite app_nil_r.
    + destruct (lookup_prefix_Dir _ _ _ _ _ Hl0) as (w & es & Hdir).
      rewrite Hdir in Hl. by simplify_eq.
Qed.

End Leaves.

Section CleanKeeps.
Import OS TreeSpec Config CleanOrder Clean.

(** X6.  removeEmptyDirs removes empty directories only: every file and
    every symbolic link of the tree is where it was, with its content,
    whether removeEmptyDirs succeeds or fails. *)
Theorem removeEmptyDirs_keeps_files_and_links :
  ∀ (root : node) (dir : string) (root' : node) (err : option error)
    (l : loc) (leaf : node),
    removeEmptyDirs root dir = (root', err) →
    lookup root l = Some leaf → IsDir leaf = false →
    lookup root' l = Some leaf.
Proof. intros. by eapply removeEmptyDirs_leaves. Qed.

Lemma removeEmptyDirs_keeps_files_and_links_witness :
  lookup (removeEmptyDirs (fs nestedWorld) "overlay").1 ["overlay"; "dir"; "keep"; "custom.txt"]
  = Some (file "custom").
Proof.
  apply (removeEmptyDirs_keeps_files_and_links (fs nestedWorld) "overlay"
           (removeEmptyDirs (fs nestedWorld) "overlay").1
           (removeEmptyDirs (fs nestedWorld) "overlay").2).
  - vm_compute. reflexivity.
  - vm_compute. reflexivity.
  - reflexivity.
Defined.

(** X7.  With an empty registry (no state file, or one without entries)
    clean deletes no file and no link: it reports zero removals or
    fails, and all it may remove are empty directories. *)
Theorem clean_without_registry_keeps_files :
  ∀ (w w' : World) (out : outcome),
    LoadState w = Ok (mkState []) →
    cleanCmd w = (out, w') →
    (out = Removed 0 ∨ ∃ e, out = Failed e)
    ∧ ∀ l leaf, lookup (fs w) l = Some leaf → IsDir leaf = false →
                lookup (fs w') l = Some leaf.
Proof.
  intros w w' out Hload. unfold cleanCmd. rewrite Hload.
  destruct (match Stat (fs w) "overlay" with Ok _ => false | Err e => IsNotExist e end).
  { intros [= <- <-]. by eauto. }
  assert (sortedPaths (mkState []) = []) as -> by reflexivity.
  cbn [processPaths removed root Clean.state].
  destruct (removeEmptyDirs (fs w) "overlay") as [root' [e|]] eqn:Hprune.
  - intros [= <- <-]. split; [by eauto|]. intros l leaf Hl Hleaf. simpl.
    by eapply removeEmptyDirs_leaves.
  - unfold SaveState. simpl. destruct (stateWritable w); intros [= <- <-].
    + split; [by left|]. intros l leaf Hl Hleaf. simpl. by eapply removeEmptyDirs_leaves.
    + split; [by eauto|]. intros l leaf Hl Hleaf. simpl. by eapply removeEmptyDirs_leaves.
Qed.

Lemma clean_without_registry_keeps_files_witness :
  (cleanCmd libraryWorld).1 = Removed 0
  ∧ lookup (fs (cleanCmd libraryWorld).2) [".upstream"; "src"; "lib"; "x.txt"]
    = Some (file "x").
Proof.
  destruct (clean_without_registry_keeps_files libraryWorld (cleanCmd libraryWorld).2
              (cleanCmd libraryWorld).1) as [Hout Hkeep].
  - reflexivity.
  - vm_compute. reflexivity.
  - split; [vm_compute; reflexivity|]. apply Hkeep; reflexivity.
Defined.

(** X8.  Whatever the outcome of clean (removals reported, an error, the
    run-time panic), the tree it leaves is the tree it found with
    entries deleted: clean creates nothing and changes no file and no
    link; unless it succeeds, the state file is left as it was. *)
Theorem clean_only_deletes :
  ∀ (w : World),
    let r := cleanCmd w in
    shrinks (fs w) (fs r.2)
    ∧ stateWritable r.2 = stateWritable w
    ∧ ((∀ n, r.1 ≠ Removed n) → stateFile r.2 = stateFile w).
Proof.
  intros w r. split; [by apply (cleanCmd_shrinks w r.1 r.2), surjective_pairing|].
  subst r. unfold cleanCmd.
  destruct (match Stat (fs w) "overlay" with Ok _ => false | Err e => IsNotExist e end);
    [done|].
  destruct (LoadState w) as [st|e]; [|done].
  destruct (processPaths _ _ _) as [v [|]]; [done|].
  destruct (removeEmptyDirs _ _) as [root' [e|]]; [done|].
  unfold SaveState. simpl. destruct (stateWritable w) eqn:Hw; simpl; [|done].
  split; [done|]. intros Hne. by destruct (Hne (removed v)).
Qed.

(** A path that names a node other than a link without following a
    link at its end names the same node when such a link is
    followed. *)
Lemma resolveFrom_follow fuel root cur comps l n :
  resolveFrom fuel root false cur comps = RFound l n →
  (∀ target, n ≠ Symlink target) →
  resolveFrom fuel root true cur comps = RFound l n.
Proof.
  intros Hr Hn. revert cur comps Hr. induction fuel as [|fuel IHf]; intros cur comps;
    revert cur; induction comps as [|c rest IHc]; intros cur; simpl; try done.
  - destruct (lookup root cur) as [[| |w es]|]; try done.
    destruct (String.eqb c "" || String.eqb c "."); [apply IHc|].
    destruct (String.eqb c ".."); [apply IHc|].
    destruct (assoc c es) as [[| target|]|]; try apply IHc; [|done].
    rewrite andb_false_r. destruct (isNil rest); simpl; [|done].
    intros [= <- <-]. by destruct (Hn target).
  - destruct (lookup root cur) as [[| |w es]|]; try done.
    destruct (String.eqb c "" || String.eqb c "."); [apply IHc|].
    destruct (String.eqb c ".."); [apply IHc|].
    destruct (assoc c es) as [[| target|]|]; try apply IHc; [|done].
    rewrite andb_false_r. destruct (isNil rest); simpl.
    + intros [= <- <-]. by destruct (Hn target).
    + destruct (String.eqb target ""); [done|]. apply IHf.
Qed.

Lemma Lstat_Dir_namei root path w es :
  Lstat root path = Ok (Dir w es) → ∃ l, namei root true path = RFound l (Dir w es).
Proof.
  unfold Lstat, statWith, namei. destruct (String.eqb path ""); [done|].
  destruct (resolveFrom MAXSYMLINKS root false [] (Strings.Split path "/"))
    as [l n| |] eqn:Hr; [|done..].
  intros [= ->]. exists l. by apply resolveFrom_follow.
Qed.

(** A directory with an entry that is not managed is not fully
    managed. *)
Lemma isFullyManagedNode_unmanaged path w es managedPaths name entry :
  (name, entry) ∈ es →
  (∀ rel, Filepath.Rel "overlay" (Filepath.Join [path; name]) = Some rel →
          rel ∉ managedPaths) →
  isFullyManagedNode path (Dir w es) managedPaths = false.
Proof.
  intros Hin Hrel. cbn [isFullyManagedNode].
  induction es as [|[y c] rest IH]; [by inversion Hin|].
  apply elem_of_cons in Hin as [[= <- <-]|Hin].
  - destruct (Filepath.Rel "overlay" (Filepath.Join [path; name])) as [rel|]; [|done].
    rewrite bool_decide_eq_false_2; [done|by apply Hrel].
  - destruct (Filepath.Rel "overlay" (Filepath.Join [path; y])) as [rel|]; [|done].
    destruct (bool_decide (rel ∈ managedPaths)); [|done].
    destruct (IsDir c); [|by apply IH].
    destruct (isFullyManagedNode (Filepath.Join [path; y]) c managedPaths); [by apply IH|done].
Qed.

(** X9.  Partial-directory preservation: a managed directory that holds an
    entry which is not itself a managed path is left alone by the loop
    of clean, with everything in it, and stays in the state until the
    final cleanup. *)
Theorem clean_keeps_partly_managed_directory :
  ∀ (managedPaths : gset string) (relPath : string) (v : Loop)
    (w : bool) (es : list (string * node)) (name : string) (entry : node),
    Lstat (root v) (Filepath.Join ["overlay"; relPath]) = Ok (Dir w es) →
    (name, entry) ∈ es →
    (∀ rel,
        Filepath.Rel "overlay" (Filepath.Join [Filepath.Join ["overlay"; relPath]; name])
        = Some rel →
        rel ∉ managedPaths) →
    processPath managedPaths relPath v = Some v.
Proof.
  intros managedPaths relPath v w es name entry Hlstat Hin Hrel.
  unfold processPath. rewrite Hlstat. cbn [IsDir negb].
  destruct (Lstat_Dir_namei _ _ _ _ Hlstat) as (l & Hn).
  unfold isFullyManaged. rewrite Hn.
  by rewrite (isFullyManagedNode_unmanaged _ _ _ _ _ _ Hin Hrel).
Qed.

Lemma clean_keeps_partly_managed_directory_witness :
  let v := mkLoop (fs nestedWorld)
             (mkState [mkManagedFile "dir" "symlink" "dir"]) 0 in
  processPath {["dir"; "dir/managed.txt"]} "dir" v = Some v.
Proof.
  intros v.
  apply (clean_keeps_partly_managed_directory _ "dir" v true
           [("empty", dir []);
            ("keep", dir [("custom.txt", file "custom")]);
            ("managed.txt", Symlink "../../.upstream/dir/managed.txt")]
           "keep" (dir [("custom.txt", file "custom")])).
  - vm_compute. reflexivity.
  - do 2 constructor.
  - intros rel Hrel. vm_compute in Hrel. injection Hrel as <-.
    intros Hin. apply elem_of_union in Hin as [Hin|Hin]; apply elem_of_singleton in Hin;
      discriminate.
Defined.

End CleanKeeps.

(** ** What clean removes *)

Section Removal.
Import OS TreeSpec Config CleanOrder Clean.

(** Every place of the tree without the entry at [l] is a place of
    the tree, with a node of the same kind. *)
Lemma grows_setAt_None root l : grows (setAt root l None) root.
Proof.
  revert root. induction l as [|x l IH]; intros root; [apply grows_refl|].
  destruct root as [| |w es]; [apply grows_refl..|].
  destruct l as [|y l].
  - simpl. intros [|z r] n.
    + intros [= <-]. by eexists.
    + simpl. rewrite assoc_delEntry. destruct (String.eqb x z); [done|].
      intros Hl. eexists. split; [done|apply sameKind_refl].
  - change (setAt (Dir w es) (x :: y :: l) None)
      with (match assoc x es with
            | Some c => Dir w (putEntry x (setAt c (y :: l) None) es)
            | None => Dir w es
            end).
    destruct (assoc x es) as [c|] eqn:Hx; [|apply grows_refl].
    intros [|z r] n.
    + intros [= <-]. by eexists.
    + simpl. rewrite assoc_putEntry. destruct (String.eqb_spec x z) as [->|Hxz].
      * rewrite Hx. apply IH.
      * intros Hl. eexists. split; [done|apply sameKind_refl].
Qed.

Lemma lookup_setAt_None root l x : lookup (setAt root (l ++ [x]) None) (l ++ [x]) = None.
Proof.
  revert root. induction l as [|y l IH]; intros root.
  - destruct root as [| |w es]; [done..|]. simpl. rewrite assoc_delEntry.
    by rewrite String.eqb_refl.
  - destruct root as [| |w es]; [done..|].
    change ((y :: l) ++ [x]) with (y :: (l ++ [x])).
    destruct (l ++ [x]) as [|z r] eqn:Hr; [by destruct l|].
    change (setAt (Dir w es) (y :: z :: r) None)
      with (match assoc y es with
            | Some c => Dir w (putEntry y (setAt c (z :: r) None) es)
            | None => Dir w es
            end).
    destruct (assoc y es) as [c|] eqn:Hy.
    + cbn [lookup]. rewrite assoc_putEntry_eq. apply IH.
    + cbn [lookup]. by rewrite Hy.
Qed.

(** A path that named a node names the node at the same place, or
    nothing, in a tree that has lost entries. *)
Lemma resolveFrom_shrunk fuel root root' follow cur comps l n :
  grows root' root →
  resolveFrom fuel root follow cur comps = RFound l n →
  (∃ n', resolveFrom fuel root' follow cur comps = RFound l n')
  ∨ (∃ p x, resolveFrom fuel root' follow cur comps = RMissing p x)
  ∨ resolveFrom fuel root' follow cur comps = RError ENOENT.
Proof.
  intros Hg. revert cur comps. induction fuel as [|fuel IHf]; intros cur comps;
    revert cur; induction comps as [|c rest IHc]; intros cur;
    rewrite ?resolveFrom_nil, ?resolveFrom_cons.
  1,3: destruct (lookup root cur) as [n0|] eqn:Hl; [|done]; intros [= <- <-];
    destruct (lookup root' cur); by eauto.
  all: destruct (lookup root cur) as [[| |w es]|] eqn:Hl; try done.
  all: destruct (lookup root' cur) as [m|] eqn:Hl'; [|by eauto].
  all: destruct (Hg _ _ Hl') as (m0 & Hm0 & Hk); rewrite Hl in Hm0;
    injection Hm0 as <-; destruct m as [| |w' es']; try done.
  all: destruct (String.eqb c "" || String.eqb c "."); [apply IHc|].
  all: destruct (String.eqb c ".."); [apply IHc|].
  all: destruct (assoc c es') as [child'|] eqn:Hc';
    [|intros _; destruct (isNil rest); by eauto].
  all: assert (lookup root' (cur ++ [c]) = Some child') as Hchild'
      by (by eapply lookup_snoc).
  all: destruct (Hg _ _ Hchild') as (child & Hchild & Hkc).
  all: rewrite lookup_app, Hl in Hchild; simpl in Hchild.
  all: destruct (assoc c es) as [child0|]; [|done]; injection Hchild as ->.
  all: destruct child' as [| target'|], child as [| target|]; try done; try apply IHc.
  all: simpl in Hkc; subst target'.
  all: destruct (isNil rest && negb follow); [intros [= <- <-]; by eauto|].
  all: destruct (String.eqb target ""); [done|].
  - done.
  - apply IHf.
Qed.

(** What os.Remove and os.RemoveAll have removed is not there. *)
Lemma removed_gone root path l n :
  namei root false path = RFound l n → l ≠ [] →
  Lstat (setAt root l None) path = Err ENOENT.
Proof.
  intros Hn Hl. unfold Lstat, statWith. unfold namei in *.
  destruct (String.eqb path ""); [done|].
  destruct (resolveFrom_shrunk _ _ (setAt root l None) _ _ _ _ _
              (grows_setAt_None root l) Hn) as [(n' & Hr)|[(p & x & ->)| ->]]; [|done..].
  apply resolveFrom_lookup in Hr.
  destruct (exists_last Hl) as (l' & x & ->). by rewrite lookup_setAt_None in Hr.
Qed.

Lemma Remove_gone root path root' :
  Remove root path = Ok root' → Lstat root' path = Err ENOENT.
Proof.
  unfold Remove. destruct (namei root false path) as [[|x l] n| |] eqn:Hn; try done.
  destruct (parentWritable root (x :: l)); [|done].
  assert (Lstat (setAt root (x :: l) None) path = Err ENOENT) as Hgone.
  { apply (removed_gone _ _ _ _ Hn). discriminate. }
  destruct n as [| |w [|e es]]; [| | |discriminate]; intros [= <-]; exact Hgone.
Qed.

Lemma RemoveAll_gone root path root' :
  RemoveAll root path = (root', None) → Lstat root path ≠ Err ENOENT →
  Lstat root' path = Err ENOENT.
Proof.
  unfold RemoveAll, Lstat, statWith.
  destruct (namei root false path) as [l n| |e] eqn:Hn; [|done|by destruct e].
  destruct (purge n) as [n' gone]. intros Hrun _.
  destruct (gone && negb (isNil l) && parentWritable root l) eqn:Hok; [|done].
  injection Hrun as <-. apply (removed_gone _ _ _ _ Hn).
  intros ->. simpl in Hok. by rewrite andb_false_r in Hok.
Qed.

(** X10.  What clean counts as removed is gone: whenever an iteration of
    the loop over the managed paths increases the counter, the managed
    path names nothing afterwards, and its entry has left the state. *)
Theorem clean_counts_what_is_gone :
  ∀ (managedPaths : gset string) (relPath : string) (v v' : Loop),
    processPath managedPaths relPath v = Some v' →
    removed v' ≠ removed v →
    removed v' = S (removed v)
    ∧ Lstat (root v') (Filepath.Join ["overlay"; relPath]) = Err ENOENT
    ∧ IsManagedFile (state v') relPath = None.
Proof.
  intros managedPaths relPath v v'. unfold processPath.
  assert (IsManagedFile (RemoveManagedFile (state v) relPath) relPath = None) as Hstate.
  { unfold IsManagedFile. rewrite RemoveManagedFile_filter.
    induction (ManagedFiles (state v)) as [|f r IH]; [done|].
    destruct (decide (Path f = relPath)) as [Hf|Hf].
    - by rewrite filter_cons_False by tauto.
    - rewrite filter_cons_True by done. simpl.
      by destruct (String.eqb_spec (Path f) relPath). }
  destruct (Lstat (root v) (Filepath.Join ["overlay"; relPath])) as [info|e] eqn:Hlstat.
  - assert (Lstat (root v) (Filepath.Join ["overlay"; relPath]) ≠ Err ENOENT) as Hthere
        by (by rewrite Hlstat).
    destruct (negb (IsDir info)).
    + destruct (Remove (root v) (Filepath.Join ["overlay"; relPath]))
        as [root'|e] eqn:Hremove; intros [= <-]; cbn [removed root state]; [|done].
      intros _. split_and!; [done|exact (Remove_gone _ _ _ Hremove)|exact Hstate].
    + destruct (isFullyManaged (root v) _ managedPaths); [|by intros [= <-]].
      destruct (RemoveAll (root v) (Filepath.Join ["overlay"; relPath]))
        as [root' [e|]] eqn:Hremove; intros [= <-]; cbn [removed root state]; [done|].
      intros _. split_and!; [done|exact (RemoveAll_gone _ _ _ Hremove Hthere)|exact Hstate].
  - destruct (IsNotExist e); [|done]. by intros [= <-].
Qed.

Lemma clean_counts_what_is_gone_witness :
  let v := mkLoop (fs nestedWorld)
             (mkState [mkManagedFile "dir/managed.txt" "symlink" "dir/managed.txt"]) 0 in
  ∃ v', processPath {["dir/managed.txt"]} "dir/managed.txt" v = Some v'
        ∧ removed v' = 1
        ∧ Lstat (root v') "overlay/dir/managed.txt" = Err ENOENT.
Proof.
  intros v.
  destruct (processPath {["dir/managed.txt"]} "dir/managed.txt" v) as [v'|] eqn:Hrun;
    [|by vm_compute in Hrun].
  exists v'.
  destruct (clean_counts_what_is_gone _ _ _ _ Hrun) as (Hcount & Hgone & _).
  - vm_compute in Hrun. injection Hrun as <-. simpl. lia.
  - split; [done|]. split; [exact Hcount|exact Hgone].
Defined.

End Removal.

(** ** The links that createLink makes *)

Section NewEntries.
Import OS TreeSpec Config Link.

(** Putting a node at an absent entry of a directory leaves the files
    and links of the tree as they are, and its directories
    directories. *)
Lemma setAt_new_leaf root p x v w es l n :
  lookup root p = Some (Dir w es) → lookup root (p ++ [x]) = None →
  lookup root l = Some n → IsDir n = false →
  lookup (setAt root (p ++ [x]) (Some v)) l = Some n.
Proof.
  revert root l. induction p as [|z p IH]; intros root l Hp Hx Hl Hn.
  - simpl in Hp. injection Hp as ->. simpl in Hx.
    destruct l as [|y r]; [simpl in Hl; by injection Hl as <-|].
    simpl in *. destruct (String.eqb_spec x y) as [->|Hxy].
    + by destruct (assoc y es).
    + by rewrite assoc_putEntry_ne.
  - destruct root as [| |w0 es0]; [done..|]. simpl in Hp, Hx.
    destruct (assoc z es0) as [c0|] eqn:Hz; [|done].
    destruct l as [|y r]; [simpl in Hl; by injection Hl as <-|].
    simpl in Hl. change ((z :: p) ++ [x]) with (z :: (p ++ [x])).
    destruct (p ++ [x]) as [|q1 q] eqn:Hq; [by destruct p|].
    change (setAt (Dir w0 es0) (z :: q1 :: q) (Some v))
      with (match assoc z es0 with
            | Some c => Dir w0 (putEntry z (setAt c (q1 :: q) (Some v)) es0)
            | None => Dir w0 es0
            end).
    rewrite Hz. cbn [lookup]. rewrite assoc_putEntry.
    destruct (String.eqb_spec z y) as [->|Hzy]; [|done].
    rewrite Hz in Hl. by apply IH.
Qed.

Lemma grows_setAt_new root p x v w es :
  lookup root p = Some (Dir w es) → lookup root (p ++ [x]) = None →
  grows root (setAt root (p ++ [x]) (Some v)).
Proof.
  intros Hp Hx l n Hl. destruct (IsDir n) eqn:Hn.
  - destruct n as [| |w' es']; [done..|].
    destruct (decide (l `prefix_of` p ++ [x])) as [[k Hk]|Hnp].
    + destruct k as [|y k]; [rewrite app_nil_r in Hk; congruence|].
      pose proof (lookup_setAt_new root p x v w es Hp) as Hnew.
      rewrite Hk in Hnew |- *. apply lookup_prefix_Dir in Hnew as (w2 & es2 & ->).
      by eexists.
    + rewrite lookup_setAt_beside; [by eexists| |done].
      intros [k ->]. apply lookup_prefix_Some in Hl as [m Hm]. congruence.
  - exists n. split; [by eapply setAt_new_leaf|apply sameKind_refl].
Qed.

(** A path that names an absent entry without following a link at its
    end names the node that is put there. *)
Lemma resolveFrom_created_nofollow fuel root root' cur comps p x v :
  grows root root' →
  resolveFrom fuel root false cur comps = RMissing p x →
  lookup root' (p ++ [x]) = Some v →
  resolveFrom fuel root' false cur comps = RFound (p ++ [x]) v.
Proof.
  intros Hg. revert cur comps. induction fuel as [|fuel IHf]; intros cur comps;
    revert cur; induction comps as [|c rest IHc]; intros cur; simpl.
  - by destruct (lookup root cur).
  - destruct (lookup root cur) as [[| |w es]|] eqn:Hl; try done.
    destruct (grows_Dir _ _ _ _ _ Hg Hl) as (w' & es' & Hl' & Hes). rewrite Hl'.
    destruct (String.eqb c "" || String.eqb c "."); [apply IHc|].
    destruct (String.eqb c ".."); [apply IHc|].
    destruct (assoc c es) as [child|] eqn:Hassoc.
    + destruct (Hes _ _ Hassoc) as (child' & -> & Hk).
      destruct child as [| target|], child' as [| target'|]; try done; try apply IHc.
      simpl in Hk. subst target'.
      destruct (isNil rest); simpl; [done|]. by destruct (String.eqb target "").
    + destruct rest; [|done]. simpl. intros [= <- <-] Hnew.
      pose proof Hnew as Hnew'. rewrite lookup_app, Hl' in Hnew'. simpl in Hnew'.
      destruct (assoc c es') as [child'|]; [|done]. simplify_eq.
      destruct v; [by rewrite Hnew|done|by rewrite Hnew].
  - by destruct (lookup root cur).
  - destruct (lookup root cur) as [[| |w es]|] eqn:Hl; try done.
    destruct (grows_Dir _ _ _ _ _ Hg Hl) as (w' & es' & Hl' & Hes). rewrite Hl'.
    destruct (String.eqb c "" || String.eqb c "."); [apply IHc|].
    destruct (String.eqb c ".."); [apply IHc|].
    destruct (assoc c es) as [child|] eqn:Hassoc.
    + destruct (Hes _ _ Hassoc) as (child' & -> & Hk).
      destruct child as [| target|], child' as [| target'|]; try done; try apply IHc.
      simpl in Hk. subst target'.
      destruct (isNil rest); simpl; [done|].
      destruct (String.eqb target ""); [done|]. apply IHf.
    + destruct rest; [|done]. simpl. intros [= <- <-] Hnew.
      pose proof Hnew as Hnew'. rewrite lookup_app, Hl' in Hnew'. simpl in Hnew'.
      destruct (assoc c es') as [child'|]; [|done]. simplify_eq.
      destruct v; [by rewrite Hnew|done|by rewrite Hnew].
Qed.

(** What the creation of a new entry (symlink, link) leaves. *)
Lemma new_entry_spec root path p x v :
  namei root false path = RMissing p x →
  let root' := setAt root (p ++ [x]) (Some v) in
  grows root root'
  ∧ Lstat root' path = Ok v
  ∧ ∀ l n, lookup root l = Some n → IsDir n = false → lookup root' l = Some n.
Proof.
  unfold namei. destruct (String.eqb path "") eqn:Hpath; [done|]. intros Hr.
  set (root' := setAt root (p ++ [x]) (Some v)).
  destruct (resolveFrom_missing _ _ _ _ _ _ _ Hr) as [(w & es & Hp) Hx].
  assert (grows root root') as Hg by (by eapply grows_setAt_new).
  split_and!; [done| |].
  - unfold Lstat, statWith, namei. rewrite Hpath.
    erewrite resolveFrom_created_nofollow; [done..|]. by eapply lookup_setAt_new.
  - intros l n Hl Hn. by eapply setAt_new_leaf.
Qed.

Lemma Symlink_spec root oldname newname root' :
  Symlink_ root oldname newname = Ok root' →
  Lstat root' newname = Ok (Symlink oldname)
  ∧ ∀ l n, lookup root l = Some n → IsDir n = false → lookup root' l = Some n.
Proof.
  unfold Symlink_. destruct (namei root false newname) as [| p x|] eqn:Hn; try done.
  destruct (parentWritable root (p ++ [x])); [|done]. intros [= <-].
  by destruct (new_entry_spec root newname p x (Symlink oldname) Hn) as (_ & ? & ?).
Qed.

Lemma Link_spec root oldname newname root' :
  Link root oldname newname = Ok root' →
  ∃ n, IsDir n = false
       ∧ Lstat root oldname = Ok n
       ∧ Lstat root' oldname = Ok n
       ∧ Lstat root' newname = Ok n.
Proof.
  unfold Link. destruct (namei root false oldname) as [lo n| |] eqn:Ho; try done.
  assert (IsDir n = false → 
          match namei root false newname with
          | RFound _ _ => Err EEXIST
          | RMissing parent name =>
              if parentWritable root (parent ++ [name])
              then Ok (setAt root (parent ++ [name]) (Some n))
              else Err EACCES
          | RError e => Err e
          end = Ok root' →
          ∃ n0, IsDir n0 = false ∧ Lstat root oldname = Ok n0
                ∧ Lstat root' oldname = Ok n0 ∧ Lstat root' newname = Ok n0) as Hmain.
  { intros Hdir. destruct (namei root false newname) as [| p x|] eqn:Hn; try done.
    destruct (parentWritable root (p ++ [x])); [|done]. intros [= <-].
    destruct (new_entry_spec root newname p x n Hn) as (Hg & Hnew & Hkeep).
    exists n. split_and!; [done| | |done].
    - unfold Lstat, statWith. by rewrite Ho.
    - destruct (namei_grows _ _ _ _ _ _ Hg Ho) as (n' & Ho' & Hl' & _).
      unfold Lstat, statWith. rewrite Ho'.
      rewrite (Hkeep lo n) in Hl'; [congruence| |done]. by eapply namei_lookup. }
  destruct n; [by apply Hmain|by apply Hmain|done].
Qed.

End NewEntries.

Section CreateLinkModes.
Import OS TreeSpec Config Link.

Lemma createLink_inv src dst linkMode force ctx ctx' :
  createLink src dst linkMode force ctx = (ctx', None) →
  validatePath "overlay" (Strings.TrimPrefix dst "overlay/") = Ok tt
  ∧ ∃ root1 root2 root3,
      MkdirAll (root ctx) (Filepath.Dir dst) = (root1, None)
      ∧ handleExisting root1 dst force = Ok root2
      ∧ if Strings.HasSuffix dst ".gitignore"
        then copyFile root2 src dst = (root3, None)
             ∧ ctx' = track ctx root3 src dst "copy"
        else makeLink root2 src dst linkMode = (root3, None)
             ∧ ctx' = track ctx root3 src dst linkMode.
Proof.
  unfold createLink. destruct (validatePath _ _) as [[]|]; [|done].
  destruct (MkdirAll _ _) as [root1 [e|]] eqn:Hmkdir; [done|].
  destruct (handleExisting _ _ _) as [root2|e] eqn:Hexisting; [|done].
  destruct (Strings.HasSuffix dst ".gitignore") eqn:Hsuffix.
  - destruct (copyFile root2 src dst) as [root3 [e|]] eqn:Hcopy; [done|].
    intros [= <-]. split; [done|]. by exists root1, root2, root3.
  - destruct (makeLink root2 src dst linkMode) as [root3 [e|]] eqn:Hlink; [done|].
    intros [= <-]. split; [done|]. by exists root1, root2, root3.
Qed.

(** X11.  In link mode symlink a successful createLink leaves a symbolic
    link at the target path whose text is the relative path from the
    directory of the target path to the source path, as filepath.Rel
    computes it. *)
Theorem createLink_symlink_target :
  ∀ (src dst : string) (force : bool) (ctx ctx' : Ctx),
    Strings.HasSuffix dst ".gitignore" = false →
    createLink src dst "symlink" force ctx = (ctx', None) →
    ∃ relPath,
      Filepath.Rel (Filepath.Dir dst) src = Some relPath
      ∧ Lstat (root ctx') dst = Ok (Symlink relPath).
Proof.
  intros src dst force ctx ctx' Hsuffix Hrun.
  apply createLink_inv in Hrun as (_ & root1 & root2 & root3 & _ & _ & Hlink).
  rewrite Hsuffix in Hlink. destruct Hlink as [Hlink ->]. unfold makeLink in Hlink.
  change (String.eqb "symlink" "symlink") with true in Hlink. cbv iota in Hlink.
  destruct (Filepath.Rel (Filepath.Dir dst) src) as [relPath|]; [|done].
  destruct (Symlink_ root2 relPath dst) as [root'|e] eqn:Hsym; [|done].
  injection Hlink as <-. exists relPath. split; [done|].
  by apply Symlink_spec in Hsym as [? _].
Qed.

Lemma createLink_symlink_target_witness :
  ∃ relPath,
    Filepath.Rel (Filepath.Dir "overlay/library/x.txt") ".upstream/src/lib/x.txt"
    = Some relPath
    ∧ Lstat (root (createLink ".upstream/src/lib/x.txt" "overlay/library/x.txt" "symlink"
                     false (mkCtx (fs libraryWorld) [] (mkState []))).1)
        "overlay/library/x.txt"
      = Ok (Symlink relPath).
Proof.
  apply (createLink_symlink_target ".upstream/src/lib/x.txt" "overlay/library/x.txt"
           false (mkCtx (fs libraryWorld) [] (mkState []))).
  - reflexivity.
  - vm_compute. reflexivity.
Defined.

(** X12.  In link mode hardlink a successful createLink leaves the target
    path and the source path naming the same file (or link), which is
    no directory. *)
Theorem createLink_hardlink_target :
  ∀ (src dst : string) (force : bool) (ctx ctx' : Ctx),
    Strings.HasSuffix dst ".gitignore" = false →
    createLink src dst "hardlink" force ctx = (ctx', None) →
    ∃ n, IsDir n = false
         ∧ Lstat (root ctx') src = Ok n
         ∧ Lstat (root ctx') dst = Ok n.
Proof.
  intros src dst force ctx ctx' Hsuffix Hrun.
  apply createLink_inv in Hrun as (_ & root1 & root2 & root3 & _ & _ & Hlink).
  rewrite Hsuffix in Hlink. destruct Hlink as [Hlink ->]. unfold makeLink in Hlink.
  change (String.eqb "hardlink" "symlink") with false in Hlink.
  change (String.eqb "hardlink" "hardlink") with true in Hlink. cbv iota in Hlink.
  destruct (Link root2 src dst) as [root'|e] eqn:Hl; [|done].
  injection Hlink as <-. apply Link_spec in Hl as (n & Hn & _ & Hsrc & Hdst).
  by exists n.
Qed.

Lemma createLink_hardlink_target_witness :
  let ctx' := (createLink ".upstream/src/lib/x.txt" "overlay/library/x.txt" "hardlink"
                 false (mkCtx (fs libraryWorld) [] (mkState []))).1 in
  Lstat (root ctx') "overlay/library/x.txt" = Ok (file "x").
Proof.
  intros ctx'.
  destruct (createLink_hardlink_target ".upstream/src/lib/x.txt" "overlay/library/x.txt"
              false (mkCtx (fs libraryWorld) [] (mkState [])) ctx')
    as (n & _ & Hsrc & Hdst); [reflexivity|vm_compute; reflexivity|].
  rewrite Hdst, <- Hsrc. vm_compute. reflexivity.
Defined.

(** X13.  In link mode copy a successful createLink leaves the target path
    and the source path naming regular files with the same content
    and the same permission bits. *)
Theorem createLink_copy_target :
  ∀ (src dst : string) (force : bool) (ctx ctx' : Ctx),
    Strings.HasSuffix dst ".gitignore" = false →
    createLink src dst "copy" force ctx = (ctx', None) →
    ∃ mode data,
      Stat (root ctx') src = Ok (File mode data)
      ∧ Stat (root ctx') dst = Ok (File mode data).
Proof.
  intros src dst force ctx ctx' Hsuffix Hrun.
  apply createLink_inv in Hrun as (_ & root1 & root2 & root3 & _ & _ & Hlink).
  rewrite Hsuffix in Hlink. destruct Hlink as [Hlink ->]. unfold makeLink in Hlink.
  change (String.eqb "copy" "symlink") with false in Hlink.
  change (String.eqb "copy" "hardlink") with false in Hlink.
  change (String.eqb "copy" "copy") with true in Hlink. cbv iota in Hlink.
  destruct (copyFile root2 src dst) as [root' [e|]] eqn:Hcopy; [done|].
  injection Hlink as <-.
  destruct (copyFile_copies _ _ _ _ Hcopy) as (mode & data & Hsrc & Hdst & _).
  by exists mode, data.
Qed.

Lemma createLink_copy_target_witness :
  let ctx' := (createLink ".upstream/src/lib/x.txt" "overlay/library/x.txt" "copy"
                 false (mkCtx (fs libraryWorld) [] (mkState []))).1 in
  ∃ mode data, Stat (root ctx') ".upstream/src/lib/x.txt" = Ok (File mode data)
               ∧ Stat (root ctx') "overlay/library/x.txt" = Ok (File mode data).
Proof.
  intros ctx'.
  apply (createLink_copy_target ".upstream/src/lib/x.txt" "overlay/library/x.txt"
           false (mkCtx (fs libraryWorld) [] (mkState []))).
  - reflexivity.
  - vm_compute. reflexivity.
Defined.

End CreateLinkModes.

Section CopyFailure.
Import OS TreeSpec Config Link.

(** X14.  copyFile from a directory (a source path that names one through a
    link, say) fails with EISDIR only when it reads, after the target
    was created or truncated: the target is left behind as an empty
    file. *)
Theorem copyFile_from_directory :
  ∀ (root : node) (src dst : string) (w : bool) (es : list (string * node))
    (root1 : node) (l : loc),
    Stat root src = Ok (Dir w es) →
    Create root dst = Ok (root1, l) →
    copyFile root src dst = (root1, Some EISDIR)
    ∧ ∃ mode, Stat root1 dst = Ok (File mode "").
Proof.
  intros root src dst w es root1 l Hsrc Hcreate.
  unfold Stat, statWith in Hsrc.
  destruct (namei root true src) as [ls ns| |] eqn:Hn; [|done..]. injection Hsrc as ->.
  destruct (Create_spec _ _ _ _ Hcreate) as (mode & _ & Hg & _ & Hdst & _).
  split.
  - unfold copyFile, Open. rewrite Hn, Hcreate. unfold readAt.
    destruct (Hg ls (Dir w es)) as ([| |w' es'] & -> & Hk); [by eapply namei_lookup|done..].
  - exists mode. unfold Stat, statWith. by rewrite Hdst.
Qed.

Lemma copyFile_from_directory_witness :
  copyFile (fs libraryWorld) ".upstream/src/lib" "overlay/lib"
  = (dir [(".upstream", dir [("src", dir [("lib", dir [("x.txt", file "x")])])]);
          ("overlay", dir [("lib", file "")])],
     Some EISDIR).
Proof.
  apply (copyFile_from_directory (fs libraryWorld) ".upstream/src/lib" "overlay/lib"
           true [("x.txt", file "x")] _ ["overlay"; "lib"]).
  - vm_compute. reflexivity.
  - vm_compute. reflexivity.
Defined.

End CopyFailure.

(** ** The validation of the target path *)

Section ValidateEdges.
Import Filepath Strings PathSpec.

Lemma validatePath_plain base path :
  IsAbs path = false →
  Forall (λ seg, Contains seg ".." = false) (Split path "/") →
  validatePath base path = Ok tt.
Proof.
  intros Habs Hnd. unfold validatePath. rewrite Habs.
  destruct (Clean_Join_below base path Habs Hnd) as [HT HN].
  pose proof (cleanList_normal base) as HB.
  assert (Forall (λ e, HasPrefix e ".." = false)
            (filter (λ e, e ≠ "" ∧ e ≠ ".") (Split path "/"))) as HNp.
  { apply Forall_forall. intros e He. apply list_elem_of_filter in He as [_ He].
    eapply Forall_forall in Hnd; [|done].
    destruct (HasPrefix e "..") eqn:Hp; [|done].
    apply HasPrefix_Contains in Hp. congruence. }
  destruct (Rel_render_below _ _ _ HB HN HNp) as (rel & Hrel & Hpre).
  rewrite HT, (Clean_render_cleanList base), Hrel, Hpre.
  destruct (Contains path "../") eqn:Hc; [|done].
  apply Contains_dotdot_slash in Hc as (seg & Hin & Hseg).
  eapply Forall_forall in Hnd; [|done]. congruence.
Qed.

Lemma TrimPrefix_none s prefix : HasPrefix s prefix = false → TrimPrefix s prefix = s.
Proof. unfold TrimPrefix. by intros ->. Qed.

(** X15.  The validation of createLink does not confine the target to the
    overlay directory: the path that is validated is the target path
    without a leading "overlay/", taken relative to "overlay", so a
    relative target path that does not start with "overlay/" (the
    join of "overlay" and "../x" is "x") passes the validation when
    none of its elements contains "..". *)
Theorem createLink_validates_the_trimmed_path :
  ∀ (src dst linkMode : string) (force : bool) (ctx : Link.Ctx),
    HasPrefix dst "overlay/" = false →
    IsAbs dst = false →
    Forall (λ seg, Contains seg ".." = false) (Split dst "/") →
    validatePath "overlay" (TrimPrefix dst "overlay/") = Ok tt
    ∧ ∀ e, (Link.createLink src dst linkMode force ctx).2 ≠ Some (ErrInvalidTarget e).
Proof.
  intros src dst linkMode force ctx Hprefix Habs Hnd.
  assert (validatePath "overlay" (TrimPrefix dst "overlay/") = Ok tt) as Hvalid.
  { rewrite TrimPrefix_none by done. by apply validatePath_plain. }
  split; [done|]. intros e. unfold Link.createLink. rewrite Hvalid.
  destruct (OS.MkdirAll _ _) as [root1 [e1|]]; [done|].
  destruct (Link.handleExisting root1 dst force) as [root2|e2] eqn:Hexisting.
  2: { unfold Link.handleExisting in Hexisting.
       destruct (OS.Stat root1 dst); [|done]. destruct (negb force); [by simplify_eq|].
       destruct (OS.Remove root1 dst); by simplify_eq. }
  destruct (HasSuffix dst ".gitignore").
  - by destruct (Link.copyFile root2 src dst) as [root3 [e3|]].
  - unfold Link.makeLink. destruct (String.eqb linkMode "symlink").
    { destruct (Rel _ _); [|done]. by destruct (OS.Symlink_ _ _ _). }
    destruct (String.eqb linkMode "hardlink"); [by destruct (OS.Link _ _ _)|].
    destruct (String.eqb linkMode "copy"); [|done].
    by destruct (Link.copyFile root2 src dst) as [root3 [e3|]].
Qed.

Lemma createLink_validates_the_trimmed_path_witness :
  let ctx := Link.mkCtx (fs libraryWorld) [] (Config.mkState []) in
  let dst := Filepath.Join ["overlay"; "../x"] in
  dst = "x"
  ∧ validatePath "overlay" (TrimPrefix dst "overlay/") = Ok tt
  ∧ Link.createLink ".upstream/src/lib/x.txt" dst "symlink" false ctx
    = (Link.mkCtx
         (OS.Dir true
            [(".upstream", dir [("src", dir [("lib", dir [("x.txt", file "x")])])]);
             ("overlay", dir []);
             ("x", OS.Symlink ".upstream/src/lib/x.txt")])
         ["x"] (Config.mkState [Config.mkManagedFile "x" "symlink" "src/lib/x.txt"]),
       None).
Proof.
  intros ctx dst. split; [reflexivity|]. split; [|vm_compute; reflexivity].
  apply (createLink_validates_the_trimmed_path ".upstream/src/lib/x.txt" dst "symlink"
           false ctx).
  - reflexivity.
  - reflexivity.
  - vm_compute. repeat constructor.
Defined.

End ValidateEdges.

(** ** The managed block of .gitignore *)

Section Lines.
Import Strings Link GitignoreSpec.

Lemma Split_cons_char d s c :
  Split (String d s) c
  = if Ascii.eqb d c then "" :: Split s c
    else match Split s c with
         | h :: t => String d h :: t
         | [] => [String d ""]
         end.
Proof. reflexivity. Qed.

Lemma Split_nonempty_char s c : Split s c ≠ [].
Proof.
  induction s as [|d s IH]; [done|]. rewrite Split_cons_char.
  destruct (Ascii.eqb d c); [done|]. by destruct (Split s c).
Qed.

Lemma Split_app_char a b c :
  Split (a +:+ String c b) c = Split a c ++ Split b c.
Proof.
  induction a as [|d a IH].
  - change ("" +:+ String c b) with (String c b). rewrite Split_cons_char.
    by rewrite Ascii.eqb_refl.
  - rewrite string_app_cons, !Split_cons_char, IH.
    destruct (Ascii.eqb d c); [done|].
    pose proof (Split_nonempty_char a c). by destruct (Split a c).
Qed.

Lemma Split_line e c : Count e c = 0 → Split e c = [e].
Proof.
  induction e as [|d e IH]; [done|]. simpl.
  destruct (Ascii.eqb d c); [done|]. simpl. intros He. by rewrite IH.
Qed.

Lemma Split_lines s c : Forall (λ e, Count e c = 0) (Split s c).
Proof.
  induction s as [|d s IH]; [by repeat constructor|]. rewrite Split_cons_char.
  destruct (Ascii.eqb d c) eqn:Hd; [by constructor|].
  pose proof (Split_nonempty_char s c) as Hne.
  destruct (Split s c) as [|h t]; [done|].
  apply Forall_cons in IH as [Hh Ht]. constructor; [|done]. simpl. by rewrite Hd.
Qed.

Lemma Join_cons_cons e e' rest sep :
  Join (e :: e' :: rest) sep = e +:+ sep +:+ Join (e' :: rest) sep.
Proof. reflexivity. Qed.

Lemma Split_Join_snoc l x c :
  Forall (λ e, Count e c = 0) l →
  Split (Join (l ++ [x]) (String c "")) c = l ++ Split x c.
Proof.
  induction l as [|e l IH]; [done|]. intros Hl. apply Forall_cons in Hl as [He Hl].
  change ((e :: l) ++ [x]) with (e :: (l ++ [x])).
  destruct (l ++ [x]) as [|e' rest] eqn:Hrest; [by destruct l|].
  rewrite Join_cons_cons. change (String c "" +:+ Join (e' :: rest) (String c ""))
    with (String c (Join (e' :: rest) (String c ""))).
  rewrite Split_app_char, Split_line by done. rewrite IH by done. done.
Qed.

Lemma HasSuffix_app a b : HasSuffix (a +:+ b) b = true.
Proof.
  induction a as [|d a IH].
  - change ("" +:+ b) with b. destruct b; simpl; by rewrite ?Ascii.eqb_refl, ?String.eqb_refl.
  - rewrite string_app_cons. simpl. rewrite IH. apply orb_true_r.
Qed.

Lemma Join_snoc l x sep :
  Join (l ++ [x]) sep
  = match l with [] => x | _ => Join l sep +:+ sep +:+ x end.
Proof.
  induction l as [|e l IH]; [done|].
  change ((e :: l) ++ [x]) with (e :: (l ++ [x])).
  destruct l as [|e' l]; [done|].
  change ((e' :: l) ++ [x]) with (e' :: (l ++ [x])) in *. rewrite Join_cons_cons, IH.
  rewrite Join_cons_cons. by rewrite !string_app_assoc.
Qed.

Lemma HasSuffix_Join_snoc l x sep : HasSuffix (Join (l ++ [x]) sep) x = true.
Proof.
  rewrite Join_snoc. destruct l; [|rewrite <- string_app_assoc; apply HasSuffix_app].
  apply (HasSuffix_app "" x).
Qed.

(** The lines of the managed block. *)
Lemma fold_left_lines links acc tail :
  fold_left (λ acc link, acc +:+ link +:+ newline) links acc +:+ tail
  = acc +:+ foldr (λ link r, link +:+ newline +:+ r) tail links.
Proof.
  revert acc. induction links as [|link links IH]; intros acc; [done|]. simpl.
  rewrite IH. by rewrite !string_app_assoc.
Qed.

Lemma Split_foldr_lines links tail :
  Split (foldr (λ link r, link +:+ newline +:+ r) tail links) "010"
  = concat (map (λ link, Split link "010") links) ++ Split tail "010".
Proof.
  induction links as [|link links IH]; [done|]. simpl.
  change (newline +:+ foldr (λ link r, link +:+ newline +:+ r) tail links)
    with (String "010" (foldr (λ link r, link +:+ newline +:+ r) tail links)).
  rewrite Split_app_char, IH. by rewrite app_assoc.
Qed.

Lemma Split_managedBlock links :
  Split (managedBlock links) "010"
  = beginMarker :: concat (map (λ link, Split link "010") links) ++ [endMarker].
Proof.
  unfold managedBlock.
  change (newline +:+ ?x) with (String "010" x).
  rewrite Split_app_char, fold_left_lines.
  change ("" +:+ ?x) with x. rewrite Split_foldr_lines. reflexivity.
Qed.

End Lines.

Section ManagedBlock.
Import Strings Link GitignoreSpec.

Lemma dropManagedBlock_inside mid rest :
  endMarker ∉ mid →
  dropManagedBlock (mid ++ endMarker :: rest) true = dropManagedBlock rest false.
Proof.
  induction mid as [|line mid IH]; intros Hmid.
  - reflexivity.
  - apply not_elem_of_cons in Hmid as [Hline Hmid].
    change ((line :: mid) ++ endMarker :: rest) with (line :: (mid ++ endMarker :: rest)).
    cbn [dropManagedBlock]. destruct (String.eqb_spec line beginMarker); [by apply IH|].
    destruct (String.eqb_spec line endMarker); [done|]. by apply IH.
Qed.

Lemma dropManagedBlock_unterminated mid :
  endMarker ∉ mid → dropManagedBlock mid true = [].
Proof.
  induction mid as [|line mid IH]; intros Hmid; [done|].
  apply not_elem_of_cons in Hmid as [Hline Hmid]. cbn [dropManagedBlock].
  destruct (String.eqb_spec line beginMarker); [by apply IH|].
  destruct (String.eqb_spec line endMarker); [done|]. by apply IH.
Qed.

Lemma dropManagedBlock_outside pre rest :
  markerFree pre →
  dropManagedBlock (pre ++ rest) false = pre ++ dropManagedBlock rest false.
Proof.
  induction pre as [|line pre IH]; intros [Hb He]; [done|].
  apply not_elem_of_cons in Hb as [Hb1 Hb]. apply not_elem_of_cons in He as [He1 He].
  change ((line :: pre) ++ rest) with (line :: (pre ++ rest)). cbn [dropManagedBlock].
  destruct (String.eqb_spec line beginMarker); [done|].
  destruct (String.eqb_spec line endMarker); [done|]. by rewrite IH.
Qed.

Lemma dropManagedBlock_markerFree lines inBlock :
  markerFree (dropManagedBlock lines inBlock).
Proof.
  revert inBlock. induction lines as [|line lines IH]; intros inBlock.
  - split; apply not_elem_of_nil.
  - cbn [dropManagedBlock]. destruct (String.eqb_spec line beginMarker); [apply IH|].
    destruct (String.eqb_spec line endMarker); [apply IH|].
    destruct inBlock; [apply IH|]. destruct (IH false) as [Hb He].
    split; apply not_elem_of_cons; by split.
Qed.

Lemma dropManagedBlock_sublist lines inBlock :
  dropManagedBlock lines inBlock `sublist_of` lines.
Proof.
  revert inBlock. induction lines as [|line lines IH]; intros inBlock; [done|].
  cbn [dropManagedBlock]. destruct (String.eqb line beginMarker); [by apply sublist_cons|].
  destruct (String.eqb line endMarker); [by apply sublist_cons|].
  destruct inBlock; [by apply sublist_cons|]. by apply sublist_skip.
Qed.

(** X16.  The loop of updateGitignore that drops the old managed block
    keeps the lines outside the block in their order and drops the
    block with its markers; a block whose end marker is missing takes
    the rest of the file with it; no marker line is ever kept. *)
Theorem dropManagedBlock_drops_the_block :
  ∀ (pre mid post : list string),
    markerFree pre → endMarker ∉ mid →
    dropManagedBlock (pre ++ beginMarker :: mid ++ endMarker :: post) false
    = pre ++ dropManagedBlock post false
    ∧ dropManagedBlock (pre ++ beginMarker :: mid) false = pre
    ∧ markerFree (dropManagedBlock post false)
    ∧ dropManagedBlock post false `sublist_of` post.
Proof.
  intros pre mid post Hpre Hmid. split_and!.
  - rewrite dropManagedBlock_outside by done. cbn [dropManagedBlock].
    change (String.eqb beginMarker beginMarker) with true. cbv iota.
    by rewrite dropManagedBlock_inside.
  - rewrite dropManagedBlock_outside by done. cbn [dropManagedBlock].
    change (String.eqb beginMarker beginMarker) with true. cbv iota.
    by rewrite dropManagedBlock_unterminated, app_nil_r.
  - apply dropManagedBlock_markerFree.
  - apply dropManagedBlock_sublist.
Qed.

Lemma dropManagedBlock_drops_the_block_witness :
  dropManagedBlock ["a"; beginMarker; "overlay/x"; endMarker; "b"] false = ["a"; "b"]
  ∧ dropManagedBlock ["a"; beginMarker; "overlay/x"; "b"] false = ["a"].
Proof.
  destruct (dropManagedBlock_drops_the_block ["a"] ["overlay/x"] ["b"])
    as (H1 & _ & _ & _).
  { split; intros H; apply list_elem_of_singleton in H; discriminate. }
  { intros H; apply list_elem_of_singleton in H; discriminate. }
  destruct (dropManagedBlock_drops_the_block ["a"] ["overlay/x"; "b"] [])
    as (_ & H2 & _ & _).
  { split; intros H; apply list_elem_of_singleton in H; discriminate. }
  { intros H. apply elem_of_cons in H as [H|H]; [discriminate|].
    apply list_elem_of_singleton in H; discriminate. }
  split; [exact H1|exact H2].
Defined.

End ManagedBlock.

Section WriteRead.
Import OS TreeSpec.

Lemma replaceEntry_same x c es : assoc x es = Some c → replaceEntry x c es = es.
Proof.
  induction es as [|[y d] r IH]; [done|]. simpl.
  destruct (String.eqb_spec y x) as [->|Hyx].
  - by intros [= ->].
  - intros Hx. by rewrite IH.
Qed.

Lemma replaceEntry_replaceEntry x a b es :
  replaceEntry x b (replaceEntry x a es) = replaceEntry x b es.
Proof.
  induction es as [|[y d] r IH]; [done|]. simpl.
  destruct (String.eqb_spec y x) as [->|Hyx]; simpl.
  - by rewrite String.eqb_refl.
  - destruct (String.eqb_spec y x); [done|]. by rewrite IH.
Qed.

Lemma putEntry_same x c es : assoc x es = Some c → putEntry x c es = es.
Proof. intros Hx. rewrite (putEntry_replace _ _ _ _ Hx). by apply replaceEntry_same. Qed.

Lemma putEntry_putEntry x a b c es :
  assoc x es = Some c → putEntry x b (putEntry x a es) = putEntry x b es.
Proof.
  intros Hx. rewrite (putEntry_replace x c a es Hx), (putEntry_replace x c b es Hx).
  rewrite (putEntry_replace x a b); [apply replaceEntry_replaceEntry|].
  rewrite (assoc_replaceEntry _ _ _ _ _ Hx). by rewrite String.eqb_refl.
Qed.

Lemma setAt_same root l n : lookup root l = Some n → setAt root l (Some n) = root.
Proof.
  revert root. induction l as [|x l IH]; intros root; [by intros [= ->]|].
  destruct root as [| |w es]; [done..|]. simpl.
  destruct (assoc x es) as [c|] eqn:Hx; [|done]. intros Hl.
  destruct l as [|y l].
  - injection Hl as ->. by rewrite putEntry_same.
  - rewrite IH by done. by rewrite putEntry_same.
Qed.

Lemma setAt_setAt root l a b n :
  lookup root l = Some n →
  setAt (setAt root l (Some a)) l (Some b) = setAt root l (Some b).
Proof.
  revert root. induction l as [|x l IH]; intros root; [done|].
  destruct root as [| |w es]; [done..|]. intros Hl. simpl in Hl.
  destruct (assoc x es) as [c|] eqn:Hx; [|done].
  destruct l as [|y l].
  - simpl. by erewrite putEntry_putEntry.
  - change (setAt (Dir w es) (x :: y :: l) (Some a))
      with (match assoc x es with
            | Some c => Dir w (putEntry x (setAt c (y :: l) (Some a)) es)
            | None => Dir w es
            end).
    change (setAt (Dir w es) (x :: y :: l) (Some b))
      with (match assoc x es with
            | Some c => Dir w (putEntry x (setAt c (y :: l) (Some b)) es)
            | None => Dir w es
            end).
    rewrite Hx.
    change (setAt (Dir w ?es') (x :: y :: l) (Some b))
      with (match assoc x es' with
            | Some c => Dir w (putEntry x (setAt c (y :: l) (Some b)) es')
            | None => Dir w es'
            end).
    rewrite assoc_putEntry_eq. erewrite putEntry_putEntry by done. by rewrite IH.
Qed.

(** os.WriteFile, then os.ReadFile. *)
Lemma WriteFile_spec root path data root' :
  WriteFile root path data = Ok root' →
  ∃ l mode,
    namei root' true path = RFound l (File mode data)
    ∧ lookup root' l = Some (File mode data).
Proof.
  unfold WriteFile. destruct (Create root path) as [[root1 l]|] eqn:Hcreate; [|done].
  intros [= <-]. destruct (Create_spec _ _ _ _ Hcreate) as (mode & _ & _ & Hl & Hn & _).
  unfold writeAt. rewrite Hl. exists l, mode.
  assert (grows root1 (setAt root1 l (Some (File mode data)))) as Hg.
  { apply grows_setAt. by rewrite Hl. }
  destruct (namei_grows _ _ _ _ _ _ Hg Hn) as (n' & Hn' & Hl' & _).
  erewrite lookup_setAt_old in Hl' by done. injection Hl' as <-.
  split; [done|]. by eapply lookup_setAt_old.
Qed.

(** Writing a file with the content it has changes nothing. *)
Lemma WriteFile_same root path l mode data :
  namei root true path = RFound l (File mode data) →
  WriteFile root path data = Ok root.
Proof.
  intros Hn. pose proof (namei_lookup _ _ _ _ _ Hn) as Hl.
  unfold WriteFile, Create. rewrite Hn. unfold writeAt.
  erewrite lookup_setAt_old by done. erewrite setAt_setAt by done.
  by rewrite setAt_same.
Qed.

End WriteRead.

Section Gitignore.
Import Strings OS TreeSpec Link GitignoreSpec.

Lemma updateGitignore_eq createdLinks root :
  updateGitignore createdLinks root
  = if match Stat root ".gitignore" with Err e => IsNotExist e | Ok _ => false end
    then WriteFile root ".gitignore" (managedBlock createdLinks)
    else match ReadFile root ".gitignore" with
         | Err e => Err e
         | Ok existing => WriteFile root ".gitignore" (rewritten existing createdLinks)
         end.
Proof. reflexivity. Qed.

Lemma withBlankLine_again l : withBlankLine (withBlankLine l) = withBlankLine l.
Proof.
  unfold withBlankLine at 2. destruct (last l) as [e|] eqn:Hlast.
  - destruct (String.eqb e "") eqn:He.
    + done.
    + unfold withBlankLine at 1. rewrite last_snoc. cbn [String.eqb].
      unfold withBlankLine. by rewrite Hlast, He.
  - done.
Qed.

Lemma withBlankLine_lines l :
  Forall lineOf l → markerFree l →
  Forall lineOf (withBlankLine l) ∧ markerFree (withBlankLine l).
Proof.
  intros Hl [Hb He]. unfold withBlankLine. destruct (last l) as [e|]; [|done].
  destruct (String.eqb e ""); [done|]. split.
  - apply Forall_app. split; [done|]. by repeat constructor.
  - split; intros Hin; apply elem_of_app in Hin as [Hin|Hin]; try done;
      apply list_elem_of_singleton in Hin; discriminate.
Qed.

Lemma dropManagedBlock_lines existing :
  Forall lineOf (dropManagedBlock (Split existing "010") false).
Proof.
  apply Forall_forall. intros line Hline.
  eapply elem_of_sublist in Hline; [|apply dropManagedBlock_sublist].
  pose proof (Split_lines existing "010") as Hall.
  rewrite Forall_forall in Hall. by apply Hall.
Qed.

Lemma elem_of_concat_map {A B} (f : A → list B) (l : list A) (y : B) :
  y ∈ concat (map f l) → ∃ x, x ∈ l ∧ y ∈ f x.
Proof.
  induction l as [|x l IH]; simpl; [by intros H; inversion H|].
  intros Hy. apply elem_of_app in Hy as [Hy|Hy].
  - exists x. split; [by left|done].
  - destruct (IH Hy) as (x' & Hx' & Hy'). exists x'. split; [by right|done].
Qed.

Lemma rewritten_block links :
  (∀ link, link ∈ links → endMarker ∉ Split link "010") →
  rewritten (managedBlock links) links = managedBlock links.
Proof.
  intros Hlinks. unfold rewritten. rewrite Split_managedBlock.
  cbn [dropManagedBlock]. change (String.eqb beginMarker beginMarker) with true. cbv iota.
  rewrite dropManagedBlock_inside; [done|].
  intros Hin. apply elem_of_concat_map in Hin as (link & Hlink & Hin).
  by apply (Hlinks link).
Qed.

Lemma rewritten_again existing links :
  (∀ link, link ∈ links → endMarker ∉ Split link "010") →
  rewritten (rewritten existing links) links = rewritten existing links.
Proof.
  intros Hlinks. unfold rewritten.
  set (kept := withBlankLine (dropManagedBlock (Split existing "010") false)).
  destruct (withBlankLine_lines (dropManagedBlock (Split existing "010") false))
    as [Hlines Hfree]; [apply dropManagedBlock_lines|apply dropManagedBlock_markerFree|].
  fold kept in Hlines, Hfree.
  change newline with (String "010" ""). rewrite Split_Join_snoc by done.
  rewrite Split_managedBlock, dropManagedBlock_outside by done.
  cbn [dropManagedBlock]. change (String.eqb beginMarker beginMarker) with true. cbv iota.
  rewrite dropManagedBlock_inside.
  - cbn [dropManagedBlock]. rewrite app_nil_r. unfold kept.
    by rewrite withBlankLine_again.
  - intros Hin. apply elem_of_concat_map in Hin as (link & Hlink & Hin).
    by apply (Hlinks link).
Qed.

Lemma HasSuffix_rewritten existing links :
  HasSuffix (rewritten existing links) (managedBlock links) = true.
Proof. apply HasSuffix_Join_snoc. Qed.

Lemma updateGitignore_written links root root1 :
  updateGitignore links root = Ok root1 →
  ∃ text, ReadFile root1 ".gitignore" = Ok text
          ∧ HasSuffix text (managedBlock links) = true.
Proof.
  rewrite updateGitignore_eq.
  assert (∀ text, HasSuffix text (managedBlock links) = true →
                  WriteFile root ".gitignore" text = Ok root1 →
                  ∃ text, ReadFile root1 ".gitignore" = Ok text
                          ∧ HasSuffix text (managedBlock links) = true) as Hmain.
  { intros text Hsuffix Hwrite.
    destruct (WriteFile_spec _ _ _ _ Hwrite) as (l & mode & Hn & Hl).
    exists text. split; [|done]. unfold ReadFile, Open, readAt. by rewrite Hn, Hl. }
  destruct (match Stat root ".gitignore" with Err e => IsNotExist e | Ok _ => false end).
  - apply Hmain. apply (HasSuffix_app "").
  - destruct (ReadFile root ".gitignore") as [existing|e]; [|done].
    apply Hmain. apply HasSuffix_rewritten.
Qed.

(** X17.  updateGitignore leaves .gitignore ending with the managed block
    of the created links, and running it again with the same links
    changes nothing: the old block is replaced, not added to.  (No
    line of a link path may be the end marker.) *)
Theorem updateGitignore_is_idempotent :
  ∀ (createdLinks : list string) (root root1 : node),
    (∀ link, link ∈ createdLinks → endMarker ∉ Split link "010") →
    updateGitignore createdLinks root = Ok root1 →
    updateGitignore createdLinks root1 = Ok root1
    ∧ ∃ text, ReadFile root1 ".gitignore" = Ok text
              ∧ HasSuffix text (managedBlock createdLinks) = true.
Proof.
  intros links root root1 Hlinks. rewrite updateGitignore_eq.
  assert (∀ text,
            rewritten text links = text →
            HasSuffix text (managedBlock links) = true →
            WriteFile root ".gitignore" text = Ok root1 →
            updateGitignore links root1 = Ok root1
            ∧ ∃ text, ReadFile root1 ".gitignore" = Ok text
                      ∧ HasSuffix text (managedBlock links) = true) as Hmain.
  { intros text Hfix Hsuffix Hwrite.
    destruct (WriteFile_spec _ _ _ _ Hwrite) as (l & mode & Hn & Hl).
    assert (ReadFile root1 ".gitignore" = Ok text) as Hread.
    { unfold ReadFile, Open, readAt. by rewrite Hn, Hl. }
    split; [|by eauto]. rewrite updateGitignore_eq. unfold Stat, statWith.
    rewrite Hn, Hread, Hfix. by eapply WriteFile_same. }
  destruct (match Stat root ".gitignore" with Err e => IsNotExist e | Ok _ => false end).
  - apply Hmain; [by apply rewritten_block|]. apply (HasSuffix_app "").
  - destruct (ReadFile root ".gitignore") as [existing|e]; [|done].
    apply Hmain; [by apply rewritten_again|apply HasSuffix_rewritten].
Qed.

Lemma updateGitignore_is_idempotent_witness :
  let root1 := fs (CreateLinks "symlink" false libraryConfig libraryWorld).1 in
  updateGitignore ["overlay/library/x.txt"] root1 = Ok root1.
Proof.
  intros root1.
  apply (updateGitignore_is_idempotent ["overlay/library/x.txt"] root1 root1).
  - intros link Hlink. apply list_elem_of_singleton in Hlink as ->.
    vm_compute. intros H. apply list_elem_of_singleton in H. discriminate.
  - vm_compute. reflexivity.
Defined.

End Gitignore.

(** ** What the materializer records *)

Section Bookkeeping.
Import OS TreeSpec Config Link LinkSpec GitignoreSpec.

Lemma IsManagedFile_AddManagedFile_ne s path linkMode source q :
  q ≠ path →
  IsManagedFile (AddManagedFile s path linkMode source) q = IsManagedFile s q.
Proof.
  intros Hq. unfold IsManagedFile. rewrite AddManagedFile_filter.
  assert (∀ files, findManaged (filter (λ f, Path f ≠ path) files ++
                                 [mkManagedFile path linkMode source]) q
                   = findManaged files q) as Hfiles; [|apply Hfiles].
  induction files as [|f r IH]; simpl.
  - destruct (String.eqb_spec path q); [congruence|done].
  - destruct (decide (Path f = path)) as [Hf|Hf].
    + rewrite filter_cons_False by tauto.
      destruct (String.eqb_spec (Path f) q); [congruence|done].
    + rewrite filter_cons_True by done. simpl. by rewrite IH.
Qed.

Lemma extends_refl ctx : extends ctx ctx.
Proof. by split. Qed.

Lemma extends_trans c1 c2 c3 : extends c1 c2 → extends c2 c3 → extends c1 c3.
Proof. intros [H1 H2] [H3 H4]. split; [by etrans|auto]. Qed.

Lemma extends_withRoot ctx root' : extends ctx (withRoot ctx root').
Proof. by split. Qed.

Lemma track_step ctx root' src dst linkMode :
  extends ctx (track ctx root' src dst linkMode)
  ∧ (registered ctx → registered (track ctx root' src dst linkMode)).
Proof.
  assert (∀ q, IsManagedFile (state ctx) q ≠ None →
               IsManagedFile (state (track ctx root' src dst linkMode)) q ≠ None) as Hkeep.
  { intros q Hq. simpl.
    destruct (decide (q = Strings.TrimPrefix dst "overlay/")) as [->|Hne].
    - by rewrite IsManagedFile_AddManagedFile.
    - by rewrite IsManagedFile_AddManagedFile_ne. }
  split; [split; [by apply prefix_app_r|done]|].
  intros Hreg d Hd. simpl in Hd. apply elem_of_app in Hd as [Hd|Hd].
  - by apply Hkeep, Hreg.
  - apply list_elem_of_singleton in Hd as ->. simpl.
    by rewrite IsManagedFile_AddManagedFile.
Qed.

Lemma createLink_step src dst linkMode force ctx ctx' err :
  createLink src dst linkMode force ctx = (ctx', err) →
  extends ctx ctx' ∧ (registered ctx → registered ctx').
Proof.
  unfold createLink. destruct (validatePath _ _); [|by intros [= <- <-]].
  destruct (MkdirAll _ _) as [root1 [e|]]; [by intros [= <- <-]|].
  destruct (handleExisting _ _ _) as [root2|e]; [|by intros [= <- <-]].
  destruct (Strings.HasSuffix dst ".gitignore").
  - destruct (copyFile root2 src dst) as [root3 [e|]]; intros [= <- <-];
      [done|apply track_step].
  - destruct (makeLink root2 src dst linkMode) as [root3 [e|]]; intros [= <- <-];
      [done|apply track_step].
Qed.

Lemma walk_step fuel from targetBase linkMode force :
  ∀ path info ctx ctx' err,
    walk fuel from targetBase linkMode force path info ctx = (ctx', err) →
    extends ctx ctx' ∧ (registered ctx → registered ctx').
Proof.
  induction fuel as [|fuel IH]; intros path info ctx ctx' err; simpl.
  - by intros [= <- <-].
  - destruct (negb (IsDir info)).
    + unfold walkFn. destruct (IsDir info); [by intros [= <- <-]|].
      destruct (Filepath.Rel from path); [|by intros [= <- <-]]. apply createLink_step.
    + destruct (ReadDir (root ctx) path) as [entries|e]; [|by intros [= <- <-]].
      generalize (map fst entries). intros names. revert ctx.
      induction names as [|name rest IHn]; intros ctx; [by intros [= <- <-]|].
      destruct (Lstat (root ctx) _) as [fileInfo|e]; [|by intros [= <- <-]].
      destruct (walk fuel from targetBase linkMode force _ fileInfo ctx)
        as [ctx1 [e|]] eqn:Hwalk.
      * intros [= <- <-]. by eapply IH.
      * intros Hrest. apply IH in Hwalk as [He Hr]. apply IHn in Hrest as [He' Hr'].
        split; [by eapply extends_trans|auto].
Qed.

Lemma processLink_step linkMode force link ctx ctx' err :
  processLink linkMode force link ctx = (ctx', err) →
  extends ctx ctx' ∧ (registered ctx → registered ctx').
Proof.
  unfold processLink. destruct (Stat (root ctx) _) as [info|e]; [|by intros [= <- <-]].
  destruct (IsDir info).
  - destruct (Walk _ _ _ _ _) as [ctx1 err1] eqn:Hwalk.
    assert (extends ctx ctx1 ∧ (registered ctx → registered ctx1)) as Hstep.
    { unfold Walk in Hwalk. destruct (Lstat (root ctx) _) as [info'|e].
      - by eapply walk_step.
      - by injection Hwalk as <- <-. }
    by destruct err1; intros [= <- <-].
  - destruct (createLink _ _ _ _ _) as [ctx1 err1] eqn:Hlink.
    apply createLink_step in Hlink. by destruct err1; intros [= <- <-].
Qed.

Lemma processLinks_step linkMode force links :
  ∀ ctx ctx' err,
    processLinks linkMode force links ctx = (ctx', err) →
    extends ctx ctx' ∧ (registered ctx → registered ctx').
Proof.
  induction links as [|link rest IH]; intros ctx ctx' err; simpl.
  - by intros [= <- <-].
  - destruct (processLink linkMode force link ctx) as [ctx1 [e|]] eqn:Hlink.
    + intros [= <- <-]. by eapply processLink_step.
    + intros Hrest. apply processLink_step in Hlink as [He Hr].
      apply IH in Hrest as [He' Hr']. split; [by eapply extends_trans|auto].
Qed.

(** X18.  What a call of createLink records: on success the target path is
    appended to the created links and the registry holds the entry of
    the target (link mode copy for an ignore file) while the entries of
    the other paths are as before, and the link mode was a supported
    one unless the target is an ignore file; on failure nothing is
    recorded. *)
Theorem createLink_records :
  ∀ (src dst linkMode : string) (force : bool) (ctx : Ctx),
    let r := createLink src dst linkMode force ctx in
    let relPath := Strings.TrimPrefix dst "overlay/" in
    match r.2 with
    | None =>
        createdLinks r.1 = createdLinks ctx ++ [dst]
        ∧ IsManagedFile (state r.1) relPath
          = Some (mkManagedFile relPath
                    (if Strings.HasSuffix dst ".gitignore" then "copy" else linkMode)
                    (Strings.TrimPrefix src ".upstream/"))
        ∧ (∀ q, q ≠ relPath → IsManagedFile (state r.1) q = IsManagedFile (state ctx) q)
        ∧ validatePath "overlay" relPath = Ok tt
        ∧ (Strings.HasSuffix dst ".gitignore" = true
           ∨ linkMode = "symlink" ∨ linkMode = "hardlink" ∨ linkMode = "copy")
    | Some _ => createdLinks r.1 = createdLinks ctx ∧ state r.1 = state ctx
    end.
Proof.
  intros src dst linkMode force ctx r relPath. subst r relPath. unfold createLink.
  destruct (validatePath _ _) as [[]|]; [|done].
  destruct (MkdirAll _ _) as [root1 [e|]]; [done|].
  destruct (handleExisting _ _ _) as [root2|e]; [|done].
  destruct (Strings.HasSuffix dst ".gitignore").
  - destruct (copyFile root2 src dst) as [root3 [e|]]; [done|]. simpl.
    split_and!; [done|apply IsManagedFile_AddManagedFile| |done|by left].
    intros q Hq. by apply IsManagedFile_AddManagedFile_ne.
  - destruct (makeLink root2 src dst linkMode) as [root3 [e|]] eqn:Hlink; [done|]. simpl.
    split_and!; [done|apply IsManagedFile_AddManagedFile| |done|].
    + intros q Hq. by apply IsManagedFile_AddManagedFile_ne.
    + right. unfold makeLink in Hlink.
      destruct (String.eqb_spec linkMode "symlink"); [by left|].
      destruct (String.eqb_spec linkMode "hardlink"); [by right; left|].
      destruct (String.eqb_spec linkMode "copy"); [by right; right|done].
Qed.

(** X19.  After a successful materialization the saved registry has an
    entry for every link created in the run, .gitignore ends with the
    managed block that lists these links, and the registry still has
    an entry for every path that was registered before. *)
Theorem CreateLinks_registers_created_links :
  ∀ (flagLinkMode : string) (force : bool) (cfg : Link.Config) (w w1 : World)
    (st : State),
    LoadState w = Ok st →
    CreateLinks flagLinkMode force cfg w = (w1, None) →
    ∃ ctx,
      processLinks (if String.eqb (LinkMode_ cfg) "" then flagLinkMode else LinkMode_ cfg)
        force (Symlinks cfg) (mkCtx (fs w) [] st) = (ctx, None)
      ∧ stateFile w1 = StateStored (state ctx)
      ∧ (∀ dst, dst ∈ createdLinks ctx →
                IsManagedFile (state ctx) (Strings.TrimPrefix dst "overlay/") ≠ None)
      ∧ (∀ q, IsManagedFile st q ≠ None → IsManagedFile (state ctx) q ≠ None)
      ∧ (∃ text, ReadFile (fs w1) ".gitignore" = Ok text
                 ∧ Strings.HasSuffix text (managedBlock (createdLinks ctx)) = true).
Proof.
  intros flagLinkMode force cfg w w1 st Hload. unfold CreateLinks. rewrite Hload.
  destruct (processLinks _ _ _ _) as [ctx [e|]] eqn:Hlinks; [done|].
  destruct (updateGitignore _ _) as [root'|e] eqn:Hignore; [|done].
  unfold SaveState. cbn [stateWritable]. destruct (stateWritable w); [|done]. intros [= <-].
  exists ctx. pose proof Hlinks as Hlinks'.
  apply processLinks_step in Hlinks' as [[_ Hkeep] Hreg].
  split_and!; [done|done| |done|by apply updateGitignore_written in Hignore].
  apply Hreg. intros dst Hdst. by inversion Hdst.
Qed.

Lemma CreateLinks_registers_created_links_witness :
  ∃ ctx,
    processLinks "symlink" false (Symlinks libraryConfig)
      (mkCtx (fs libraryWorld) [] (mkState [])) = (ctx, None)
    ∧ stateFile (CreateLinks "symlink" false libraryConfig libraryWorld).1
      = StateStored (state ctx)
    ∧ (∀ dst, dst ∈ createdLinks ctx →
              IsManagedFile (state ctx) (Strings.TrimPrefix dst "overlay/") ≠ None)
    ∧ (∀ q, IsManagedFile (mkState []) q ≠ None → IsManagedFile (state ctx) q ≠ None)
    ∧ (∃ text,
         ReadFile (fs (CreateLinks "symlink" false libraryConfig libraryWorld).1) ".gitignore"
         = Ok text
         ∧ Strings.HasSuffix text (managedBlock (createdLinks ctx)) = true).
Proof.
  apply (CreateLinks_registers_created_links "symlink" false libraryConfig libraryWorld).
  - reflexivity.
  - vm_compute. reflexivity.
Defined.

End Bookkeeping.

(** ** Directory tracking (cmd/dir_info.go) *)

Section CleanLength.
Import Filepath Strings PathSpec.

Lemma Join_Split s : Join (Split s "/") "/" = s.
Proof.
  induction s as [|d s IH]; [done|]. simpl.
  destruct (Ascii.eqb_spec d "/") as [->|Hd].
  - pose proof (Split_nonempty s "/") as (h & t & Hs). rewrite Hs in *.
    change (Join ("" :: h :: t) "/") with ("" +:+ "/" +:+ Join (h :: t) "/").
    by rewrite IH.
  - pose proof (Split_nonempty s "/") as (h & t & Hs). rewrite Hs in *.
    destruct t as [|h' t].
    + simpl in *. by rewrite IH.
    + change (Join (String d h :: h' :: t) "/")
        with (String d (h +:+ "/" +:+ Join (h' :: t) "/")).
      change (Join (h :: h' :: t) "/") with (h +:+ "/" +:+ Join (h' :: t) "/") in IH.
      by rewrite IH.
Qed.

Lemma length_Join_cons x l sep :
  String.length (Join (x :: l) sep)
  = String.length x
    + match l with [] => 0 | _ => String.length sep + String.length (Join l sep) end.
Proof.
  destruct l as [|y l]; [simpl; lia|].
  change (Join (x :: y :: l) sep) with (x +:+ sep +:+ Join (y :: l) sep).
  by rewrite !length_app_string.
Qed.

Lemma length_Join_sublist l1 l2 sep :
  l1 `sublist_of` l2 → String.length (Join l1 sep) ≤ String.length (Join l2 sep).
Proof.
  induction 1 as [|x l1 l2 Hsub IH|x l1 l2 Hsub IH]; [done| |].
  - rewrite !length_Join_cons. destruct l1 as [|y l1], l2 as [|z l2]; try lia.
    by apply sublist_nil_r in Hsub.
  - rewrite length_Join_cons. destruct l2 as [|z l2]; [|lia].
    apply sublist_nil_r in Hsub as ->. simpl. lia.
Qed.

Lemma cleanElems_sublist rooted elems out :
  rev (cleanElems rooted elems out) `sublist_of` rev out ++ elems.
Proof.
  revert out. induction elems as [|e r IH]; intros out; simpl.
  - by rewrite app_nil_r.
  - assert (∀ out', rev out' `sublist_of` rev out →
                    rev (cleanElems rooted r out') `sublist_of` rev out ++ e :: r) as Hskip.
    { intros out' Hsub. etrans; [apply IH|]. apply sublist_app; [done|].
      by apply sublist_cons. }
    destruct (String.eqb e ""); [by apply Hskip|].
    destruct (String.eqb e "."); [by apply Hskip|].
    destruct (String.eqb_spec e "..") as [->|He].
    + destruct out as [|top out']; [destruct rooted|].
      * by apply Hskip.
      * exact (IH [".."]).
      * destruct (String.eqb top "..").
        -- destruct rooted; [by apply Hskip|].
           specialize (IH (".." :: top :: out')).
           change (rev (".." :: top :: out')) with (rev (top :: out') ++ [".."]) in IH.
           by rewrite <- app_assoc in IH.
        -- apply Hskip. cbn [rev]. by apply sublist_inserts_r.
    + specialize (IH (e :: out)). cbn [rev] in IH. by rewrite <- app_assoc in IH.
Qed.

Lemma Clean_length s : Clean s = "." ∨ String.length (Clean s) ≤ String.length s.
Proof.
  unfold Clean. destruct (String.eqb_spec s ""); [by left|].
  destruct (HasPrefix s "/") eqn:Hrooted.
  - right. destruct s as [|d s']; [done|]. simpl in Hrooted.
    destruct (Ascii.eqb_spec d "/") as [->|]; [|done].
    unfold Separator. cbn [Split]. change (Ascii.eqb "/" "/") with true. cbv iota.
    change (cleanElems true ("" :: Split s' "/") []) with (cleanElems true (Split s' "/") []).
    rewrite length_app_string. cbn [String.length].
    pose proof (length_Join_sublist _ _ "/" (cleanElems_sublist true (Split s' "/") [])) as Hle.
    simpl in Hle. rewrite Join_Split in Hle. lia.
  - destruct (rev (cleanElems false (Split s Separator) [])) as [|e out] eqn:Hout;
      [by left|]. right. rewrite <- Hout.
    pose proof (length_Join_sublist _ _ "/" (cleanElems_sublist false (Split s "/") [])) as Hle.
    simpl in Hle. rewrite Join_Split in Hle. done.
Qed.

Lemma dirPrefix_shape path :
  dirPrefix path = "" ∨ ∃ q, dirPrefix path = q +:+ "/"
                             ∧ String.length q < String.length path.
Proof.
  induction path as [|c s IH]; [by left|]. cbn [dirPrefix].
  destruct (Contains (String c s) "/") eqn:Hslash; [|by left].
  right. destruct IH as [Hs|(q & Hq & Hlen)].
  - rewrite Hs. exists "". cbn [String.length]. split; [|lia].
    assert (Contains s "/" = false) as Hno.
    { destruct s as [|d s']; [done|]. cbn [dirPrefix] in Hs.
      by destruct (Contains (String d s') "/"). }
    cbn [Contains] in Hslash. rewrite Hno, orb_false_r in Hslash.
    cbn [HasPrefix] in Hslash. destruct (Ascii.eqb_spec c "/") as [->|]; [done|].
    by rewrite andb_false_l in Hslash.
  - rewrite Hq. exists (String c q). split; [done|]. cbn [String.length]. lia.
Qed.

(** filepath.Dir shortens a path, or gives the current directory or
    the root. *)
Lemma Dir_shorter path :
  Dir path = "." ∨ Dir path = "/" ∨ String.length (Dir path) < String.length path.
Proof.
  unfold Dir. destruct (dirPrefix_shape path) as [->|(q & -> & Hlen)]; [by left|].
  destruct (String.eqb_spec q "") as [->|Hq]; [by right; left|].
  rewrite Clean_trailing_sep by done.
  destruct (Clean_length q) as [->|Hle]; [by left|]. right. right. lia.
Qed.

End CleanLength.

Section InitDirFacts.
Import Dirs.

Lemma InitDir_present fuel dir dirMap info :
  dirMap !! dir = Some info → InitDir fuel dir dirMap = Some (info, dirMap).
Proof. intros H. destruct fuel; simpl; by rewrite H. Qed.

Lemma InitDir_eq fuel dir dirMap :
  InitDir fuel dir dirMap
  = match dirMap !! dir with
    | Some info => Some (info, dirMap)
    | None =>
        if negb (String.eqb dir "overlay") then
          match fuel with
          | 0 => None
          | S fuel' =>
              match InitDir fuel' (Filepath.Dir dir) (<[dir := newDirInfo]> dirMap) with
              | Some (_, dirMap') => Some (newDirInfo, dirMap')
              | None => None
              end
          end
        else Some (newDirInfo, <[dir := newDirInfo]> dirMap)
    end.
Proof. by destruct fuel. Qed.

Lemma steps_Dir dir :
  dir ≠ "." → dir ≠ "/" → steps (Filepath.Dir dir) < steps dir.
Proof.
  intros H1 H2. unfold steps at 2.
  destruct (String.eqb_spec dir "."); [done|]. destruct (String.eqb_spec dir "/"); [done|].
  simpl. unfold steps. destruct (Dir_shorter dir) as [->|[->|Hlt]]; [simpl; lia..|].
  destruct (_ || _); lia.
Qed.

Lemma InitDir_returns_aux n :
  ∀ dir dirMap fuel, steps dir < n → n ≤ fuel →
                     is_Some (InitDir fuel dir dirMap).
Proof.
  induction n as [|n IH]; intros dir dirMap fuel Hn Hfuel; [lia|].
  rewrite InitDir_eq. destruct (dirMap !! dir) as [info|] eqn:Hdir; [by eauto|].
  destruct (negb (String.eqb dir "overlay")); [|by eauto].
  destruct (decide (dir = "." ∨ dir = "/")) as [Hfix|Hnofix].
  - destruct fuel as [|fuel']; [lia|].
    assert (Filepath.Dir dir = dir) as -> by (by destruct Hfix as [->| ->]).
    rewrite (InitDir_present _ _ _ newDirInfo) by apply lookup_insert_eq. by eauto.
  - assert (steps (Filepath.Dir dir) < steps dir) as Hlt by (apply steps_Dir; tauto).
    destruct fuel as [|fuel']; [lia|].
    destruct (IH (Filepath.Dir dir) (<[dir := newDirInfo]> dirMap) fuel') as [[i m] ->];
      [lia..|by eauto].
Qed.

Lemma InitDir_fuel fuel dir dirMap r :
  InitDir fuel dir dirMap = Some r → ∀ fuel', fuel ≤ fuel' → InitDir fuel' dir dirMap = Some r.
Proof.
  revert dir dirMap r. induction fuel as [|fuel IH]; intros dir dirMap r Hrun fuel' Hle;
    rewrite InitDir_eq in Hrun |- *.
  - destruct (dirMap !! dir); [done|]. by destruct (negb (String.eqb dir "overlay")).
  - destruct (dirMap !! dir); [done|]. destruct (negb (String.eqb dir "overlay")); [|done].
    destruct fuel' as [|fuel']; [lia|].
    destruct (InitDir fuel (Filepath.Dir dir) _) as [[i m]|] eqn:Hrec; [|done].
    by rewrite (IH _ _ _ Hrec fuel') by lia.
Qed.

(** X20.  InitDir returns: the recursion over the parents of a directory
    ends, at "overlay", at a directory that is tracked already, or
    at the current directory or the root, which are their own
    parents. *)
Theorem InitDir_returns :
  ∀ (dir : string) (dirMap : gmap string DirInfo),
    ∃ info dirMap',
      ∀ fuel, String.length dir + 2 ≤ fuel →
              InitDir fuel dir dirMap = Some (info, dirMap').
Proof.
  intros dir dirMap.
  destruct (InitDir_returns_aux (S (steps dir)) dir dirMap (String.length dir + 2))
    as [[info dirMap'] Hrun].
  - lia.
  - unfold steps. destruct (_ || _); lia.
  - exists info, dirMap'. intros fuel Hfuel. by eapply InitDir_fuel.
Qed.

Lemma InitDir_spec fuel :
  ∀ dir dirMap info dirMap',
    InitDir fuel dir dirMap = Some (info, dirMap') →
    dirMap' !! dir = Some info
    ∧ dirMap ⊆ dirMap'
    ∧ (dirMap !! dir = None → info = newDirInfo)
    ∧ (∀ k, is_Some (dirMap' !! k) → is_Some (dirMap !! k) ∨ dirMap' !! k = Some newDirInfo).
Proof.
  induction fuel as [|fuel IH]; intros dir dirMap info dirMap' Hrun;
    rewrite InitDir_eq in Hrun.
  all: destruct (dirMap !! dir) as [i|] eqn:Hdir;
    [simplify_eq; split_and!; [done|done|done|by left]|].
  all: destruct (String.eqb_spec dir "overlay") as [->|Hne]; simpl in Hrun; try done.
  1,2: simplify_eq; split_and!;
    [apply lookup_insert_eq|by apply insert_subseteq|done|];
    intros k Hk; destruct (decide (k = "overlay")) as [->|Hk'];
    [right; apply lookup_insert_eq|left; by rewrite lookup_insert_ne in Hk].
  destruct (InitDir fuel (Filepath.Dir dir) _) as [[i m]|] eqn:Hrec; [|done].
  simplify_eq. destruct (IH _ _ _ _ Hrec) as (Hparent & Hsub & _ & Hnew).
  assert (dirMap' !! dir = Some newDirInfo) as Hdir'.
  { eapply lookup_weaken; [apply lookup_insert_eq|done]. }
  split_and!; [done| |done|].
  - etrans; [by apply insert_subseteq|done].
  - intros k Hk. destruct (Hnew k Hk) as [Hold|Hfresh]; [|by right].
    destruct (decide (k = dir)) as [->|Hk']; [by right|].
    left. by rewrite lookup_insert_ne in Hold.
Qed.

Lemma InitDir_parents fuel :
  ∀ dir dirMap info dirMap',
    InitDir fuel dir dirMap = Some (info, dirMap') →
    (∀ k, is_Some (dirMap !! k) → k ≠ "overlay" →
          is_Some (dirMap !! Filepath.Dir k) ∨ Filepath.Dir k = dir) →
    parentsTracked dirMap'.
Proof.
  induction fuel as [|fuel IH]; intros dir dirMap info dirMap' Hrun Hp;
    rewrite InitDir_eq in Hrun.
  all: destruct (dirMap !! dir) as [i|] eqn:Hdir;
    [simplify_eq; intros k Hk Hk'; destruct (Hp k Hk Hk') as [?| ->]; [done|by eauto]|].
  all: assert (∀ k, is_Some (<[dir := newDirInfo]> dirMap !! k) → k ≠ "overlay" →
                    k = dir ∨ is_Some (<[dir := newDirInfo]> dirMap !! Filepath.Dir k))
         as Hp1.
  1,3: intros k Hk Hk'; destruct (decide (k = dir)) as [->|Hkd]; [by left|right];
    rewrite lookup_insert_ne in Hk by done;
    destruct (Hp k Hk Hk') as [[v Hv]| ->];
    [exists v; eapply lookup_weaken; [done|by apply insert_subseteq]
    |rewrite lookup_insert_eq; by eauto].
  all: destruct (String.eqb_spec dir "overlay") as [->|Hne]; simpl in Hrun; try done.
  1,2: simplify_eq; intros k Hk Hk'; by destruct (Hp1 k Hk Hk') as [->|?].
  destruct (InitDir fuel (Filepath.Dir dir) _) as [[i m]|] eqn:Hrec; [|done].
  simplify_eq. eapply IH; [done|].
  intros k Hk Hk'. destruct (Hp1 k Hk Hk') as [->|?]; [by right|by left].
Qed.

(** X21.  What InitDir leaves: the directory is tracked, with the DirInfo
    that is returned; what was tracked before is tracked as before
    (a directory that was tracked is returned as it is); every newly
    tracked directory has the initial DirInfo; when every tracked
    directory had its parent tracked, so it is afterwards; and a
    second InitDir of the directory changes nothing. *)
Theorem InitDir_tracks_the_parents :
  ∀ (fuel : nat) (dir : string) (dirMap : gmap string DirInfo)
    (info : DirInfo) (dirMap' : gmap string DirInfo),
    InitDir fuel dir dirMap = Some (info, dirMap') →
    dirMap' !! dir = Some info
    ∧ dirMap ⊆ dirMap'
    ∧ (∀ k, is_Some (dirMap' !! k) →
            is_Some (dirMap !! k) ∨ dirMap' !! k = Some newDirInfo)
    ∧ (parentsTracked dirMap → parentsTracked dirMap')
    ∧ (∀ fuel', InitDir fuel' dir dirMap' = Some (info, dirMap')).
Proof.
  intros fuel dir dirMap info dirMap' Hrun.
  destruct (InitDir_spec _ _ _ _ _ Hrun) as (Hdir & Hsub & _ & Hnew).
  split_and!; [done..| |].
  - intros Hp. eapply InitDir_parents; [done|]. intros k Hk Hk'. left. by apply Hp.
  - intros fuel'. by apply InitDir_present.
Qed.

Lemma InitDir_tracks_the_parents_witness :
  ∃ info dirMap',
    InitDir 3 "overlay/a/b" ∅ = Some (info, dirMap')
    ∧ is_Some (dirMap' !! "overlay/a/b") ∧ is_Some (dirMap' !! "overlay/a")
    ∧ is_Some (dirMap' !! "overlay") ∧ parentsTracked dirMap'.
Proof.
  destruct (InitDir 3 "overlay/a/b" ∅) as [[info dirMap']|] eqn:Hrun; [|by vm_compute in Hrun].
  exists info, dirMap'.
  destruct (InitDir_tracks_the_parents _ _ _ _ _ Hrun) as (Hdir & _ & _ & Hp & _).
  assert (parentsTracked dirMap') as Hp'.
  { apply Hp. intros k [v Hk]. by rewrite lookup_empty in Hk. }
  assert (is_Some (dirMap' !! "overlay/a")) as Ha.
  { apply (Hp' "overlay/a/b"); [by rewrite Hdir|done]. }
  split_and!; [done|by rewrite Hdir|done| |done].
  by apply (Hp' "overlay/a").
Defined.

End InitDirFacts.

(** ** Mappings in string form (internal/config/types.go) *)

Section StringForm.
Import OS Config Link Types.

(** X22.  A mapping in string form is the mapping from the path to the same
    path: the materializer treats the SymlinkSpec that UnmarshalYAML
    makes of a string like the one it makes of the struct with that
    string as from and as to. *)
Theorem string_form_maps_path_to_itself :
  ∀ (str : string) (asStruct : option (string * string))
    (linkMode : string) (force : bool) (ctx : Ctx),
    ∃ spec spec',
      UnmarshalYAML (Some str) asStruct = Some spec
      ∧ UnmarshalYAML None (Some (str, str)) = Some spec'
      ∧ From spec = str ∧ To spec = str ∧ String_ spec = str
      ∧ processLink linkMode force spec ctx = processLink linkMode force spec' ctx.
Proof.
  intros str asStruct linkMode force ctx.
  exists (mkSymlinkSpec str str str), (mkSymlinkSpec str str "").
  split_and!; [done..|]. unfold processLink. simpl.
  by destruct (String.eqb_spec str "") as [->|Hne].
Qed.

End StringForm.
